(** * sv-staden build scripts: a shallow embedding and its verified properties

    The repository holds three small pipelines: a fetcher that mirrors the
    images of a hosted content database, an optimizer that recompresses the
    images of a directory tree behind a content-hash cache, and a record
    shaper that turns database pages into article records.  Each pipeline is
    embedded below as executable definitions; the outside world (network,
    image codec, digest, clock, date parsing) enters as section variables. *)

From Stdlib Require Import ZArith NArith List Lia String Ascii Bool.
From stdpp Require Import base option list gmap.
Import ListNotations.

Local Open Scope N_scope.

(** ** JavaScript strings

    A JavaScript string is a sequence of UTF-16 code units. *)

Module JS.

Abbreviation jsstring := (list N).

(** Code units of an ASCII literal. *)
Definition js (s : string) : jsstring :=
  List.map N_of_ascii (list_ascii_of_string s).

(** [String.prototype.toLowerCase], code unit by code unit: A-Z and the
    capital letters of Latin-1 Supplement (U+00C0..U+00DE without the
    multiplication sign) move by 32; the three code units outside these
    blocks whose lower case lies in them are mapped as Unicode says (Kelvin
    sign to k, capital I with dot above to i and a combining dot, capital
    sharp s to sharp s); every other code unit is kept.  The lower case of a
    kept code unit is never an ASCII letter or digit nor one of the four
    letters that [slugify] transliterates. *)
Definition lowerUnit (c : N) : jsstring :=
  if ((65 <=? c) && (c <=? 90)) || ((192 <=? c) && (c <=? 222) && negb (c =? 215))
  then [c + 32]
  else if c =? 8490 then [107]
  else if c =? 304 then [105; 775]
  else if c =? 7838 then [223]
  else [c].

Definition toLowerCase (s : jsstring) : jsstring := flat_map lowerUnit s.

(** [s.startsWith(p)] *)
Fixpoint startsWith (p s : jsstring) : bool :=
  match p, s with
  | [], _ => true
  | _ :: _, [] => false
  | a :: p', b :: s' => (a =? b) && startsWith p' s'
  end.

(** [s.includes(p)] *)
Fixpoint includes (p s : jsstring) : bool :=
  startsWith p s ||
  match s with
  | [] => false
  | _ :: s' => includes p s'
  end.

(** [s.replace(pat, rep)] with a string pattern: only the first occurrence is
    replaced ([rep] holds no dollar pattern in this code base). *)
Fixpoint replace (pat rep s : jsstring) : jsstring :=
  if startsWith pat s then rep ++ drop (length pat) s
  else match s with
       | [] => []
       | c :: s' => c :: replace pat rep s'
       end.

(** [a === b] on strings *)
Definition strictEq (a b : jsstring) : bool := bool_decide (a = b).

(** [arr.includes(x)] on an array of strings *)
Definition arrayIncludes (x : jsstring) (arr : list jsstring) : bool :=
  bool_decide (x ∈ arr).

End JS.
Import JS.

(** ** Slug derivation (the same function in the fetcher and in every shaper) *)

Module Slug.

Definition hyphen : N := 45.

(** the class [a-z0-9] *)
Definition isAlnum (c : N) : bool :=
  ((97 <=? c) && (c <=? 122)) || ((48 <=? c) && (c <=? 57)).

(** the class of the four transliterated letters: a-umlaut, o-umlaut,
    u-umlaut and sharp s *)
Definition isUmlaut (c : N) : bool :=
  (c =? 228) || (c =? 246) || (c =? 252) || (c =? 223).

(** the lookup table [map] of the replacer callback *)
Definition map_ (c : N) : option jsstring :=
  if c =? 228 then Some (js "ae")
  else if c =? 246 then Some (js "oe")
  else if c =? 252 then Some (js "ue")
  else if c =? 223 then Some (js "ss")
  else None.

(** [.replace(/[äöüß]/g, (char) => map[char] || char)] *)
Definition replaceUmlauts (s : jsstring) : jsstring :=
  flat_map (fun c => if isUmlaut c
                     then match map_ c with Some r => r | None => [c] end
                     else [c]) s.

(** [.replace(/[^a-z0-9]+/g, '-')]: every maximal run of code units outside
    a-z0-9 becomes one hyphen; [inRun] tells that the run has begun. *)
Fixpoint collapseRuns (inRun : bool) (s : jsstring) : jsstring :=
  match s with
  | [] => []
  | c :: r =>
      if isAlnum c then c :: collapseRuns false r
      else if inRun then collapseRuns true r
      else hyphen :: collapseRuns true r
  end.

(** [.replace(/(^-|-$)/g, '')]: scanning from the left, a hyphen is dropped
    when it stands at index 0 or at the last index. *)
Fixpoint stripEdges (atStart : bool) (s : jsstring) : jsstring :=
  match s with
  | [] => []
  | c :: r =>
      if (c =? hyphen) && (atStart || bool_decide (r = []))
      then stripEdges false r
      else c :: stripEdges false r
  end.

Definition slugify (text : jsstring) : jsstring :=
  stripEdges true (collapseRuns false (replaceUmlauts (toLowerCase text))).

(** What a slug looks like. *)
Definition slugUnit (c : N) : Prop := isAlnum c = true ∨ c = hyphen.

Fixpoint noDoubleHyphen (s : jsstring) : Prop :=
  match s with
  | a :: ((b :: _) as r) => ¬ (a = hyphen ∧ b = hyphen) ∧ noDoubleHyphen r
  | _ => True
  end.

Definition wellFormedSlug (s : jsstring) : Prop :=
  Forall slugUnit s ∧ head s ≠ Some hyphen ∧ last s ≠ Some hyphen ∧ noDoubleHyphen s.

End Slug.

(** ** Paths (the two functions of Node's [path] module that the scripts use) *)

Module Path.

Definition slash : N := 47.
Definition dot : N := 46.

Fixpoint dropSlashes (r : jsstring) : jsstring :=
  match r with
  | [] => []
  | c :: r' => if c =? slash then dropSlashes r' else r
  end.

(** the code units before the first [x] *)
Fixpoint untilUnit (x : N) (r : jsstring) : jsstring :=
  match r with
  | [] => []
  | c :: r' => if c =? x then [] else c :: untilUnit x r'
  end.

(** the code units after the first [x], when there is one *)
Fixpoint afterUnit (x : N) (r : jsstring) : option jsstring :=
  match r with
  | [] => None
  | c :: r' => if c =? x then Some r' else afterUnit x r'
  end.

(** [path.extname] (POSIX): the path is scanned from its end; trailing slashes
    are skipped, the last component is cut at the next slash, and the
    extension runs from the last dot of that component to its end.  It is
    empty when the component has no dot, when its only dot is its first code
    unit, and when the component is [..]. *)
Definition extname (p : jsstring) : jsstring :=
  let comp := untilUnit slash (dropSlashes (rev p)) in
  match afterUnit dot comp with
  | None => []
  | Some [] => []
  | Some (_ :: _) =>
      if bool_decide (comp = [dot; dot]) then []
      else dot :: rev (untilUnit dot comp)
  end.

(** [path.join(dir, file)] for a normalized directory path without a trailing
    slash and a directory entry name, the only way the optimizer calls it. *)
Definition join (dir file : jsstring) : jsstring := dir ++ slash :: file.

End Path.

(** ** Completions: a call either returns or throws *)

Inductive completion (A : Type) : Type :=
| Normal (a : A)
| Throw (e : jsstring).
Arguments Normal {A} a.
Arguments Throw {A} e.

(** ** Record shaper *)

Module Shaper.

Record NewsArticle := {
  id : jsstring;
  title : jsstring;
  date : jsstring;
  category : jsstring;
  excerpt : jsstring;
  content : jsstring;
  image : option jsstring;
  author : jsstring;
  slug : jsstring
}.

(** The value of a [Date] object: a time value, or the invalid date. *)
Inductive Date :=
| InvalidDate
| TimeValue (t : Z).

Section WithRuntime.

(** [await getPublishedNews()]: the shaped records of the published pages,
    in the order the content source returns them. *)
Variable getPublishedNews : list NewsArticle.

(** [new Date(dateString)]: the engine's date parser; it never throws. *)
Variable newDate : jsstring -> Date.

(** The de-DE rendering of a valid time value with the options
    day 2-digit, month long, year numeric. *)
Variable renderDE : Z -> completion jsstring.

(** [articles.find(article => article.slug === slug) || null] *)
Definition getNewsArticle (slug_ : jsstring) : option NewsArticle :=
  List.find (fun article => strictEq (slug article) slug_) getPublishedNews.

Definition getNewsByCategory (category_ : jsstring) : list NewsArticle :=
  let articles := getPublishedNews in
  if strictEq category_ (js "Alle") then articles
  else List.filter (fun article => strictEq (category article) category_) articles.

(** [date.toLocaleDateString('de-DE', ...)]: the invalid date renders as the
    text Invalid Date (ECMA-402), a valid one through the locale data. *)
Definition toLocaleDateString (d : Date) : completion jsstring :=
  match d with
  | InvalidDate => Normal (js "Invalid Date")
  | TimeValue t => renderDE t
  end.

(** [isNaN(date.getTime())] *)
Definition isInvalid (d : Date) : bool :=
  match d with InvalidDate => true | TimeValue _ => false end.

Definition placeholder : jsstring := js "Kein Datum".

(** [formatDate] of the shaper that reads the image map from disk
    ("Datum formatieren mit Fallback"). *)
Definition formatDate (dateString : jsstring) : completion jsstring :=
  if bool_decide (dateString = []) then Normal placeholder
  else
    let date := newDate dateString in
    (* try *)
    if isInvalid date then Normal placeholder
    else match toLocaleDateString date with
         | Normal s => Normal s
         | Throw _ => (* catch *) Normal placeholder
         end.

(** [formatDate] of the two other shaper modules (the text is the same in
    both): no guard and no try block. *)
Definition formatDatePlain (dateString : jsstring) : completion jsstring :=
  let date := newDate dateString in
  toLocaleDateString date.

End WithRuntime.

End Shaper.

(** ** Fetcher: the download of one image *)

Module Fetcher.

Inductive Protocol := Https | Http.

(** What [protocol.get(url, callback)] leads to: the call throws at once
    because the address is not a valid URL; the request emits [error] before
    any response; the callback receives a response whose body arrives whole;
    or the callback receives a response and the connection is lost before
    the end of its body, of which [partial] has arrived.  Only the request
    has an [error] handler, so nothing in the code hears of the last. *)
Inductive Response :=
| InvalidUrl
| TransportError (err : jsstring)
| Reply (statusCode : N) (location : option jsstring) (body : list Byte.byte)
| Interrupted (statusCode : N) (location : option jsstring) (partial : list Byte.byte).

Inductive Rejection :=
| TypeError
| DownloadFailed (statusCode : N)
| RequestError (err : jsstring).

Inductive Settled :=
| Resolved (filepath : jsstring)
| Rejected (reason : Rejection)
| Pending.

(** [url.startsWith('https') ? https : http] *)
Definition protocolOf (url : jsstring) : Protocol :=
  if startsWith (js "https") url then Https else Http.

Section WithNetwork.

Variable get : Protocol -> jsstring -> Response.

(** [downloadImage(url, filepath)].  [url] is [None] when the caller passes
    [undefined] (a redirect without a Location header): [url.startsWith]
    then throws inside the promise executor, which rejects the promise.
    [fs.createWriteStream] opens the file for writing, which creates or
    truncates it.  The status is read when the headers arrive: a redirect is
    followed and every other status different from 200 rejects without the
    body being read.  The body of a 200 response is piped into the file, and
    the promise resolves when the file has finished; when the body breaks
    off, the file never finishes, nothing rejects, and what has arrived
    stays in the file.  The recursion follows the redirects.  The code
    counts nothing, but every call keeps the write stream that it opened, so
    a process can nest only as many calls as it can hold open streams:
    [fuel] is that number, and [Pending] is the promise that never
    settles. *)
Fixpoint downloadImage (fuel : nat) (url : option jsstring) (filepath : jsstring)
    (files : gmap jsstring (list Byte.byte)) : Settled * gmap jsstring (list Byte.byte) :=
  match fuel with
  | O => (Pending, files)
  | S fuel' =>
      match url with
      | None => (Rejected TypeError, files)
      | Some u =>
          let protocol := protocolOf u in
          let files1 := <[filepath := []]> files in
          match get protocol u with
          | InvalidUrl => (Rejected TypeError, files1)
          | TransportError err => (Rejected (RequestError err), delete filepath files1)
          | Reply statusCode location body =>
              if (statusCode =? 301) || (statusCode =? 302)
              then downloadImage fuel' location filepath files1
              else if negb (statusCode =? 200)
              then (Rejected (DownloadFailed statusCode), files1)
              else (Resolved filepath, <[filepath := body]> files1)
          | Interrupted statusCode location partial =>
              if (statusCode =? 301) || (statusCode =? 302)
              then downloadImage fuel' location filepath files1
              else if negb (statusCode =? 200)
              then (Rejected (DownloadFailed statusCode), files1)
              else (Pending, <[filepath := partial]> files1)
          end
      end
  end.

End WithNetwork.


End Fetcher.

(** ** Optimizer *)

Module Optimizer.

(** One entry of the cache object [imageCache]. *)
Record CacheEntry := {
  hash : jsstring;
  optimized : bool;
  originalSize : N;
  optimizedSize : N;
  timestamp : jsstring
}.

(** The state the script works on: the regular files with their bytes, the
    directories with the listing [fs.readdirSync] returns for each, the parsed
    content of the cache file ([None] when the file is missing or does not
    parse), whether that file can be written, the global [imageCache], and a
    counter of the clock readings taken so far. *)
Record World := {
  files : gmap jsstring (list Byte.byte);
  dirs : gmap jsstring (list jsstring);
  cacheFile : option (gmap jsstring CacheEntry);
  cacheWritable : bool;
  imageCache : gmap jsstring CacheEntry;
  clock : nat
}.

Definition withFiles (f : gmap jsstring (list Byte.byte)) (w : World) : World :=
  {| files := f; dirs := dirs w; cacheFile := cacheFile w;
     cacheWritable := cacheWritable w; imageCache := imageCache w; clock := clock w |}.

Definition withImageCache (c : gmap jsstring CacheEntry) (w : World) : World :=
  {| files := files w; dirs := dirs w; cacheFile := cacheFile w;
     cacheWritable := cacheWritable w; imageCache := c; clock := clock w |}.

Definition withCacheFile (c : option (gmap jsstring CacheEntry)) (w : World) : World :=
  {| files := files w; dirs := dirs w; cacheFile := c;
     cacheWritable := cacheWritable w; imageCache := imageCache w; clock := clock w |}.

Definition tick (w : World) : World :=
  {| files := files w; dirs := dirs w; cacheFile := cacheFile w;
     cacheWritable := cacheWritable w; imageCache := imageCache w; clock := S (clock w) |}.

(** The output settings handed to the codec. *)
Inductive Encoder :=
| jpeg (quality : N) (progressive mozjpeg : bool)
| png (compressionLevel : N) (progressive : bool)
| webp (quality : N).

(** What [pipeline.toFile(dst)] does: it writes the encoded bytes, or it throws,
    having left nothing or some bytes at [dst]. *)
Inductive Written :=
| Encoded (out : list Byte.byte)
| EncodeError (message : jsstring) (partial : option (list Byte.byte)).

(** The object [optimizeImage] returns ([savedPercent], a rounded quotient
    used in the log line only, is left out). *)
Inductive Result :=
| Success (resized : bool) (originalSize optimizedSize : N) (savedBytes : Z)
| Skipped (reason : jsstring)
| Error (message : jsstring).

(** A JavaScript value in a number position of the statistics. *)
Inductive jsval :=
| undefined
| Num (z : Z)
| NaN.

(** [a + b] on such values: [undefined] converts to [NaN]. *)
Definition plus (a b : jsval) : jsval :=
  match a, b with
  | Num x, Num y => Num (x + y)
  | _, _ => NaN
  end.

Record Stats := {
  processed : N;
  skipped : N;
  errors : N;
  totalSaved : jsval
}.

(** The message of the error that [fs] throws when [syscall] finds no file at
    [path].  A path without an entry in [files] is a path at which there is
    no file; a directory listed under the name of an image, or a file that
    may not be read, make these calls fail with other errors and are not
    among the worlds considered. *)
Definition ENOENT (syscall path : jsstring) : jsstring :=
  js "ENOENT: no such file or directory, " ++ syscall ++ js " '" ++ path ++ js "'".

(** The message of [sharp] for an input path at which there is no file. *)
Definition missingInput (path : jsstring) : jsstring :=
  js "Input file is missing: " ++ path.

Section WithEnvironment.

(** [path.join(__dirname, '..')] *)
Variable siteRoot : jsstring.

(** [crypto.createHash('md5').update(buffer).digest('hex')] *)
Variable md5 : list Byte.byte -> jsstring.

(** [sharp(src).metadata()] on a file with the given bytes: it throws, or
    gives the width ([None] when the field is undefined). *)
Variable metadata : jsstring -> list Byte.byte -> completion (option N).

(** [sharp(src)], resized to the given width when there is one, encoded with
    the settings and written to [dst]. *)
Variable toFile :
  option N -> Encoder -> jsstring -> list Byte.byte -> jsstring -> Written.

(** [new Date().toISOString()] at the n-th reading of the clock. *)
Variable now : nat -> jsstring.

(** *** CONFIG *)
Definition imageDirs : list jsstring :=
  [siteRoot ++ js "/public/images"; siteRoot ++ js "/public/images/news"].
Definition maxWidth : N := 1920.
Definition newsMaxWidth : N := 1200.
Definition jpegQuality : N := 85.
Definition webpQuality : N := 80.
Definition pngCompressionLevel : N := 9.
Definition supportedFormats : list jsstring :=
  [js ".jpg"; js ".jpeg"; js ".png"; js ".webp"].

Definition loadCache (w : World) : World :=
  match cacheFile w with
  | Some data => withImageCache data w
  | None => withImageCache ∅ w
  end.

Definition saveCache (w : World) : World :=
  if cacheWritable w then withCacheFile (Some (imageCache w)) w else w.

Definition getFileHash (filepath : jsstring) (w : World) : completion jsstring :=
  match files w !! filepath with
  | Some buffer => Normal (md5 buffer)
  | None => Throw (ENOENT (js "open") filepath)
  end.

Definition isOptimized (w : World) (filepath hash_ : jsstring) : bool :=
  match imageCache w !! filepath with
  | None => false
  | Some cached =>
      if negb (strictEq (hash cached) hash_) then false
      else if negb (optimized cached) then false
      else true
  end.

(** the effect of [toFile] on the files *)
Definition written (dst : jsstring) (o : Written) (w : World) : World :=
  match o with
  | Encoded out => withFiles (<[dst := out]> (files w)) w
  | EncodeError _ (Some part) => withFiles (<[dst := part]> (files w)) w
  | EncodeError _ None => w
  end.

Definition thrownBy (o : Written) : option jsstring :=
  match o with
  | Encoded _ => None
  | EncodeError message _ => Some message
  end.

(** [fs.renameSync(src, dst)] of an existing file *)
Definition renameSync (src dst : jsstring) (w : World) : World :=
  match files w !! src with
  | Some bytes => withFiles (<[dst := bytes]> (delete src (files w))) w
  | None => w
  end.

(** [fs.unlinkSync(p)] *)
Definition unlinkSync (p : jsstring) (w : World) : World :=
  withFiles (delete p (files w)) w.

Definition setEntry (filepath : jsstring) (e : CacheEntry) (w : World) : World :=
  withImageCache (<[filepath := e]> (imageCache w)) w.

(** [path.extname(filepath).toLowerCase()] *)
Definition extOf (filepath : jsstring) : jsstring :=
  toLowerCase (Path.extname filepath).

Definition tempPathOf (filepath : jsstring) : jsstring := filepath ++ js ".tmp".

(** [filepath.replace(ext, '.webp')] *)
Definition webpPathOf (ext filepath : jsstring) : jsstring :=
  replace ext (js ".webp") filepath.

Definition encoderFor (ext : jsstring) : option Encoder :=
  if strictEq ext (js ".jpg") || strictEq ext (js ".jpeg")
  then Some (jpeg jpegQuality true true)
  else if strictEq ext (js ".png")
  then Some (png pngCompressionLevel true)
  else if strictEq ext (js ".webp")
  then Some (webp webpQuality)
  else None.

(** The branch taken when the temporary file is smaller. *)
Definition commit (filepath ext : jsstring) (resized : bool)
    (originalSize_ optimizedSize_ : N) (w1 : World) : completion Result * World :=
  let tempPath := tempPathOf filepath in
  let w2 := renameSync tempPath filepath w1 in
  let sibling :=
    if negb (strictEq ext (js ".webp")) then
      let webpPath := webpPathOf ext filepath in
      match files w2 !! filepath with
      | None => (Some (missingInput filepath), w2)
      | Some input =>
          let o := toFile None (webp webpQuality) filepath input webpPath in
          (thrownBy o, written webpPath o w2)
      end
    else (None, w2) in
  match sibling with
  | (Some e, w3) => (Throw e, w3)
  | (None, w3) =>
      match getFileHash filepath w3 with
      | Throw e => (Throw e, w3)
      | Normal h =>
          (Normal (Success resized originalSize_ optimizedSize_
                     (Z.of_N originalSize_ - Z.of_N optimizedSize_)),
           setEntry filepath
             {| hash := h; optimized := true; originalSize := originalSize_;
                optimizedSize := optimizedSize_; timestamp := now (clock w3) |}
             (tick w3))
      end
  end.

(** The branch taken when the temporary file is not smaller. *)
Definition discard (filepath hash_ : jsstring) (originalSize_ : N) (w1 : World)
    : completion Result * World :=
  let w2 := unlinkSync (tempPathOf filepath) w1 in
  (Normal (Skipped (js "Keine Verbesserung m" ++ [246] ++ js "glich")),
   setEntry filepath
     {| hash := hash_; optimized := true; originalSize := originalSize_;
        optimizedSize := originalSize_; timestamp := now (clock w2) |}
     (tick w2)).

(** [isNewsImage ? CONFIG.newsMaxWidth : CONFIG.maxWidth] *)
Definition maxWidthFor (filepath : jsstring) : N :=
  if includes (js "/news/") filepath then newsMaxWidth else maxWidth.

(** [metadata.width && metadata.width > maxWidth] *)
Definition exceeds (width : option N) (maxWidth_ : N) : bool :=
  match width with
  | Some x => negb (x =? 0) && (maxWidth_ <? x)
  | None => false
  end.

(** the width handed to [resize], when the pipeline is resized *)
Definition resizeFor (filepath : jsstring) (width : option N) : option N :=
  if exceeds width (maxWidthFor filepath) then Some (maxWidthFor filepath) else None.

(** The body of the [try] block of [optimizeImage]. *)
Definition tryBlock (filepath ext hash_ : jsstring) (buffer : list Byte.byte)
    (originalSize_ : N) (w : World) : completion Result * World :=
  match metadata filepath buffer with
  | Throw e => (Throw e, w)
  | Normal width =>
      let resized := exceeds width (maxWidthFor filepath) in
      let tempPath := tempPathOf filepath in
      let encoded :=
        match encoderFor ext with
        | Some enc =>
            let o := toFile (resizeFor filepath width) enc filepath buffer tempPath in
            (thrownBy o, written tempPath o w)
        | None => (None, w)
        end in
      match encoded with
      | (Some e, w1) => (Throw e, w1)
      | (None, w1) =>
          match files w1 !! tempPath with
          | None => (Throw (ENOENT (js "stat") tempPath), w1)
          | Some temp =>
              let optimizedSize_ := N.of_nat (length temp) in
              if optimizedSize_ <? originalSize_
              then commit filepath ext resized originalSize_ optimizedSize_ w1
              else discard filepath hash_ originalSize_ w1
          end
      end
  end.

(** [optimizeImage(filepath)].  The hash is read before the [try] block, so
    a file that cannot be read makes the call itself throw. *)
Definition optimizeImage (filepath : jsstring) (w : World) : completion Result * World :=
  let ext := extOf filepath in
  if negb (arrayIncludes ext supportedFormats)
  then (Normal (Skipped (js "Nicht unterst" ++ [252] ++ js "tztes Format")), w)
  else
    match files w !! filepath with
    | None => (Throw (ENOENT (js "open") filepath), w)
    | Some buffer =>
        let hash_ := md5 buffer in
        if isOptimized w filepath hash_
        then (Normal (Skipped (js "Bereits optimiert")), w)
        else
          let originalSize_ := N.of_nat (length buffer) in
          match tryBlock filepath ext hash_ buffer originalSize_ w with
          | (Normal result, w') => (Normal result, w')
          | (Throw e, w') => (* catch *) (Normal (Error e), w')
          end
    end.

(** The counting of one result in [processDirectory]; an error result whose
    message is the empty string is falsy and moves no counter. *)
Definition count (result : Result) (stats : Stats) : Stats :=
  match result with
  | Success _ _ _ savedBytes =>
      {| processed := processed stats + 1; skipped := skipped stats;
         errors := errors stats;
         totalSaved := plus (totalSaved stats) (Num savedBytes) |}
  | Skipped _ =>
      {| processed := processed stats; skipped := skipped stats + 1;
         errors := errors stats; totalSaved := totalSaved stats |}
  | Error message =>
      if bool_decide (message = []) then stats
      else {| processed := processed stats; skipped := skipped stats;
              errors := errors stats + 1; totalSaved := totalSaved stats |}
  end.

(** The [for] loop of [processDirectory]. *)
Fixpoint processFiles (dirPath : jsstring) (imageFiles : list jsstring)
    (stats : Stats) (w : World) : completion Stats * World :=
  match imageFiles with
  | [] => (Normal stats, w)
  | file :: rest =>
      match optimizeImage (Path.join dirPath file) w with
      | (Throw e, w') => (Throw e, w')
      | (Normal result, w') => processFiles dirPath rest (count result stats) w'
      end
  end.

Definition isImageFile (file : jsstring) : bool :=
  arrayIncludes (extOf file) supportedFormats.

(** [CONFIG.supportedFormats.includes(ext)] holds for the path. *)
Definition supported (filepath : jsstring) : Prop :=
  arrayIncludes (extOf filepath) supportedFormats = true.

(** the paths a call on [filepath] may write *)
Definition footprint (filepath : jsstring) : list jsstring :=
  [filepath; tempPathOf filepath; webpPathOf (extOf filepath) filepath].

(** a directory that is missing or lists no supported image file *)
Definition nothingToDo (dirPath : jsstring) (w : World) : Prop :=
  dirs w !! dirPath = None
  ∨ ∃ entries, dirs w !! dirPath = Some entries ∧ List.filter isImageFile entries = [].

(** Two states agree away from the given paths. *)
Definition agreeOff (paths : list jsstring) (w w' : World) : Prop :=
  dirs w' = dirs w ∧ cacheFile w' = cacheFile w ∧ cacheWritable w' = cacheWritable w
  ∧ ∀ p, p ∉ paths → files w' !! p = files w !! p.

Definition processDirectory (dirPath : jsstring) (w : World) : completion Stats * World :=
  match dirs w !! dirPath with
  | None =>
      (Normal {| processed := 0; skipped := 0; errors := 0; totalSaved := undefined |}, w)
  | Some entries =>
      let imageFiles := List.filter isImageFile entries in
      if bool_decide (length imageFiles = 0%nat)
      then (Normal {| processed := 0; skipped := 0; errors := 0; totalSaved := undefined |}, w)
      else processFiles dirPath imageFiles
             {| processed := 0; skipped := 0; errors := 0; totalSaved := Num 0 |} w
  end.

(** The loop of [main] over [CONFIG.imageDirs]. *)
Fixpoint processDirs (dirPaths : list jsstring) (totalStats : Stats) (w : World)
    : completion Stats * World :=
  match dirPaths with
  | [] => (Normal totalStats, w)
  | dirPath :: rest =>
      match processDirectory dirPath w with
      | (Throw e, w') => (Throw e, w')
      | (Normal stats, w') =>
          processDirs rest
            {| processed := processed totalStats + processed stats;
               skipped := skipped totalStats + skipped stats;
               errors := errors totalStats + errors stats;
               totalSaved := plus (totalSaved totalStats) (totalSaved stats) |} w'
      end
  end.

(** *** The results of a run, file by file

    The loops above keep only the counters.  The functions below walk the
    same calls and list, for each file handled, its path and the result of
    its call; they stop where the loop stops. *)

Fixpoint fileOutcomes (dirPath : jsstring) (imageFiles : list jsstring) (w : World)
    : list (jsstring * Result) :=
  match imageFiles with
  | [] => []
  | file :: rest =>
      match optimizeImage (Path.join dirPath file) w with
      | (Throw _, _) => []
      | (Normal result, w') =>
          (Path.join dirPath file, result) :: fileOutcomes dirPath rest w'
      end
  end.

Definition directoryOutcomes (dirPath : jsstring) (w : World) : list (jsstring * Result) :=
  match dirs w !! dirPath with
  | None => []
  | Some entries => fileOutcomes dirPath (List.filter isImageFile entries) w
  end.

Fixpoint dirsOutcomes (dirPaths : list jsstring) (w : World) : list (jsstring * Result) :=
  match dirPaths with
  | [] => []
  | dirPath :: rest =>
      directoryOutcomes dirPath w ++
      match processDirectory dirPath w with
      | (Throw _, _) => []
      | (Normal _, w') => dirsOutcomes rest w'
      end
  end.

Definition mainOutcomes (w : World) : list (jsstring * Result) :=
  dirsOutcomes imageDirs (loadCache w).

(** the bytes saved by the successes of a list of results *)
Definition savedIn (outcomes : list (jsstring * Result)) : Z :=
  fold_right (fun fr acc =>
                match snd fr with
                | Success _ _ _ savedBytes => (savedBytes + acc)%Z
                | _ => acc
                end) 0%Z outcomes.

(** The file holds [content], and its cache entry is a hit for these bytes. *)
Definition settled (filepath : jsstring) (content : list Byte.byte) (w : World) : Prop :=
  supported filepath
  ∧ files w !! filepath = Some content
  ∧ ∃ cached,
      imageCache w !! filepath = Some cached
      ∧ hash cached = md5 content
      ∧ optimized cached = true.

(** the entries of a listing leave the path alone *)
Definition calm (filepath dirPath : jsstring) (imageFiles : list jsstring) : Prop :=
  ∀ file, file ∈ imageFiles → Path.join dirPath file ≠ filepath →
          filepath ∉ footprint (Path.join dirPath file).

(** No other image listed in a configured directory has the file as its
    temporary path or as its WebP path. *)
Definition undisturbed (filepath : jsstring) (w : World) : Prop :=
  ∀ dirPath entries file,
    dirPath ∈ imageDirs →
    dirs w !! dirPath = Some entries →
    file ∈ List.filter isImageFile entries →
    Path.join dirPath file ≠ filepath →
    filepath ∉ footprint (Path.join dirPath file).

(** [main()]: the statistics it reports and the state it leaves. *)
Definition main (w : World) : completion Stats * World :=
  let w1 := loadCache w in
  match processDirs imageDirs
          {| processed := 0; skipped := 0; errors := 0; totalSaved := Num 0 |} w1 with
  | (Throw e, w2) => (Throw e, w2)
  | (Normal totalStats, w2) => (Normal totalStats, saveCache w2)
  end.

End WithEnvironment.

End Optimizer.

(** ** Pages of the content source

    The properties of a page that the scripts read.  Each field holds what
    the optional chain written in its comment evaluates to, [None] standing
    for [undefined] or [null]. *)

Module Notion.

Record FileObject := {
  type_ : jsstring;                 (* file.type *)
  file_url : option jsstring;       (* file.file?.url *)
  external_url : option jsstring    (* file.external?.url *)
}.

Record Page := {
  id : jsstring;                    (* page.id *)
  Titel : option jsstring;          (* props.Titel?.title?.[0]?.plain_text *)
  Datum : option jsstring;          (* props.Datum?.date?.start *)
  Kategorie : option jsstring;      (* props.Kategorie?.select?.name *)
  Kurztext : option jsstring;       (* props.Kurztext?.rich_text?.[0]?.plain_text *)
  Inhalt : option (list jsstring);  (* props.Inhalt?.rich_text, the plain_text of each item *)
  Bild : option (list FileObject);  (* props.Bild?.files *)
  Autor : option jsstring           (* props.Autor?.people?.[0]?.name *)
}.

(** A string in a condition: the empty string counts as absent. *)
Definition truthy (o : option jsstring) : option jsstring :=
  match o with
  | Some [] => None
  | _ => o
  end.

(** [o || d] on strings *)
Definition orElse (o : option jsstring) (d : jsstring) : jsstring :=
  match truthy o with
  | Some s => s
  | None => d
  end.

End Notion.

(** ** Fetcher: the run over the published pages *)

Module FetcherRun.
Import Notion Fetcher.

(** the alternatives of the pattern of [getExtension], in its order *)
Definition alternatives : list jsstring :=
  [js "jpg"; js "jpeg"; js "png"; js "gif"; js "webp"; js "avif"].

(** One pattern character against one code unit under the flag [i]: an ASCII
    letter matches itself and its other case; nothing else is folded. *)
Definition unitMatches (p c : N) : bool :=
  (c =? p) || ((97 <=? p) && (p <=? 122) && (c + 32 =? p)).

Fixpoint prefixMatches (pat s : jsstring) : bool :=
  match pat, s with
  | [], _ => true
  | _ :: _, [] => false
  | p :: pat', c :: s' => unitMatches p c && prefixMatches pat' s'
  end.

(** the match of the pattern that begins at the very start of [s] *)
Definition matchHere (s : jsstring) : option jsstring :=
  match s with
  | c :: r =>
      if c =? Path.dot then
        match List.find (fun alt => prefixMatches alt r) alternatives with
        | Some alt => Some (c :: take (length alt) r)
        | None => None
        end
      else None
  | [] => None
  end.

(** [url.match(/\.(jpg|jpeg|png|gif|webp|avif)/i)]: the leftmost match *)
Fixpoint firstMatch (s : jsstring) : option jsstring :=
  match matchHere s with
  | Some m => Some m
  | None =>
      match s with
      | [] => None
      | _ :: r => firstMatch r
      end
  end.

Definition getExtension (url : jsstring) : jsstring :=
  match firstMatch url with
  | Some m => toLowerCase m
  | None => js ".jpg"
  end.

(** [props.Titel?.title?.[0]?.plain_text || 'ohne-titel'] *)
Definition titleOf (page : Page) : jsstring := orElse (Titel page) (js "ohne-titel").

(** the value of [imageUrl] after the block that reads [props.Bild] *)
Definition imageUrlOf (page : Page) : option jsstring :=
  match Bild page with
  | Some (file :: _) =>
      if strictEq (type_ file) (js "file") then file_url file
      else if strictEq (type_ file) (js "external") then external_url file
      else None
  | _ => None
  end.

(** [`${slug}${ext}`] *)
Definition filenameOf (page : Page) (imageUrl : jsstring) : jsstring :=
  Slug.slugify (titleOf page) ++ getExtension imageUrl.

(** [`/images/news/${filename}`] *)
Definition localPath (filename : jsstring) : jsstring := js "/images/news/" ++ filename.

Section WithNetwork.

Variable get : Protocol -> jsstring -> Response.

(** [path.join(__dirname, '..', 'public', 'images', 'news')] *)
Variable imageDir : jsstring.

(** The loop of [downloadNotionImages] over [response.results].  A download
    that rejects is caught and logged; one that never settles keeps the
    [await] waiting, and the run does not finish ([None]). *)
Fixpoint downloadPages (fuel : nat) (pages : list Page)
    (files : gmap jsstring (list Byte.byte)) (imageMap : gmap jsstring jsstring)
    : option (gmap jsstring jsstring * gmap jsstring (list Byte.byte)) :=
  match pages with
  | [] => Some (imageMap, files)
  | page :: rest =>
      match truthy (imageUrlOf page) with
      | Some imageUrl =>
          let filename := filenameOf page imageUrl in
          let filepath := Path.join imageDir filename in
          match downloadImage get fuel (Some imageUrl) filepath files with
          | (Resolved _, files') =>
              downloadPages fuel rest files' (<[id page := localPath filename]> imageMap)
          | (Rejected _, files') => downloadPages fuel rest files' imageMap
          | (Pending, _) => None
          end
      | None => downloadPages fuel rest files imageMap
      end
  end.

(** [redirects k url target]: starting at [url], the server answers [k]
    times with a 301 or 302 that carries the next address, and the last of
    them is [target]. *)
Inductive redirects : nat -> jsstring -> jsstring -> Prop :=
| redirects_none (url : jsstring) : redirects 0 url url
| redirects_more (k : nat) (url next target : jsstring) (statusCode : N)
    (body : list Byte.byte) :
    get (protocolOf url) url = Reply statusCode (Some next) body ->
    statusCode = 301 \/ statusCode = 302 ->
    redirects k next target ->
    redirects (S k) url target.

(** the download of [url] resolves within [fuel] calls (the target path and
    the files play no part in how a download settles) *)
Definition delivered (fuel : nat) (url : jsstring) : bool :=
  match fst (downloadImage get fuel (Some url) [] ∅) with
  | Resolved _ => true
  | _ => false
  end.

(** [downloadNotionImages()]: the image map it writes and the files it
    leaves, given the pages that the query returns. *)
Definition downloadNotionImages (fuel : nat) (results : list Page)
    (files : gmap jsstring (list Byte.byte))
    : option (gmap jsstring jsstring * gmap jsstring (list Byte.byte)) :=
  downloadPages fuel results files ∅.

End WithNetwork.

(** the pages that reach a download, each with its address *)
Fixpoint requests (pages : list Page) : list (Page * jsstring) :=
  match pages with
  | [] => []
  | page :: rest =>
      match truthy (imageUrlOf page) with
      | Some imageUrl => (page, imageUrl) :: requests rest
      | None => requests rest
      end
  end.

(** the file names under which the run stores its downloads, in order *)
Definition filenames (pages : list Page) : list jsstring :=
  List.map (fun pu => filenameOf (fst pu) (snd pu)) (requests pages).

End FetcherRun.

(** ** Record shaper: from pages to articles *)

Module ShaperPages.
Import Notion Shaper.

(** the fallback on the first file of [props.Bild], shared by the shaper
    that reads the image map from disk and the one that imports it *)
Definition remoteImage (page : Page) : option jsstring :=
  match Bild page with
  | Some (file :: _) =>
      if strictEq (type_ file) (js "file") then truthy (file_url file)
      else if strictEq (type_ file) (js "external") then truthy (external_url file)
      else None
  | _ => None
  end.

(** the image of the shaper that reads the image map from disk:
    [imageMap[page.id] || null], then the fallback [if (!imageUrl)] *)
Definition resolveImage (imageMap : gmap jsstring jsstring) (page : Page) : option jsstring :=
  let imageUrl := truthy (imageMap !! Notion.id page) in
  match imageUrl with
  | Some u => Some u
  | None => remoteImage page
  end.

(** What the shaper that imports the image map holds in [imageMap].  The
    module imports '../data/image-map.json?url'; with the suffix [?url] the
    default export is the address of the file, a string, and not the parsed
    map.  When the import fails, or its default is an empty string,
    [imageMap] is the empty object. *)
Inductive ImportedMap :=
| AssetUrl (url : jsstring)
| EmptyObject.

(** The names of the members that every string and every object inherit
    (of [String.prototype] and of [Object.prototype]), as the engine has
    them. *)
Record Builtins := {
  ofString : jsstring -> bool;
  ofObject : jsstring -> bool
}.

(** What the property read [imageMap[key]] gives. *)
Inductive Member :=
| Missing                 (* undefined *)
| CodeUnit (c : N)        (* the code unit at that index, a string of length one *)
| Length (n : nat)        (* the length of the string, a number *)
| Inherited.              (* an inherited member: a function or an object *)

Definition isDigit (c : N) : bool := (48 <=? c) && (c <=? 57).

(** the number that a string of digits writes *)
Definition decimal (digits : jsstring) : N :=
  fold_left (fun acc c => 10 * acc + (c - 48)) digits 0.

(** The index that a key names: the key is the decimal writing of a number,
    without a leading zero. *)
Definition indexOf (key : jsstring) : option N :=
  match key with
  | [] => None
  | c :: rest =>
      if forallb isDigit key && implb (c =? 48) (bool_decide (rest = []))
      then Some (decimal key)
      else None
  end.

Definition member (builtins : Builtins) (imageMap : ImportedMap) (key : jsstring) : Member :=
  match imageMap with
  | AssetUrl url =>
      let unit := match indexOf key with
                  | Some i => url !! N.to_nat i
                  | None => None
                  end in
      match unit with
      | Some c => CodeUnit c
      | None =>
          if strictEq key (js "length") then Length (length url)
          else if ofString builtins key || ofObject builtins key then Inherited
          else Missing
      end
  | EmptyObject => if ofObject builtins key then Inherited else Missing
  end.

(** The value of the field [image] of an article: a string, [null], or a
    value that is no string. *)
Inductive ImageValue :=
| Text (s : jsstring)
| Null
| NoText.

(** the image of the shaper that imports the image map:
    [if (imageMap[page.id]) imageUrl = imageMap[page.id] else ...] *)
Definition resolveImageImported (builtins : Builtins) (imageMap : ImportedMap)
    (page : Page) : ImageValue :=
  let fallback :=
    match remoteImage page with
    | Some u => Text u
    | None => Null
    end in
  match member builtins imageMap (Notion.id page) with
  | CodeUnit c => Text [c]
  | Length n => if bool_decide (n = 0%nat) then fallback else NoText
  | Inherited => NoText
  | Missing => fallback
  end.

(** the image of the shaper without an image map:
    [files?.[0]?.file?.url || files?.[0]?.external?.url || null] *)
Definition resolveImageRemote (page : Page) : option jsstring :=
  match Bild page with
  | Some (file :: _) =>
      match truthy (file_url file) with
      | Some u => Some u
      | None => truthy (external_url file)
      end
  | _ => None
  end.

(** the first file of the page carries the address of its own kind only *)
Definition firstFileIsPlain (page : Page) : Prop :=
  match Bild page with
  | Some (file :: _) =>
      (type_ file = js "file" ∧ truthy (external_url file) = None)
      ∨ (type_ file = js "external" ∧ truthy (file_url file) = None)
  | _ => True
  end.

(** [rich_text?.map(t => t.plain_text).join('') || ''] *)
Definition contentOf (page : Page) : jsstring :=
  match Inhalt page with
  | Some items => concat items
  | None => []
  end.

(** The callback of [response.results.map] in the shaper that reads the
    image map from disk. *)
Definition shape (imageMap : gmap jsstring jsstring) (page : Page) : NewsArticle :=
  let title_ := orElse (Titel page) (js "Ohne Titel") in
  {| Shaper.id := Notion.id page;
     title := title_;
     date := orElse (Datum page) [];
     category := orElse (Kategorie page) (js "Verein");
     excerpt := orElse (Kurztext page) [];
     content := contentOf page;
     image := resolveImage imageMap page;
     author := orElse (Autor page) (js "SV Staden");
     slug := Slug.slugify title_ |}.

Definition getPublishedNews (imageMap : gmap jsstring jsstring) (results : list Page)
    : list NewsArticle :=
  List.map (shape imageMap) results.

End ShaperPages.

(** ** Counting the results of the optimizer *)

Module Tally.
Import Optimizer.

Definition isSuccess (r : Result) : bool :=
  match r with Success _ _ _ _ => true | _ => false end.

Definition isSkipped (r : Result) : bool :=
  match r with Skipped _ => true | _ => false end.

(** an error result that the loop counts: its message is not empty *)
Definition isCountedError (r : Result) : bool :=
  match r with Error message => negb (bool_decide (message = [])) | _ => false end.

Definition howMany (f : Result -> bool) (outcomes : list (jsstring * Result)) : N :=
  N.of_nat (length (List.filter (fun fr => f (snd fr)) outcomes)).

(** [carriedOver paths c c']: the cache [c'] holds an entry wherever [c] holds
    one, and away from [paths] the two agree. *)
Definition carriedOver (paths : list jsstring) (c c' : gmap jsstring CacheEntry) : Prop :=
  ∀ q, (is_Some (c !! q) → is_Some (c' !! q)) ∧ (q ∉ paths → c' !! q = c !! q).

End Tally.

(** ** The ways a call of [optimizeImage] on an uncached image can end *)

Module Outcomes.
Import Optimizer.

Section WithEnvironment.

Variable md5 : list Byte.byte -> jsstring.
Variable metadata : jsstring -> list Byte.byte -> completion (option N).
Variable toFile :
  option N -> Encoder -> jsstring -> list Byte.byte -> jsstring -> Written.
Variable now : nat -> jsstring.

(** the reason of the skip of the discard branch *)
Definition noImprovement : jsstring := js "Keine Verbesserung m" ++ [246] ++ js "glich".

(** the state once the temporary file with the bytes [out] has been renamed
    onto the image *)
Definition replaced (filepath : jsstring) (out : list Byte.byte) (w : World) : World :=
  renameSync (tempPathOf filepath) filepath
    (written (tempPathOf filepath) (Encoded out) w).

(** [ends filepath w buffer r w']: a call on the supported image [filepath]
    with the bytes [buffer] and no cache hit returns [r] and leaves [w'].
    One constructor for each way through the [try] block: the metadata read
    throws; the encode to the temporary file throws; the temporary file is
    not smaller; the encode of the WebP sibling throws; the cache entry is
    written after the replacement. *)
Inductive ends (filepath : jsstring) (w : World) (buffer : list Byte.byte)
    : completion Result -> World -> Prop :=
| ends_metadata (e : jsstring) :
    metadata filepath buffer = Throw e ->
    ends filepath w buffer (Normal (Error e)) w
| ends_encode (width : option N) (enc : Encoder) (e : jsstring)
    (part : option (list Byte.byte)) :
    metadata filepath buffer = Normal width ->
    encoderFor (extOf filepath) = Some enc ->
    toFile (resizeFor filepath width) enc filepath buffer (tempPathOf filepath)
    = EncodeError e part ->
    ends filepath w buffer (Normal (Error e))
      (written (tempPathOf filepath) (EncodeError e part) w)
| ends_discard (width : option N) (enc : Encoder) (out : list Byte.byte) :
    metadata filepath buffer = Normal width ->
    encoderFor (extOf filepath) = Some enc ->
    toFile (resizeFor filepath width) enc filepath buffer (tempPathOf filepath)
    = Encoded out ->
    (length buffer <= length out)%nat ->
    ends filepath w buffer (Normal (Skipped noImprovement))
      (setEntry filepath
         {| hash := md5 buffer; optimized := true;
            originalSize := N.of_nat (length buffer);
            optimizedSize := N.of_nat (length buffer);
            timestamp := now (clock w) |}
         (tick (unlinkSync (tempPathOf filepath)
                  (written (tempPathOf filepath) (Encoded out) w))))
| ends_sibling (width : option N) (enc : Encoder) (out : list Byte.byte)
    (e : jsstring) (part : option (list Byte.byte)) :
    metadata filepath buffer = Normal width ->
    encoderFor (extOf filepath) = Some enc ->
    toFile (resizeFor filepath width) enc filepath buffer (tempPathOf filepath)
    = Encoded out ->
    (length out < length buffer)%nat ->
    extOf filepath <> js ".webp" ->
    toFile None (webp webpQuality) filepath out (webpPathOf (extOf filepath) filepath)
    = EncodeError e part ->
    ends filepath w buffer (Normal (Error e))
      (written (webpPathOf (extOf filepath) filepath) (EncodeError e part)
         (replaced filepath out w))
| ends_commit (width : option N) (enc : Encoder) (out content : list Byte.byte)
    (w3 : World) :
    metadata filepath buffer = Normal width ->
    encoderFor (extOf filepath) = Some enc ->
    toFile (resizeFor filepath width) enc filepath buffer (tempPathOf filepath)
    = Encoded out ->
    (length out < length buffer)%nat ->
    (extOf filepath = js ".webp" /\ w3 = replaced filepath out w)
    \/ (extOf filepath <> js ".webp"
        /\ exists wout,
             toFile None (webp webpQuality) filepath out
               (webpPathOf (extOf filepath) filepath) = Encoded wout
             /\ w3 = written (webpPathOf (extOf filepath) filepath) (Encoded wout)
                       (replaced filepath out w)) ->
    files w3 !! filepath = Some content ->
    ends filepath w buffer
      (Normal (Success (exceeds width (maxWidthFor filepath))
                 (N.of_nat (length buffer)) (N.of_nat (length out))
                 (Z.of_N (N.of_nat (length buffer)) - Z.of_N (N.of_nat (length out)))))
      (setEntry filepath
         {| hash := md5 content; optimized := true;
            originalSize := N.of_nat (length buffer);
            optimizedSize := N.of_nat (length out);
            timestamp := now (clock w3) |} (tick w3)).

End WithEnvironment.

End Outcomes.

(** ** Concrete inputs used by the examples, witnesses and counterexamples *)

Module Scenario.
Import Shaper Fetcher.

Definition article (id_ title_ category_ : string) : NewsArticle :=
  {| id := js id_; title := js title_; date := js "2024-05-01";
     category := js category_; excerpt := []; content := [];
     image := None; author := js "SV Staden"; slug := Slug.slugify (js title_) |}.

Definition threeArticles : list NewsArticle :=
  [article "p1" "Sommerfest" "Verein";
   article "p2" "Derby gewonnen" "Fussball";
   article "p3" "Neue Trikots" "Verein"].

(** A date parser that accepts the strings beginning with a digit. *)
Definition digitDate (s : jsstring) : Date :=
  match s with
  | c :: _ => if (48 <=? c) && (c <=? 57) then TimeValue 0 else InvalidDate
  | [] => InvalidDate
  end.

Definition isoRender (t : Z) : completion jsstring := Normal (js "01. Januar 1970").

(** A renderer that always throws. *)
Definition brokenRender (t : Z) : completion jsstring := Throw (js "RangeError").


(** The same server answering with 302. *)
Definition foundRedirect (p : Protocol) (url : jsstring) : Response :=
  if strictEq url (js "http://cms.example/img")
  then Reply 302 (Some (js "http://cdn.example/img.png")) []
  else if strictEq url (js "http://cdn.example/img.png")
  then Reply 200 None [Byte.x89; Byte.x50; Byte.x4e; Byte.x47]
  else if strictEq url (js "http://cms.example/gone")
  then Reply 404 None []
  else TransportError (js "ENOTFOUND").

(** *** An environment for the optimizer *)

Import Optimizer.

Definition siteRoot : jsstring := js "/srv/site".

(** A stand-in for the digest: the bytes themselves, as code units. *)
Definition digest (buffer : list Byte.byte) : jsstring := List.map Byte.to_N buffer.

(** A codec that reads the width from the first byte, refuses to write onto
    its own input, fails on data that begins with the byte ff, and otherwise
    drops the first byte (JPEG), keeps the bytes (PNG) or keeps the first two
    bytes (WebP). *)
Definition metadataOf (src : jsstring) (input : list Byte.byte) : completion (option N) :=
  match input with
  | [] => Throw (js "Input file is missing or empty")
  | b :: _ => Normal (Some (Byte.to_N b * 100))
  end.

Definition encodeTo (resize : option N) (enc : Encoder) (src : jsstring)
    (input : list Byte.byte) (dst : jsstring) : Written :=
  if strictEq src dst
  then EncodeError (js "Cannot use same file for input and output") None
  else match input with
       | Byte.xff :: _ => EncodeError (js "Corrupt image data") (Some [])
       | _ => match enc with
              | jpeg _ _ _ => Encoded (tail input)
              | png _ _ => Encoded input
              | webp _ => Encoded (take 2 input)
              end
       end.

(** The same codec with a WebP encoder that always fails. *)
Definition encodeNoWebp (resize : option N) (enc : Encoder) (src : jsstring)
    (input : list Byte.byte) (dst : jsstring) : Written :=
  match enc with
  | webp _ => EncodeError (js "webp: unable to write") None
  | _ => encodeTo resize enc src input dst
  end.

Definition instant (n : nat) : jsstring := js "2024-05-01T08:00:00.000Z".

Definition imagesDir : jsstring := js "/srv/site/public/images".
Definition newsDir : jsstring := js "/srv/site/public/images/news".

Definition world (fs : list (jsstring * list Byte.byte))
    (ds : list (jsstring * list jsstring)) : World :=
  {| files := list_to_map fs; dirs := list_to_map ds; cacheFile := None;
     cacheWritable := true; imageCache := ∅; clock := 0 |}.

Definition heroJpg : jsstring := js "/srv/site/public/images/hero.jpg".
Definition heroBytes : list Byte.byte := [Byte.x10; Byte.x20; Byte.x30; Byte.x40].

(** One JPEG in the images directory; the news directory does not exist. *)
Definition worldHero : World :=
  world [(heroJpg, heroBytes)] [(imagesDir, [js "hero.jpg"; js "README.md"])].

(** The state after the JPEG has been optimized once. *)
Definition worldHeroDone : World :=
  snd (optimizeImage digest metadataOf encodeTo instant heroJpg worldHero).

(** The state in which a second run starts: the files and the cache file
    are the ones the first run left, and the listing shows the new sibling. *)
Definition worldHeroRerun : World :=
  let w1 := snd (main siteRoot digest metadataOf encodeTo instant worldHero) in
  {| files := files w1;
     dirs := list_to_map [(imagesDir, [js "hero.jpg"; js "hero.webp"; js "README.md"])];
     cacheFile := cacheFile w1; cacheWritable := true; imageCache := ∅; clock := 0 |}.

(** A camera file with an upper-case extension. *)
Definition photoJPG : jsstring := js "/srv/site/public/images/Photo.JPG".
Definition photoWebp : jsstring := js "/srv/site/public/images/Photo.webp".
Definition worldPhoto : World :=
  world [(photoJPG, heroBytes)] [(imagesDir, [js "Photo.JPG"]); (newsDir, [])].

(** A PNG that the codec cannot make smaller. *)
Definition logoPng : jsstring := js "/srv/site/public/images/logo.png".
Definition logoBytes : list Byte.byte := [Byte.x01; Byte.x02; Byte.x03].
Definition worldLogo : World :=
  world [(logoPng, logoBytes)] [(imagesDir, [js "logo.png"])].

(** An empty file and a corrupt one, followed by a good one. *)
Definition emptyJpg : jsstring := js "/srv/site/public/images/news/a-empty.jpg".
Definition corruptPng : jsstring := js "/srv/site/public/images/news/b-corrupt.png".
Definition teamJpg : jsstring := js "/srv/site/public/images/news/team.jpg".
Definition worldNews : World :=
  world [(emptyJpg, []); (corruptPng, [Byte.xff; Byte.x00]); (teamJpg, heroBytes)]
        [(imagesDir, [js "news"]);
         (newsDir, [js "a-empty.jpg"; js "b-corrupt.png"; js "team.jpg"])].

End Scenario.

(** ** Further inputs: pages of the database, servers and worlds *)

Module Newsroom.
Import Notion Fetcher Optimizer Scenario.

(** A server that answers one address with a 301 to that same address. *)
Definition loopingServer (p : Protocol) (url : jsstring) : Response :=
  if strictEq url (js "http://cms.example/loop")
  then Reply 301 (Some (js "http://cms.example/loop")) []
  else TransportError (js "ENOTFOUND").

Definition hosted (url : string) : FileObject :=
  {| type_ := js "file"; file_url := Some (js url); external_url := None |}.

Definition linked (url : string) : FileObject :=
  {| type_ := js "external"; file_url := None; external_url := Some (js url) |}.

Definition page (id_ : string) (title_ : option string) (bild : option (list FileObject))
    : Page :=
  {| Notion.id := js id_; Titel := option_map js title_; Datum := Some (js "2024-05-01");
     Kategorie := None; Kurztext := None; Inhalt := None; Bild := bild; Autor := None |}.

(** Three pages: the image of the first is served behind a redirect, the
    image of the second is gone, and the third has no image and no title. *)
Definition summer : Page :=
  page "p1" (Some "Sommerfest"%string) (Some [hosted "http://cms.example/img"]).
Definition derby : Page :=
  page "p2" (Some "Derby gewonnen"%string) (Some [linked "http://cms.example/gone"]).
Definition untitled : Page := page "p3" None None.

Definition pages : list Page := [summer; derby; untitled].

(** The run of the fetcher over these pages against the redirecting server,
    into an empty image directory. *)
Definition fetched : option (gmap jsstring jsstring * gmap jsstring (list Byte.byte)) :=
  FetcherRun.downloadNotionImages foundRedirect newsDir 2 pages ∅.

Definition fetchedMap : gmap jsstring jsstring := fst (default (∅, ∅) fetched).
Definition fetchedFiles : gmap jsstring (list Byte.byte) := snd (default (∅, ∅) fetched).


(** A page under an identifier as Notion writes them, with a hosted image. *)
Definition festival : Page :=
  {| Notion.id := js "1f0c3a52-7b1e-4c7a-9d2f-0a6b5e4d3c21";
     Titel := Some (js "Sommerfest"); Datum := Some (js "2024-05-01");
     Kategorie := None; Kurztext := None; Inhalt := None;
     Bild := Some [hosted "http://cms.example/img"]; Autor := None |}.

(** The image map that the fetcher writes for that page. *)
Definition festivalMap : gmap jsstring jsstring :=
  {[ Notion.id festival := js "/images/news/sommerfest.jpg" ]}.

(** The names that strings and objects inherit in ECMAScript 2023. *)
Definition engine : ShaperPages.Builtins :=
  {| ShaperPages.ofString := fun k =>
       bool_decide (k ∈ List.map js
         ["at"; "charAt"; "charCodeAt"; "codePointAt"; "concat"; "endsWith";
          "includes"; "indexOf"; "isWellFormed"; "lastIndexOf"; "localeCompare";
          "match"; "matchAll"; "normalize"; "padEnd"; "padStart"; "repeat";
          "replace"; "replaceAll"; "search"; "slice"; "split"; "startsWith";
          "substring"; "toLocaleLowerCase"; "toLocaleUpperCase"; "toLowerCase";
          "toUpperCase"; "toWellFormed"; "trim"; "trimEnd"; "trimStart";
          "substr"; "anchor"; "big"; "blink"; "bold"; "fixed"; "fontcolor";
          "fontsize"; "italics"; "link"; "small"; "strike"; "sub"; "sup";
          "trimLeft"; "trimRight"]%string);
     ShaperPages.ofObject := fun k =>
       bool_decide (k ∈ List.map js
         ["constructor"; "hasOwnProperty"; "isPrototypeOf"; "propertyIsEnumerable";
          "toLocaleString"; "toString"; "valueOf"; "__proto__"; "__defineGetter__";
          "__defineSetter__"; "__lookupGetter__"; "__lookupSetter__"]%string) |}.

(** A codec whose every encoder drops the first byte of its input. *)
Definition encodeShaving (resize : option N) (enc : Encoder) (src : jsstring)
    (input : list Byte.byte) (dst : jsstring) : Written :=
  if strictEq src dst
  then EncodeError (js "Cannot use same file for input and output") None
  else Encoded (tail input).

Definition heroWebp : jsstring := js "/srv/site/public/images/hero.webp".

(** A JPEG and a WebP file of the same name, the WebP file listed first; the
    cache file records the WebP file as optimized under the hash of its
    bytes. *)
Definition worldPair : World :=
  {| files := list_to_map [(heroWebp, [Byte.x01; Byte.x02]); (heroJpg, heroBytes)];
     dirs := list_to_map [(imagesDir, [js "hero.webp"; js "hero.jpg"]); (newsDir, [])];
     cacheFile :=
       Some {[ heroWebp := {| hash := digest [Byte.x01; Byte.x02]; optimized := true;
                              originalSize := 3; optimizedSize := 2;
                              timestamp := instant 0 |} ]};
     cacheWritable := true; imageCache := ∅; clock := 0 |}.

(** The same two files, the WebP file one byte longer, and no cache file. *)
Definition worldTwins : World :=
  world [(heroWebp, [Byte.x01; Byte.x02; Byte.x03]);
         (heroJpg, [Byte.x10; Byte.x12; Byte.x05; Byte.x06])]
        [(imagesDir, [js "hero.webp"; js "hero.jpg"]); (newsDir, [])].

(** The state in which a second run with the shaving codec starts: the
    files, the listings and the cache file are the ones the first left. *)
Definition worldTwinsRerun : World :=
  let w1 := snd (main siteRoot digest metadataOf encodeShaving instant worldTwins) in
  {| files := files w1; dirs := dirs w1; cacheFile := cacheFile w1;
     cacheWritable := true; imageCache := ∅; clock := 0 |}.

(** One WebP file and nothing else. *)
Definition worldWebp : World :=
  world [(heroWebp, [Byte.x01; Byte.x02; Byte.x03])]
        [(imagesDir, [js "hero.webp"]); (newsDir, [])].

Definition worldWebpRerun : World :=
  let w1 := snd (main siteRoot digest metadataOf encodeTo instant worldWebp) in
  {| files := files w1; dirs := dirs w1; cacheFile := cacheFile w1;
     cacheWritable := true; imageCache := ∅; clock := 0 |}.

(** One JPEG in each of the two configured directories. *)
Definition worldBoth : World :=
  world [(heroJpg, heroBytes); (teamJpg, heroBytes)]
        [(imagesDir, [js "hero.jpg"]); (newsDir, [js "team.jpg"])].

End Newsroom.

(** * Properties *)

(** ** Slug derivation *)

Section SlugFacts.
Import Slug.

Lemma collapseRuns_units (s : jsstring) :
  ∀ inRun, Forall slugUnit (collapseRuns inRun s).
Proof.
  induction s as [|c r IH]; intros inRun; simpl; [constructor|].
  destruct (isAlnum c) eqn:Hc.
  - constructor; [by left | apply IH].
  - destruct inRun; [apply IH|]. constructor; [by right | apply IH].
Qed.

Lemma isAlnum_hyphen : isAlnum hyphen = false.
Proof. reflexivity. Qed.

Lemma collapseRuns_head_in_run (s : jsstring) :
  head (collapseRuns true s) ≠ Some hyphen.
Proof.
  induction s as [|c r IH]; simpl; [done|].
  destruct (isAlnum c) eqn:Hc; [|exact IH].
  simpl. intros [= ->]. by rewrite isAlnum_hyphen in Hc.
Qed.

Lemma noDoubleHyphen_cons (a : N) (s : jsstring) :
  noDoubleHyphen s → (a = hyphen → head s ≠ Some hyphen) → noDoubleHyphen (a :: s).
Proof.
  destruct s as [|b r]; simpl; [done|].
  intros Hr Hab. split; [|exact Hr]. intros [-> ->]. by apply Hab.
Qed.

Lemma collapseRuns_noDouble (s : jsstring) :
  ∀ inRun, noDoubleHyphen (collapseRuns inRun s).
Proof.
  induction s as [|c r IH]; intros inRun; simpl; [done|].
  destruct (isAlnum c) eqn:Hc.
  - apply noDoubleHyphen_cons; [apply IH|].
    intros ->. by rewrite isAlnum_hyphen in Hc.
  - destruct inRun; [apply IH|].
    apply noDoubleHyphen_cons; [apply IH|].
    intros _. apply collapseRuns_head_in_run.
Qed.

Lemma stripEdges_units (s : jsstring) :
  ∀ atStart, Forall slugUnit s → Forall slugUnit (stripEdges atStart s).
Proof.
  induction s as [|c r IH]; intros atStart Hs; simpl; [constructor|].
  inversion Hs; subst.
  destruct ((c =? hyphen) && (atStart || bool_decide (r = []))); auto.
Qed.

Lemma stripEdges_noDouble (s : jsstring) :
  ∀ atStart, noDoubleHyphen s → noDoubleHyphen (stripEdges atStart s).
Proof.
  induction s as [|c r IH]; intros atStart Hs; [done|].
  assert (Hr : noDoubleHyphen r) by (destruct r; [done | apply Hs]).
  cbn [stripEdges].
  destruct ((c =? hyphen) && (atStart || bool_decide (r = []))) eqn:Hdrop;
    [by apply IH|].
  apply noDoubleHyphen_cons; [by apply IH|].
  intros ->. destruct r as [|b r']; [done|].
  cbn [stripEdges]. destruct Hs as [Hab _].
  destruct (N.eqb_spec b hyphen) as [->|Hb]; [by destruct Hab|].
  simpl. intros [= ->]. done.
Qed.

(** After the scan has left index 0, the result ends with a hyphen only if
    the input ended with two of them. *)
Lemma stripEdges_last (s : jsstring) :
  noDoubleHyphen s → last (stripEdges false s) ≠ Some hyphen.
Proof.
  induction s as [|c r IH]; intros Hs; [done|].
  cbn [stripEdges]. rewrite orb_false_l.
  destruct r as [|b r'].
  - simpl. destruct (N.eqb_spec c hyphen) as [->|Hc]; simpl; [done|].
    intros [= ->]. done.
  - destruct Hs as [Hab Hr].
    rewrite bool_decide_eq_false_2 by done. rewrite andb_false_r.
    specialize (IH Hr).
    destruct (stripEdges false (b :: r')) as [|d t] eqn:Hst.
    + (* the rest was dropped whole: it was a lone hyphen *)
      cbn [stripEdges] in Hst. rewrite orb_false_l in Hst.
      destruct (N.eqb_spec b hyphen) as [->|Hb]; simpl in Hst.
      * simpl. intros [= ->]. by destruct Hab.
      * discriminate.
    + rewrite last_cons. destruct (last (d :: t)) eqn:Hl; [exact IH|].
      by rewrite last_None in Hl.
Qed.

Lemma stripEdges_head (s : jsstring) :
  noDoubleHyphen s → head (stripEdges true s) ≠ Some hyphen.
Proof.
  destruct s as [|c r]; intros Hs; [done|].
  cbn [stripEdges]. rewrite orb_true_l, andb_true_r.
  destruct (N.eqb_spec c hyphen) as [->|Hc].
  - destruct r as [|b r']; [done|]. destruct Hs as [Hab _].
    cbn [stripEdges]. rewrite orb_false_l.
    destruct (N.eqb_spec b hyphen) as [->|Hb]; [by destruct Hab|].
    simpl. intros [= ->]. done.
  - simpl. intros [= ->]. done.
Qed.

Lemma stripEdges_true_last (s : jsstring) :
  noDoubleHyphen s → last (stripEdges true s) ≠ Some hyphen.
Proof.
  destruct s as [|c r]; intros Hs; [done|].
  assert (Hr : noDoubleHyphen r) by (destruct r; [done | apply Hs]).
  cbn [stripEdges]. rewrite orb_true_l, andb_true_r.
  destruct (N.eqb_spec c hyphen) as [->|Hc].
  - by apply stripEdges_last.
  - pose proof (stripEdges_last (c :: r) Hs) as H.
    cbn [stripEdges] in H. rewrite orb_false_l in H.
    destruct (N.eqb_spec c hyphen); [done|]. exact H.
Qed.

(** Whatever the lower-casing step returns, the three replacements that
    follow produce a well-formed slug. *)
Lemma slug_shape (lowered : jsstring) :
  wellFormedSlug (stripEdges true (collapseRuns false (replaceUmlauts lowered))).
Proof.
  set (s := collapseRuns false _).
  assert (Hu : Forall slugUnit s) by apply collapseRuns_units.
  assert (Hd : noDoubleHyphen s) by apply collapseRuns_noDouble.
  repeat split.
  - by apply stripEdges_units.
  - by apply stripEdges_head.
  - by apply stripEdges_true_last.
  - by apply stripEdges_noDouble.
Qed.

(** C6: [slugify] is a function of its input alone; its output holds only
    code units of a-z, 0-9 and hyphens, does not begin or end with a hyphen
    (and has no two hyphens in a row); the two titles of the specification
    give the slugs it names. *)
Theorem slugify_wellformed_and_examples :
  (∀ text : jsstring, wellFormedSlug (slugify text))
  ∧ (∀ text text' : jsstring, text = text' → slugify text = slugify text')
  ∧ slugify (js "Vereinsfeier am Sonntag!") = js "vereinsfeier-am-sonntag"
  ∧ slugify ([196; 246; 252] ++ js " & Gro" ++ [223] ++ js "!") = js "aeoeue-gross".
Proof.
  split; [|split; [|split]].
  - intros text. apply slug_shape.
  - by intros text text' ->.
  - reflexivity.
  - reflexivity.
Qed.

End SlugFacts.

Lemma slugify_wellformed_and_examples_witness :
  Slug.wellFormedSlug (Slug.slugify (js "  Hallo, Welt  "))
  ∧ Slug.slugify (js "Hallo") = Slug.slugify (js "Hallo").
Proof.
  split.
  - apply (proj1 slugify_wellformed_and_examples).
  - apply (proj1 (proj2 slugify_wellformed_and_examples)). reflexivity.
Defined.

(** ** Record shaper *)

Section ShaperFacts.
Import Shaper.

(** C10: with the argument "Alle" the whole list of published articles is
    returned as it is, whatever their categories; with any other argument
    the result is the list of the articles whose category equals it. *)
Theorem getNewsByCategory_spec (articles : list NewsArticle) (category_ : jsstring) :
  (category_ = js "Alle" → getNewsByCategory articles category_ = articles)
  ∧ (category_ ≠ js "Alle" →
       getNewsByCategory articles category_
       = List.filter (fun a => bool_decide (category a = category_)) articles
       ∧ ∀ a, a ∈ getNewsByCategory articles category_
              ↔ a ∈ articles ∧ category a = category_).
Proof.
  unfold getNewsByCategory, strictEq. split.
  - intros ->. by rewrite bool_decide_eq_true_2.
  - intros Hne. rewrite bool_decide_eq_false_2 by done. split; [done|].
    intros a. rewrite list_elem_of_In, filter_In, <- list_elem_of_In.
    by rewrite bool_decide_eq_true.
Qed.

Lemma getNewsByCategory_spec_witness :
  getNewsByCategory Scenario.threeArticles (js "Alle") = Scenario.threeArticles
  ∧ getNewsByCategory Scenario.threeArticles (js "Verein")
    = [Scenario.article "p1" "Sommerfest" "Verein";
       Scenario.article "p3" "Neue Trikots" "Verein"].
Proof.
  split.
  - apply (proj1 (getNewsByCategory_spec Scenario.threeArticles (js "Alle"))).
    reflexivity.
  - rewrite (proj1 (proj2 (getNewsByCategory_spec Scenario.threeArticles (js "Verein"))
                      ltac:(vm_compute; discriminate))).
    reflexivity.
Defined.

Variable newDate : jsstring -> Date.
Variable renderDE : Z -> completion jsstring.

(** The variant with the fallback returns normally on every input, and
    returns the placeholder on an empty or unparsable one. *)
Lemma formatDate_fallback (dateString : jsstring) :
  ∃ out, formatDate newDate renderDE dateString = Normal out
         ∧ (dateString = [] ∨ newDate dateString = InvalidDate → out = placeholder).
Proof.
  unfold formatDate. case_bool_decide as Hempty.
  - eexists; split; [done|done].
  - destruct (newDate dateString) as [|t] eqn:Hd; simpl.
    + eexists; split; [done|done].
    + destruct (renderDE t) as [s|e]; eexists; (split; [done|]);
        intros [?|?]; done.
Qed.

(** C9, at the failing input: the [formatDate] of the two shaper modules
    without the guard returns, on a string the engine cannot parse, the
    engine's text for an invalid date, which is not the placeholder. *)
Theorem formatDatePlain_invalid_rendering (dateString : jsstring) :
  newDate dateString = InvalidDate →
  formatDatePlain newDate renderDE dateString = Normal (js "Invalid Date")
  ∧ formatDatePlain newDate renderDE dateString ≠ Normal placeholder.
Proof.
  intros Hd. unfold formatDatePlain. rewrite Hd. simpl. split; [done|].
  intros [=].
Qed.

End ShaperFacts.

Lemma formatDate_fallback_example :
  Shaper.formatDate Scenario.digitDate Scenario.brokenRender (js "2024-05-01")
  = Normal Shaper.placeholder
  ∧ Shaper.formatDate Scenario.digitDate Scenario.isoRender (js "") = Normal Shaper.placeholder
  ∧ Shaper.formatDate Scenario.digitDate Scenario.isoRender (js "morgen")
    = Normal Shaper.placeholder.
Proof. repeat split. Qed.

Lemma formatDatePlain_invalid_rendering_witness :
  Shaper.formatDatePlain Scenario.digitDate Scenario.isoRender (js "")
  = Normal (js "Invalid Date")
  ∧ Shaper.formatDatePlain Scenario.digitDate Scenario.isoRender (js "")
    ≠ Normal Shaper.placeholder.
Proof.
  apply (formatDatePlain_invalid_rendering Scenario.digitDate Scenario.isoRender (js "")).
  reflexivity.
Defined.

(** ** Fetcher *)

Section FetcherFacts.
Import Fetcher.

Variable get : Protocol -> jsstring -> Response.


(** A redirect whose Location header is missing makes the call reject. *)
Lemma downloadImage_redirect_without_location (fuel : nat) (url filepath : jsstring)
    (files : gmap jsstring (list Byte.byte)) (statusCode : N) (body : list Byte.byte) :
  get (protocolOf url) url = Reply statusCode None body →
  statusCode = 301 ∨ statusCode = 302 →
  downloadImage get (S (S fuel)) (Some url) filepath files
  = (Rejected TypeError, <[filepath := []]> files).
Proof.
  intros Hget Hst. cbn [downloadImage]. rewrite Hget.
  destruct Hst as [-> | ->]; reflexivity.
Qed.

End FetcherFacts.



(** ** Optimizer *)

Section OptimizerFacts.
Import Optimizer.

Variable siteRoot : jsstring.
Variable md5 : list Byte.byte -> jsstring.
Variable metadata : jsstring -> list Byte.byte -> completion (option N).
Variable toFile :
  option N -> Encoder -> jsstring -> list Byte.byte -> jsstring -> Written.
Variable now : nat -> jsstring.

Local Abbreviation optimizeImage := (Optimizer.optimizeImage md5 metadata toFile now).
Local Abbreviation tryBlock := (Optimizer.tryBlock md5 metadata toFile now).
Local Abbreviation commit := (Optimizer.commit md5 toFile now).
Local Abbreviation discard := (Optimizer.discard now).
Local Abbreviation processFiles := (Optimizer.processFiles md5 metadata toFile now).
Local Abbreviation processDirectory := (Optimizer.processDirectory md5 metadata toFile now).
Local Abbreviation processDirs := (Optimizer.processDirs md5 metadata toFile now).
Local Abbreviation main := (Optimizer.main siteRoot md5 metadata toFile now).

Lemma tempPathOf_ne (filepath : jsstring) : tempPathOf filepath ≠ filepath.
Proof.
  unfold tempPathOf. intros H. apply (f_equal length) in H.
  rewrite length_app in H. simpl in H. lia.
Qed.

Lemma supported_encoder (ext : jsstring) :
  arrayIncludes ext supportedFormats = true → ∃ enc, encoderFor ext = Some enc.
Proof.
  unfold arrayIncludes, supportedFormats. rewrite bool_decide_eq_true.
  rewrite !elem_of_cons. intros [->|[->|[->|[->|H]]]]; try (eexists; reflexivity).
  by apply elem_of_nil in H.
Qed.

Lemma optimizeImage_cache_hit (filepath : jsstring) (w : World)
    (buffer : list Byte.byte) (cached : CacheEntry) :
  supported filepath →
  files w !! filepath = Some buffer →
  imageCache w !! filepath = Some cached →
  hash cached = md5 buffer →
  optimized cached = true →
  optimizeImage filepath w = (Normal (Skipped (js "Bereits optimiert")), w).
Proof.
  intros Hsup Hfile Hentry Hhash Hopt.
  unfold Optimizer.optimizeImage. rewrite Hsup. cbn [negb]. rewrite Hfile.
  unfold isOptimized. rewrite Hentry, Hhash, Hopt.
  unfold strictEq. by rewrite bool_decide_eq_true_2.
Qed.

(** A call on a file whose bytes hash to the hash of its cache entry, the
    entry being marked optimized, returns a skip and the state it was given. *)
Lemma cached_call_is_skipped (filepath : jsstring) (w : World)
    (buffer : list Byte.byte) (cached : CacheEntry) :
  files w !! filepath = Some buffer →
  imageCache w !! filepath = Some cached →
  hash cached = md5 buffer →
  optimized cached = true →
  ∃ reason, optimizeImage filepath w = (Normal (Skipped reason), w).
Proof.
  intros Hfile Hentry Hhash Hopt.
  destruct (arrayIncludes (extOf filepath) supportedFormats) eqn:Hsup.
  - exists (js "Bereits optimiert").
    by apply (optimizeImage_cache_hit filepath w buffer cached).
  - eexists. unfold Optimizer.optimizeImage. rewrite Hsup. reflexivity.
Qed.

(** What a success leaves behind. *)
Lemma optimizeImage_success_inv (filepath : jsstring) (w w1 : World)
    (resized : bool) (o s : N) (saved : Z) :
  optimizeImage filepath w = (Normal (Success resized o s saved), w1) →
  supported filepath
  ∧ s < o
  ∧ saved = (Z.of_N o - Z.of_N s)%Z
  ∧ ∃ content ts,
      files w1 !! filepath = Some content
      ∧ imageCache w1 !! filepath
        = Some {| hash := md5 content; optimized := true; originalSize := o;
                  optimizedSize := s; timestamp := ts |}.
Proof.
  unfold Optimizer.optimizeImage, supported.
  destruct (arrayIncludes (extOf filepath) supportedFormats) eqn:Hsup; cbn [negb];
    [|intros [=]].
  destruct (files w !! filepath) as [buffer|] eqn:Hfile; [|intros [=]].
  destruct (isOptimized w filepath (md5 buffer)); [intros [=]|].
  destruct (tryBlock _ _ _ _ _ _) as [[result|e] w'] eqn:Htry; [|intros [=]].
  intros [= -> ->]. split; [done|].
  unfold Optimizer.tryBlock in Htry.
  destruct (metadata filepath buffer) as [width|e]; [|discriminate].
  destruct (match encoderFor (extOf filepath) with Some _ => _ | None => _ end)
    as [[e|] w2] eqn:Henc; [discriminate|].
  destruct (files w2 !! tempPathOf filepath) as [temp|] eqn:Htemp; [|discriminate].
  destruct (N.ltb_spec (N.of_nat (length temp)) (N.of_nat (length buffer))) as [Hlt|Hge];
    [|unfold Optimizer.discard in Htry; discriminate].
  unfold Optimizer.commit in Htry.
  destruct (if negb _ then _ else _) as [[e|] w3] eqn:Hsib; [discriminate|].
  unfold getFileHash in Htry.
  destruct (files w3 !! filepath) as [content|] eqn:Hcontent; [|discriminate].
  injection Htry as <- <- <- <- <-.
  split; [done|]. split; [done|].
  exists content, (now (clock w3)). split; [exact Hcontent|].
  simpl. apply lookup_insert_eq.
Qed.

(** A file that a call of [optimizeImage] processed successfully is
    classified as skipped by the next call on it, when its bytes and its
    cache entry are as the first call left them; that call changes nothing. *)
Lemma next_call_is_skipped (filepath : jsstring) (w w1 w2 : World)
    (resized : bool) (o s : N) (saved : Z) :
  optimizeImage filepath w = (Normal (Success resized o s saved), w1) →
  files w2 !! filepath = files w1 !! filepath →
  imageCache w2 !! filepath = imageCache w1 !! filepath →
  optimizeImage filepath w2 = (Normal (Skipped (js "Bereits optimiert")), w2).
Proof.
  intros Hrun Hfiles Hcache.
  destruct (optimizeImage_success_inv _ _ _ _ _ _ _ Hrun)
    as (Hsup & _ & _ & content & ts & Hcontent & Hentry).
  eapply optimizeImage_cache_hit; [exact Hsup | | | |].
  - by rewrite Hfiles.
  - by rewrite Hcache.
  - reflexivity.
  - reflexivity.
Qed.

(** C4: when the temporary file is not smaller than the original, the call
    returns the skip "Keine Verbesserung moeglich"; afterwards the temporary
    file is gone, the original holds the bytes it had, no other file has
    changed, and the cache entry of the file holds the hash of those bytes,
    the optimized flag, and the original size in both size fields. *)
Theorem not_smaller_is_discarded (filepath : jsstring) (w : World)
    (buffer out : list Byte.byte) (width : option N) (enc : Encoder) :
  files w !! filepath = Some buffer →
  isOptimized w filepath (md5 buffer) = false →
  metadata filepath buffer = Normal width →
  encoderFor (extOf filepath) = Some enc →
  toFile (resizeFor filepath width) enc filepath buffer (tempPathOf filepath) = Encoded out →
  ¬ (length out < length buffer)%nat →
  ∃ w' ts,
    optimizeImage filepath w
    = (Normal (Skipped (js "Keine Verbesserung m" ++ [246] ++ js "glich")), w')
    ∧ files w' !! tempPathOf filepath = None
    ∧ files w' !! filepath = Some buffer
    ∧ (∀ p, p ≠ tempPathOf filepath → files w' !! p = files w !! p)
    ∧ imageCache w' !! filepath
      = Some {| hash := md5 buffer; optimized := true;
                originalSize := N.of_nat (length buffer);
                optimizedSize := N.of_nat (length buffer); timestamp := ts |}
    ∧ ∀ q, q ≠ filepath → imageCache w' !! q = imageCache w !! q.
Proof.
  intros Hfile Hmiss Hmeta Henc Hout Hsize.
  assert (Hsup : arrayIncludes (extOf filepath) supportedFormats = true).
  { unfold encoderFor, strictEq in Henc. unfold arrayIncludes, supportedFormats.
    rewrite bool_decide_eq_true, !elem_of_cons.
    repeat case_bool_decide; simpl in Henc; try discriminate; auto. }
  unfold Optimizer.optimizeImage. rewrite Hsup. cbn [negb]. rewrite Hfile, Hmiss.
  unfold Optimizer.tryBlock. rewrite Hmeta, Henc, Hout. cbn [thrownBy written].
  cbn [files withFiles]. rewrite lookup_insert_eq.
  destruct (N.ltb_spec (N.of_nat (length out)) (N.of_nat (length buffer))) as [Hlt|Hge];
    [lia|].
  unfold Optimizer.discard, unlinkSync, setEntry. cbn.
  eexists _, _. split; [reflexivity|]. cbn.
  pose proof (tempPathOf_ne filepath) as Hne.
  repeat split.
  - apply lookup_delete_eq.
  - rewrite lookup_delete_ne by done. by rewrite lookup_insert_ne.
  - intros p Hp. rewrite lookup_delete_ne by done. by rewrite lookup_insert_ne.
  - apply lookup_insert_eq.
  - intros q Hq. by rewrite lookup_insert_ne.
Qed.

(** *** What one call can touch *)

Lemma agreeOff_refl (paths : list jsstring) (w : World) : agreeOff paths w w.
Proof. by repeat split. Qed.

Lemma agreeOff_trans (paths : list jsstring) (w1 w2 w3 : World) :
  agreeOff paths w1 w2 → agreeOff paths w2 w3 → agreeOff paths w1 w3.
Proof.
  intros (Hd & Hc & Hw & Hf) (Hd' & Hc' & Hw' & Hf').
  repeat split; try congruence.
  intros p Hp. rewrite Hf', Hf; done.
Qed.

Lemma agreeOff_written (paths : list jsstring) (dst : jsstring) (o : Written) (w : World) :
  dst ∈ paths → agreeOff paths w (written dst o w).
Proof.
  intros Hin. destruct o as [out|message [part|]]; simpl;
    [| |apply agreeOff_refl]; (repeat split; simpl; intros p Hp;
    rewrite lookup_insert_ne; [done|intros ->; done]).
Qed.

Lemma agreeOff_setEntry (paths : list jsstring) (q : jsstring) (e : CacheEntry) (w : World) :
  agreeOff paths w (setEntry q e (tick w)).
Proof. by repeat split. Qed.

Lemma agreeOff_renameSync (paths : list jsstring) (src dst : jsstring) (w : World) :
  src ∈ paths → dst ∈ paths → agreeOff paths w (renameSync src dst w).
Proof.
  intros Hs Hd. unfold renameSync. destruct (files w !! src); [|apply agreeOff_refl].
  repeat split; simpl. intros p Hp.
  rewrite lookup_insert_ne by (intros ->; done).
  rewrite lookup_delete_ne by (intros ->; done). done.
Qed.

Lemma agreeOff_unlinkSync (paths : list jsstring) (p : jsstring) (w : World) :
  p ∈ paths → agreeOff paths w (unlinkSync p w).
Proof.
  intros Hin. repeat split; simpl. intros q Hq.
  rewrite lookup_delete_ne by (intros ->; done). done.
Qed.

Lemma commit_frame (filepath : jsstring) (resized : bool) (o s : N) (w1 w' : World)
    (r : completion Result) :
  commit filepath (extOf filepath) resized o s w1 = (r, w') →
  agreeOff (footprint filepath) w1 w'
  ∧ (∀ q, q ≠ filepath → imageCache w' !! q = imageCache w1 !! q)
  ∧ (match r with Normal (Success _ _ _ _) => True | _ => imageCache w' = imageCache w1 end).
Proof.
  unfold Optimizer.commit.
  set (w2 := renameSync (tempPathOf filepath) filepath w1).
  assert (H12 : agreeOff (footprint filepath) w1 w2).
  { apply agreeOff_renameSync; unfold footprint; set_solver. }
  assert (Hc2 : imageCache w2 = imageCache w1).
  { unfold w2, renameSync. by destruct (files w1 !! tempPathOf filepath). }
  destruct (if negb _ then _ else _) as [thrown w3] eqn:Hsib.
  assert (H23 : agreeOff (footprint filepath) w2 w3 ∧ imageCache w3 = imageCache w2).
  { destruct (negb _).
    - destruct (files w2 !! filepath) as [input|].
      + injection Hsib as <- <-. split.
        * apply agreeOff_written. unfold footprint. set_solver.
        * by destruct (toFile _ _ _ _ _) as [?|? [?|]].
      + injection Hsib as <- <-. split; [apply agreeOff_refl|done].
    - injection Hsib as <- <-. split; [apply agreeOff_refl|done]. }
  destruct H23 as [H23 Hc3].
  destruct thrown as [e|].
  - intros [= <- <-]. split; [by eapply agreeOff_trans|].
    split; [intros; congruence | congruence].
  - unfold getFileHash. destruct (files w3 !! filepath) as [content|].
    + intros [= <- <-]. split.
      * eapply agreeOff_trans; [exact H12|]. eapply agreeOff_trans; [exact H23|].
        apply agreeOff_setEntry.
      * split; [|done]. intros q Hq. simpl. rewrite lookup_insert_ne by done.
        congruence.
    + intros [= <- <-]. split; [by eapply agreeOff_trans|].
      split; [intros; congruence | congruence].
Qed.

(** A call writes only the file, its temporary file and its WebP path, and
    only its own cache entry; unless it returns a success or the skip of the
    discard branch, it leaves the cache as it was. *)
Lemma optimizeImage_frame (filepath : jsstring) (w w' : World) (r : completion Result) :
  optimizeImage filepath w = (r, w') →
  agreeOff (footprint filepath) w w'
  ∧ (∀ q, q ≠ filepath → imageCache w' !! q = imageCache w !! q)
  ∧ (match r with
     | Normal (Error _) | Throw _ => imageCache w' = imageCache w
     | _ => True
     end).
Proof.
  unfold Optimizer.optimizeImage.
  destruct (negb _); [intros [= <- <-]; by split; [apply agreeOff_refl|]|].
  destruct (files w !! filepath) as [buffer|];
    [|intros [= <- <-]; by split; [apply agreeOff_refl|]].
  destruct (isOptimized _ _ _); [intros [= <- <-]; by split; [apply agreeOff_refl|]|].
  destruct (tryBlock _ _ _ _ _ _) as [r0 w0] eqn:Htry.
  assert (Hgoal : agreeOff (footprint filepath) w w0
    ∧ (∀ q, q ≠ filepath → imageCache w0 !! q = imageCache w !! q)
    ∧ (match r0 with
       | Normal (Success _ _ _ _) | Normal (Skipped _) => True
       | _ => imageCache w0 = imageCache w
       end)).
  { unfold Optimizer.tryBlock in Htry.
    destruct (metadata filepath buffer) as [width|e];
      [|injection Htry as <- <-; by split; [apply agreeOff_refl|]].
    destruct (match encoderFor (extOf filepath) with Some _ => _ | None => _ end)
      as [thrown w1] eqn:Henc.
    assert (H01 : agreeOff (footprint filepath) w w1 ∧ imageCache w1 = imageCache w).
    { destruct (encoderFor (extOf filepath)) as [enc|]; injection Henc as <- <-.
      - split.
        + apply agreeOff_written. unfold footprint. set_solver.
        + by destruct (toFile _ _ _ _ _) as [?|? [?|]].
      - split; [apply agreeOff_refl|done]. }
    destruct H01 as [H01 Hc1].
    destruct thrown as [e|];
      [injection Htry as <- <-; split; [done|]; split; [intros; congruence|congruence]|].
    destruct (files w1 !! tempPathOf filepath) as [temp|];
      [|injection Htry as <- <-; split; [done|]; split; [intros; congruence|congruence]].
    destruct (_ <? _).
    - destruct (commit_frame _ _ _ _ _ _ _ Htry) as (Ha & Hq & Hr).
      split; [by eapply agreeOff_trans|]. split.
      + intros q Hq'. rewrite Hq by done. congruence.
      + destruct r0 as [[| |]|]; try done; congruence.
    - unfold Optimizer.discard in Htry. injection Htry as <- <-. split.
      + eapply agreeOff_trans; [exact H01|].
        eapply agreeOff_trans; [|apply agreeOff_setEntry].
        apply agreeOff_unlinkSync. unfold footprint. set_solver.
      + split; [|done]. intros q Hq. simpl. rewrite lookup_insert_ne by done.
        congruence. }
  destruct Hgoal as (Ha & Hq & Hr).
  destruct r0 as [result|e]; intros [= <- <-]; (split; [done|]; split; [done|]).
  - destruct result; done.
  - done.
Qed.

(** *** Errors of the codec *)

(** C2, as the code has it: an error raised by the metadata read, by the
    encode to the temporary file or by the encode of the WebP sibling makes
    the call return an error result; the cache is left as it was, and the
    loop counts the error and goes on with the remaining files.  When the
    error comes from the metadata read or from the encode to the temporary
    file, the bytes of the file are unchanged as well (only the temporary
    path may hold what the codec left there). *)
Theorem codec_error_is_contained (filepath : jsstring) (w : World) (buffer : list Byte.byte) :
  supported filepath →
  files w !! filepath = Some buffer →
  isOptimized w filepath (md5 buffer) = false →
  (∀ e, metadata filepath buffer = Throw e →
        optimizeImage filepath w = (Normal (Error e), w))
  ∧ (∀ width enc e part,
        metadata filepath buffer = Normal width →
        encoderFor (extOf filepath) = Some enc →
        toFile (resizeFor filepath width) enc filepath buffer (tempPathOf filepath)
        = EncodeError e part →
        ∃ w', optimizeImage filepath w = (Normal (Error e), w')
              ∧ imageCache w' = imageCache w
              ∧ files w' !! filepath = Some buffer
              ∧ ∀ p, p ≠ tempPathOf filepath → files w' !! p = files w !! p)
  ∧ (∀ width enc out e part,
        metadata filepath buffer = Normal width →
        encoderFor (extOf filepath) = Some enc →
        toFile (resizeFor filepath width) enc filepath buffer (tempPathOf filepath)
        = Encoded out →
        (length out < length buffer)%nat →
        extOf filepath ≠ js ".webp" →
        toFile None (webp webpQuality) filepath out
          (webpPathOf (extOf filepath) filepath) = EncodeError e part →
        ∃ w', optimizeImage filepath w = (Normal (Error e), w')
              ∧ imageCache w' = imageCache w)
  ∧ (∀ e w',
        optimizeImage filepath w = (Normal (Error e), w') →
        imageCache w' = imageCache w
        ∧ (e ≠ [] → ∀ stats, errors (count (Error e) stats) = errors stats + 1
                              ∧ processed (count (Error e) stats) = processed stats)
        ∧ ∀ dirPath file rest stats,
            Path.join dirPath file = filepath →
            processFiles dirPath (file :: rest) stats w
            = processFiles dirPath rest (count (Error e) stats) w').
Proof.
  intros Hsup Hfile Hmiss.
  assert (Hstart : ∀ r w',
    tryBlock filepath (extOf filepath) (md5 buffer) buffer
      (N.of_nat (length buffer)) w = (Throw r, w') →
    optimizeImage filepath w = (Normal (Error r), w')).
  { intros r w' Htry. unfold Optimizer.optimizeImage.
    rewrite Hsup. cbn [negb]. rewrite Hfile, Hmiss, Htry. reflexivity. }
  split; [|split; [|split]].
  - intros e Hmeta. apply Hstart. unfold Optimizer.tryBlock. by rewrite Hmeta.
  - intros width enc e part Hmeta Henc Hfail.
    eexists. split.
    + apply Hstart. unfold Optimizer.tryBlock. rewrite Hmeta, Henc, Hfail. reflexivity.
    + pose proof (tempPathOf_ne filepath) as Hne.
      destruct part as [bytes|]; simpl.
      * split; [done|]. split; [by rewrite lookup_insert_ne|].
        intros p Hp. by rewrite lookup_insert_ne.
      * done.
  - intros width enc out e part Hmeta Henc Hout Hlt Hext Hfail.
    eexists. split.
    + apply Hstart. unfold Optimizer.tryBlock. rewrite Hmeta, Henc, Hout.
      cbn [thrownBy written files withFiles].
      rewrite lookup_insert_eq.
      destruct (N.ltb_spec (N.of_nat (length out)) (N.of_nat (length buffer)));
        [|lia].
      unfold Optimizer.commit, renameSync, strictEq.
      rewrite bool_decide_eq_false_2 by done. cbn [negb files withFiles].
      rewrite !lookup_insert_eq. cbn [files withFiles].
      rewrite lookup_insert_eq, Hfail. reflexivity.
    + by destruct part.
  - intros e w' Hrun.
    destruct (optimizeImage_frame _ _ _ _ Hrun) as (_ & _ & Hc).
    split; [exact Hc|]. split.
    + intros He stats. unfold count. by rewrite bool_decide_eq_false_2.
    + intros dirPath file rest stats <-. cbn [Optimizer.processFiles].
      by rewrite Hrun.
Qed.

(** *** The summary of a run *)

Lemma processFiles_dirs (dirPath : jsstring) (imageFiles : list jsstring) :
  ∀ stats w r w', processFiles dirPath imageFiles stats w = (r, w') → dirs w' = dirs w.
Proof.
  induction imageFiles as [|file rest IH]; intros stats w r w' Hrun; simpl in Hrun.
  - by injection Hrun as <- <-.
  - destruct (optimizeImage (Path.join dirPath file) w) as [[result|e] w1] eqn:Hone.
    + destruct (optimizeImage_frame _ _ _ _ Hone) as ((Hd & _) & _).
      rewrite (IH _ _ _ _ Hrun). exact Hd.
    + destruct (optimizeImage_frame _ _ _ _ Hone) as ((Hd & _) & _).
      by injection Hrun as <- <-.
Qed.

Lemma processDirectory_dirs (dirPath : jsstring) (w w' : World) (r : completion Stats) :
  processDirectory dirPath w = (r, w') → dirs w' = dirs w.
Proof.
  unfold Optimizer.processDirectory.
  destruct (dirs w !! dirPath) as [entries|]; [|by intros [= <- <-]].
  case_bool_decide; [by intros [= <- <-]|]. apply processFiles_dirs.
Qed.

Lemma processDirectory_nothingToDo (dirPath : jsstring) (w : World) :
  nothingToDo dirPath w →
  processDirectory dirPath w
  = (Normal {| processed := 0; skipped := 0; errors := 0; totalSaved := undefined |}, w).
Proof.
  unfold Optimizer.processDirectory. intros [Hnone | (entries & Hsome & Hempty)].
  - by rewrite Hnone.
  - rewrite Hsome, Hempty. reflexivity.
Qed.

Lemma processDirs_NaN (dirPaths : list jsstring) :
  ∀ totalStats w totalStats' w',
    totalSaved totalStats = NaN →
    processDirs dirPaths totalStats w = (Normal totalStats', w') →
    totalSaved totalStats' = NaN.
Proof.
  induction dirPaths as [|dirPath rest IH]; intros totalStats w totalStats' w' Hnan Hrun;
    simpl in Hrun.
  - injection Hrun as <- <-. exact Hnan.
  - destruct (processDirectory dirPath w) as [[stats|e] w1]; [|discriminate].
    eapply IH; [|exact Hrun]. simpl. by rewrite Hnan.
Qed.

(** Whenever a directory of the list has nothing to do, the total of the
    saved bytes that the run reports is [NaN]. *)
Lemma processDirs_nothingToDo (dirPaths : list jsstring) :
  ∀ totalStats w totalStats' w' dirPath,
    dirPath ∈ dirPaths →
    nothingToDo dirPath w →
    processDirs dirPaths totalStats w = (Normal totalStats', w') →
    totalSaved totalStats' = NaN.
Proof.
  induction dirPaths as [|d rest IH];
    intros totalStats w totalStats' w' dirPath Hin Hnothing Hrun.
  - by apply elem_of_nil in Hin.
  - simpl in Hrun. apply elem_of_cons in Hin as [<- | Hin].
    + rewrite (processDirectory_nothingToDo _ _ Hnothing) in Hrun.
      eapply processDirs_NaN; [|exact Hrun]. simpl. by destruct (totalSaved totalStats).
    + destruct (processDirectory d w) as [[stats|e] w1] eqn:Hdir; [|discriminate].
      eapply (IH _ w1); [exact Hin| |exact Hrun].
      pose proof (processDirectory_dirs _ _ _ _ Hdir) as Hd.
      unfold nothingToDo. rewrite Hd. exact Hnothing.
Qed.

Lemma main_nothingToDo (w w' : World) (totalStats : Stats) (dirPath : jsstring) :
  dirPath ∈ imageDirs siteRoot →
  nothingToDo dirPath w →
  main w = (Normal totalStats, w') →
  totalSaved totalStats = NaN.
Proof.
  intros Hin Hnothing. unfold Optimizer.main.
  destruct (processDirs _ _ _) as [[st|e] w2] eqn:Hrun; [|discriminate].
  intros [= <- <-].
  eapply processDirs_nothingToDo; [exact Hin| |exact Hrun].
  unfold nothingToDo, loadCache. by destruct (cacheFile w).
Qed.

(** *** The commit branch on well-behaved paths *)

(** When the temporary file is smaller and the WebP path differs from the
    file itself, a source that is not WebP is replaced by the smaller bytes,
    the WebP encoding of those bytes lies at the WebP path, and the cache
    entry holds the hash of the smaller bytes and both sizes. *)
Lemma smaller_is_committed (filepath : jsstring) (w : World)
    (buffer out wout : list Byte.byte) (width : option N) (enc : Encoder) :
  files w !! filepath = Some buffer →
  isOptimized w filepath (md5 buffer) = false →
  metadata filepath buffer = Normal width →
  encoderFor (extOf filepath) = Some enc →
  toFile (resizeFor filepath width) enc filepath buffer (tempPathOf filepath) = Encoded out →
  (length out < length buffer)%nat →
  extOf filepath ≠ js ".webp" →
  webpPathOf (extOf filepath) filepath ≠ filepath →
  toFile None (webp webpQuality) filepath out (webpPathOf (extOf filepath) filepath)
  = Encoded wout →
  ∃ w' ts,
    optimizeImage filepath w
    = (Normal (Success (exceeds width (maxWidthFor filepath))
                 (N.of_nat (length buffer)) (N.of_nat (length out))
                 (Z.of_N (N.of_nat (length buffer)) - Z.of_N (N.of_nat (length out)))), w')
    ∧ files w' !! filepath = Some out
    ∧ files w' !! webpPathOf (extOf filepath) filepath = Some wout
    ∧ imageCache w' !! filepath
      = Some {| hash := md5 out; optimized := true;
                originalSize := N.of_nat (length buffer);
                optimizedSize := N.of_nat (length out); timestamp := ts |}
    ∧ N.of_nat (length out) < N.of_nat (length buffer).
Proof.
  intros Hfile Hmiss Hmeta Henc Hout Hlt Hext Hpath Hweb.
  assert (Hsup : arrayIncludes (extOf filepath) supportedFormats = true).
  { unfold encoderFor, strictEq in Henc. unfold arrayIncludes, supportedFormats.
    rewrite bool_decide_eq_true, !elem_of_cons.
    repeat case_bool_decide; simpl in Henc; try discriminate; auto. }
  unfold Optimizer.optimizeImage. rewrite Hsup. cbn [negb]. rewrite Hfile, Hmiss.
  unfold Optimizer.tryBlock. rewrite Hmeta, Henc, Hout.
  cbn [thrownBy written files withFiles]. rewrite lookup_insert_eq.
  destruct (N.ltb_spec (N.of_nat (length out)) (N.of_nat (length buffer))); [|lia].
  unfold Optimizer.commit, renameSync, strictEq.
  rewrite bool_decide_eq_false_2 by done. cbn [negb files withFiles].
  rewrite !lookup_insert_eq. cbn [files withFiles].
  rewrite lookup_insert_eq, Hweb. cbn [thrownBy written files withFiles].
  unfold getFileHash. cbn [files withFiles].
  rewrite lookup_insert_ne by done. rewrite lookup_insert_eq.
  eexists _, _. split; [reflexivity|]. cbn.
  rewrite lookup_insert_ne by done. rewrite !lookup_insert_eq. done.
Qed.

(** *** The total of the saved bytes when every directory has images *)

Local Abbreviation fileOutcomes := (Optimizer.fileOutcomes md5 metadata toFile now).
Local Abbreviation directoryOutcomes := (Optimizer.directoryOutcomes md5 metadata toFile now).
Local Abbreviation dirsOutcomes := (Optimizer.dirsOutcomes md5 metadata toFile now).
Local Abbreviation mainOutcomes := (Optimizer.mainOutcomes siteRoot md5 metadata toFile now).

(** The counters that the loop returns are the results of its calls, counted
    one after the other. *)
Lemma processFiles_counts (dirPath : jsstring) (imageFiles : list jsstring) :
  ∀ stats w stats' w',
    processFiles dirPath imageFiles stats w = (Normal stats', w') →
    stats' = fold_left (fun st fr => count (snd fr) st)
               (fileOutcomes dirPath imageFiles w) stats.
Proof.
  induction imageFiles as [|file rest IH]; intros stats w stats' w' Hrun;
    simpl in Hrun |- *.
  - by injection Hrun as <- <-.
  - destruct (optimizeImage (Path.join dirPath file) w) as [[result|e] w1];
      [|discriminate].
    simpl. by eapply IH.
Qed.

Lemma savedIn_app (a b : list (jsstring * Result)) :
  savedIn (a ++ b) = (savedIn a + savedIn b)%Z.
Proof.
  induction a as [|[f r] a IH]; simpl; [done|].
  unfold savedIn in *. simpl. rewrite IH. destruct r; lia.
Qed.

Lemma processFiles_totals (dirPath : jsstring) (imageFiles : list jsstring) :
  ∀ stats w stats' w' z,
    processFiles dirPath imageFiles stats w = (Normal stats', w') →
    totalSaved stats = Num z →
    totalSaved stats' = Num (z + savedIn (fileOutcomes dirPath imageFiles w)).
Proof.
  induction imageFiles as [|file rest IH]; intros stats w stats' w' z Hrun Hz;
    simpl in Hrun |- *.
  - injection Hrun as <- <-. rewrite Hz. f_equal. unfold savedIn. simpl. lia.
  - destruct (optimizeImage (Path.join dirPath file) w) as [[result|e] w1];
      [|discriminate].
    assert (Hcount : totalSaved (count result stats)
                     = Num (z + savedIn [(Path.join dirPath file, result)])).
    { unfold savedIn. destruct result as [rs o s saved|reason|message]; simpl.
      - rewrite Hz. simpl. f_equal. lia.
      - rewrite Hz. f_equal. lia.
      - case_bool_decide; simpl; rewrite Hz; f_equal; lia. }
    rewrite (IH _ _ _ _ _ Hrun Hcount).
    change ((Path.join dirPath file, result) :: fileOutcomes dirPath rest w1)
      with ([(Path.join dirPath file, result)] ++ fileOutcomes dirPath rest w1).
    rewrite savedIn_app. f_equal. lia.
Qed.

Lemma processDirectory_totals (dirPath : jsstring) (w w' : World) (stats : Stats) :
  ¬ nothingToDo dirPath w →
  processDirectory dirPath w = (Normal stats, w') →
  totalSaved stats = Num (savedIn (directoryOutcomes dirPath w)).
Proof.
  unfold nothingToDo, Optimizer.processDirectory, Optimizer.directoryOutcomes.
  intros Hwork. destruct (dirs w !! dirPath) as [entries|]; [|by destruct Hwork; left].
  case_bool_decide as Hlen.
  - destruct Hwork. right. exists entries. split; [done|].
    by apply length_zero_iff_nil.
  - intros Hrun. by rewrite (processFiles_totals _ _ _ _ _ _ 0%Z Hrun eq_refl).
Qed.

Lemma processDirs_totals (dirPaths : list jsstring) :
  ∀ totalStats w totalStats' w' z,
    (∀ d, d ∈ dirPaths → ¬ nothingToDo d w) →
    totalSaved totalStats = Num z →
    processDirs dirPaths totalStats w = (Normal totalStats', w') →
    totalSaved totalStats' = Num (z + savedIn (dirsOutcomes dirPaths w)).
Proof.
  induction dirPaths as [|d rest IH]; intros totalStats w totalStats' w' z Hwork Hz Hrun;
    simpl in Hrun |- *.
  - injection Hrun as <- <-. rewrite Hz. f_equal. unfold savedIn. simpl. lia.
  - destruct (processDirectory d w) as [[stats|e] w1] eqn:Hdir; [|discriminate].
    assert (Hd : totalSaved stats = Num (savedIn (directoryOutcomes d w))).
    { eapply processDirectory_totals; [|exact Hdir]. apply Hwork. by left. }
    rewrite savedIn_app.
    erewrite (IH _ w1 _ _ (z + savedIn (directoryOutcomes d w))%Z); [| | |exact Hrun].
    + f_equal. lia.
    + intros d' Hd'. unfold nothingToDo.
      rewrite (processDirectory_dirs _ _ _ _ Hdir). apply Hwork. by right.
    + simpl. by rewrite Hz, Hd.
Qed.

(** When every configured directory exists and lists a supported image, the
    total that [main] reports is the sum of the bytes saved by the files it
    processed successfully. *)
Lemma main_totals (w w' : World) (totalStats : Stats) :
  (∀ d, d ∈ imageDirs siteRoot → ¬ nothingToDo d w) →
  main w = (Normal totalStats, w') →
  totalSaved totalStats = Num (savedIn (mainOutcomes w)).
Proof.
  unfold Optimizer.main, Optimizer.mainOutcomes. intros Hwork.
  destruct (processDirs _ _ (loadCache w)) as [[st|e] w2] eqn:Hrun; [|discriminate].
  intros [= <- <-].
  assert (Hwork' : ∀ d, d ∈ imageDirs siteRoot → ¬ nothingToDo d (loadCache w)).
  { intros d Hd. specialize (Hwork d Hd). unfold nothingToDo, loadCache in *.
    by destruct (cacheFile w). }
  exact (processDirs_totals (imageDirs siteRoot)
           {| processed := 0; skipped := 0; errors := 0; totalSaved := Num 0 |}
           (loadCache w) st w2 0%Z Hwork' eq_refl Hrun).
Qed.

(** *** The counters that a run reports *)

Lemma count_tally (r : Result) (stats : Stats) :
  processed (count r stats) = processed stats + (if Tally.isSuccess r then 1 else 0)
  ∧ skipped (count r stats) = skipped stats + (if Tally.isSkipped r then 1 else 0)
  ∧ errors (count r stats) = errors stats + (if Tally.isCountedError r then 1 else 0).
Proof.
  destruct r as [rs o s saved|reason|message]; simpl; try (repeat split; lia).
  case_bool_decide; simpl; repeat split; lia.
Qed.

Lemma howMany_cons (f : Result → bool) (fr : jsstring * Result)
    (rest : list (jsstring * Result)) :
  Tally.howMany f (fr :: rest) = (if f (snd fr) then 1 else 0) + Tally.howMany f rest.
Proof. unfold Tally.howMany. simpl. destruct (f (snd fr)); simpl; lia. Qed.

Lemma howMany_app (f : Result → bool) (a b : list (jsstring * Result)) :
  Tally.howMany f (a ++ b) = Tally.howMany f a + Tally.howMany f b.
Proof. unfold Tally.howMany. rewrite List.filter_app, length_app. lia. Qed.

Lemma processFiles_tally (dirPath : jsstring) (imageFiles : list jsstring) :
  ∀ stats w stats' w',
    processFiles dirPath imageFiles stats w = (Normal stats', w') →
    length (fileOutcomes dirPath imageFiles w) = length imageFiles
    ∧ processed stats'
      = processed stats + Tally.howMany Tally.isSuccess (fileOutcomes dirPath imageFiles w)
    ∧ skipped stats'
      = skipped stats + Tally.howMany Tally.isSkipped (fileOutcomes dirPath imageFiles w)
    ∧ errors stats'
      = errors stats
        + Tally.howMany Tally.isCountedError (fileOutcomes dirPath imageFiles w).
Proof.
  induction imageFiles as [|file rest IH]; intros stats w stats' w' Hrun;
    simpl in Hrun |- *.
  - injection Hrun as <- <-. unfold Tally.howMany. simpl. repeat split; lia.
  - destruct (optimizeImage (Path.join dirPath file) w) as [[result|e] w1];
      [|discriminate].
    destruct (IH _ _ _ _ Hrun) as (Hlen & Hp & Hs & He).
    destruct (count_tally result stats) as (Hp1 & Hs1 & He1).
    rewrite !howMany_cons. simpl. repeat split; lia.
Qed.

Lemma processDirectory_tally (dirPath : jsstring) (w w' : World) (stats : Stats) :
  processDirectory dirPath w = (Normal stats, w') →
  processed stats = Tally.howMany Tally.isSuccess (directoryOutcomes dirPath w)
  ∧ skipped stats = Tally.howMany Tally.isSkipped (directoryOutcomes dirPath w)
  ∧ errors stats = Tally.howMany Tally.isCountedError (directoryOutcomes dirPath w).
Proof.
  unfold Optimizer.processDirectory, Optimizer.directoryOutcomes.
  destruct (dirs w !! dirPath) as [entries|]; [|by intros [= <- <-]].
  case_bool_decide as Hlen.
  - intros [= <- <-]. apply length_zero_iff_nil in Hlen. by rewrite Hlen.
  - intros Hrun. destruct (processFiles_tally _ _ _ _ _ _ Hrun) as (_ & Hp & Hs & He).
    simpl in Hp, Hs, He. by rewrite Hp, Hs, He.
Qed.

Lemma processDirs_tally (dirPaths : list jsstring) :
  ∀ totalStats w totalStats' w',
    processDirs dirPaths totalStats w = (Normal totalStats', w') →
    processed totalStats'
    = processed totalStats + Tally.howMany Tally.isSuccess (dirsOutcomes dirPaths w)
    ∧ skipped totalStats'
      = skipped totalStats + Tally.howMany Tally.isSkipped (dirsOutcomes dirPaths w)
    ∧ errors totalStats'
      = errors totalStats + Tally.howMany Tally.isCountedError (dirsOutcomes dirPaths w).
Proof.
  induction dirPaths as [|d rest IH]; intros totalStats w totalStats' w' Hrun;
    simpl in Hrun |- *.
  - injection Hrun as <- <-. unfold Tally.howMany. simpl. repeat split; lia.
  - destruct (processDirectory d w) as [[stats|e] w1] eqn:Hdir; [|discriminate].
    destruct (processDirectory_tally _ _ _ _ Hdir) as (Hp1 & Hs1 & He1).
    destruct (IH _ _ _ _ Hrun) as (Hp & Hs & He). simpl in Hp, Hs, He.
    rewrite !howMany_app. repeat split; lia.
Qed.

(** The three counters that [main] reports are the numbers of successes, of
    skips and of error results with a message among the results of its
    calls. *)
Lemma main_tally (w w' : World) (totalStats : Stats) :
  main w = (Normal totalStats, w') →
  processed totalStats = Tally.howMany Tally.isSuccess (mainOutcomes w)
  ∧ skipped totalStats = Tally.howMany Tally.isSkipped (mainOutcomes w)
  ∧ errors totalStats = Tally.howMany Tally.isCountedError (mainOutcomes w).
Proof.
  unfold Optimizer.main, Optimizer.mainOutcomes.
  destruct (processDirs _ _ (loadCache w)) as [[st|e] w2] eqn:Hrun; [|discriminate].
  intros [= <- <-]. destruct (processDirs_tally _ _ _ _ _ Hrun) as (Hp & Hs & He).
  simpl in Hp, Hs, He. by rewrite Hp, Hs, He.
Qed.

Lemma howMany_all_skipped (outcomes : list (jsstring * Result)) :
  (∀ f r, (f, r) ∈ outcomes → ∃ reason, r = Skipped reason) →
  Tally.howMany Tally.isSuccess outcomes = 0
  ∧ Tally.howMany Tally.isSkipped outcomes = N.of_nat (length outcomes)
  ∧ Tally.howMany Tally.isCountedError outcomes = 0.
Proof.
  induction outcomes as [|[f r] l IH]; intros Hall; [done|].
  destruct (Hall f r) as [reason ->]; [by left|].
  destruct IH as (Hp & Hs & He); [intros f0 r0 Hin; apply (Hall f0 r0); by right|].
  rewrite !howMany_cons. cbn [snd length Tally.isSuccess Tally.isSkipped Tally.isCountedError].
  rewrite Hp, Hs, He, Nat2N.inj_succ. repeat split; lia.
Qed.

(** *** Two runs in a row *)

Local Abbreviation settled := (Optimizer.settled md5).
Local Abbreviation undisturbed := (Optimizer.undisturbed siteRoot).

Lemma success_settles (filepath : jsstring) (w w1 : World)
    (resized : bool) (o s : N) (saved : Z) :
  optimizeImage filepath w = (Normal (Success resized o s saved), w1) →
  ∃ content, settled filepath content w1.
Proof.
  intros Hrun.
  destruct (optimizeImage_success_inv _ _ _ _ _ _ _ Hrun)
    as (Hsup & _ & _ & content & ts & Hcontent & Hentry).
  exists content. split; [exact Hsup|]. split; [exact Hcontent|]. eexists. eauto.
Qed.

Lemma settled_skips (filepath : jsstring) (content : list Byte.byte) (w : World) :
  settled filepath content w →
  optimizeImage filepath w = (Normal (Skipped (js "Bereits optimiert")), w).
Proof.
  intros (Hsup & Hfile & cached & Hentry & Hhash & Hopt).
  by apply (optimizeImage_cache_hit filepath w content cached).
Qed.

(** A call on another file that does not write to the path keeps the file
    settled; a call on the file itself is a skip. *)
Lemma settled_preserved (filepath other : jsstring) (content : list Byte.byte)
    (w w' : World) (r : completion Result) :
  settled filepath content w →
  (other ≠ filepath → filepath ∉ footprint other) →
  optimizeImage other w = (r, w') →
  settled filepath content w'.
Proof.
  intros Hset Hcalm Hrun. destruct (decide (other = filepath)) as [->|Hne].
  - rewrite (settled_skips _ _ _ Hset) in Hrun. by injection Hrun as <- <-.
  - destruct Hset as (Hsup & Hfile & cached & Hentry & Hhash & Hopt).
    destruct (optimizeImage_frame _ _ _ _ Hrun) as ((_ & _ & _ & Hoff) & Hcache & _).
    split; [exact Hsup|]. split; [by rewrite Hoff by auto|]. exists cached.
    rewrite Hcache by done. done.
Qed.

Lemma calm_tail (filepath dirPath file : jsstring) (rest : list jsstring) :
  calm filepath dirPath (file :: rest) → calm filepath dirPath rest.
Proof. intros H g Hg. apply H. by right. Qed.

Lemma processFiles_settled (filepath dirPath : jsstring) (content : list Byte.byte)
    (imageFiles : list jsstring) :
  ∀ stats w r w',
    calm filepath dirPath imageFiles →
    settled filepath content w →
    processFiles dirPath imageFiles stats w = (r, w') →
    settled filepath content w'.
Proof.
  induction imageFiles as [|file rest IH]; intros stats w r w' Hcalm Hset Hrun;
    simpl in Hrun.
  - by injection Hrun as <- <-.
  - destruct (optimizeImage (Path.join dirPath file) w) as [[result|e] w1] eqn:Hone.
    + eapply IH; [by eapply calm_tail| |exact Hrun].
      eapply settled_preserved; [exact Hset| |exact Hone]. apply Hcalm. by left.
    + injection Hrun as <- <-.
      eapply settled_preserved; [exact Hset| |exact Hone]. apply Hcalm. by left.
Qed.

Lemma fileOutcomes_settled (filepath dirPath : jsstring) (content : list Byte.byte)
    (imageFiles : list jsstring) :
  ∀ w r,
    calm filepath dirPath imageFiles →
    settled filepath content w →
    (filepath, r) ∈ fileOutcomes dirPath imageFiles w →
    r = Skipped (js "Bereits optimiert").
Proof.
  induction imageFiles as [|file rest IH]; intros w r Hcalm Hset Hin; simpl in Hin.
  - by apply elem_of_nil in Hin.
  - destruct (optimizeImage (Path.join dirPath file) w) as [[result|e] w1] eqn:Hone;
      [|by apply elem_of_nil in Hin].
    apply elem_of_cons in Hin as [[= Hpath ->] | Hin].
    + rewrite <- Hpath, (settled_skips _ _ _ Hset) in Hone. by injection Hone as <- _.
    + eapply IH; [by eapply calm_tail| |exact Hin].
      eapply settled_preserved; [exact Hset| |exact Hone]. apply Hcalm. by left.
Qed.

Lemma fileOutcomes_success_settles (filepath dirPath : jsstring)
    (imageFiles : list jsstring) (resized : bool) (o s : N) (saved : Z) :
  ∀ stats w res w',
    calm filepath dirPath imageFiles →
    (filepath, Success resized o s saved) ∈ fileOutcomes dirPath imageFiles w →
    processFiles dirPath imageFiles stats w = (res, w') →
    ∃ content, settled filepath content w'.
Proof.
  induction imageFiles as [|file rest IH]; intros stats w res w' Hcalm Hin Hrun;
    simpl in Hin, Hrun.
  - by apply elem_of_nil in Hin.
  - destruct (optimizeImage (Path.join dirPath file) w) as [[result|e] w1] eqn:Hone;
      [|by apply elem_of_nil in Hin].
    apply elem_of_cons in Hin as [[= Hpath Hres] | Hin].
    + rewrite <- Hpath, <- Hres in Hone.
      destruct (success_settles _ _ _ _ _ _ _ Hone) as [content Hset].
      exists content.
      eapply processFiles_settled; [by eapply calm_tail|exact Hset|exact Hrun].
    + eapply IH; [by eapply calm_tail|exact Hin|exact Hrun].
Qed.

Lemma undisturbed_calm (filepath dirPath : jsstring) (entries : list jsstring) (w : World) :
  undisturbed filepath w →
  dirPath ∈ imageDirs siteRoot →
  dirs w !! dirPath = Some entries →
  calm filepath dirPath (List.filter isImageFile entries).
Proof. intros Hund Hdir Hentries file Hfile Hne. by eapply Hund. Qed.

Lemma undisturbed_dirs (filepath : jsstring) (w w' : World) :
  dirs w' = dirs w → undisturbed filepath w → undisturbed filepath w'.
Proof. intros Hd Hund dirPath entries file. rewrite Hd. apply Hund. Qed.

Lemma processDirectory_settled (filepath dirPath : jsstring) (content : list Byte.byte)
    (w w' : World) (r : completion Stats) :
  undisturbed filepath w →
  dirPath ∈ imageDirs siteRoot →
  settled filepath content w →
  processDirectory dirPath w = (r, w') →
  settled filepath content w'.
Proof.
  intros Hund Hdir Hset. unfold Optimizer.processDirectory.
  destruct (dirs w !! dirPath) as [entries|] eqn:Hentries; [|by intros [= <- <-]].
  case_bool_decide; [by intros [= <- <-]|].
  apply processFiles_settled; [by eapply undisturbed_calm | exact Hset].
Qed.

Lemma directoryOutcomes_settled (filepath dirPath : jsstring) (content : list Byte.byte)
    (w : World) (r : Result) :
  undisturbed filepath w →
  dirPath ∈ imageDirs siteRoot →
  settled filepath content w →
  (filepath, r) ∈ directoryOutcomes dirPath w →
  r = Skipped (js "Bereits optimiert").
Proof.
  intros Hund Hdir Hset. unfold Optimizer.directoryOutcomes.
  destruct (dirs w !! dirPath) as [entries|] eqn:Hentries;
    [|intros Hin; by apply elem_of_nil in Hin].
  apply (fileOutcomes_settled _ _ content); [by eapply undisturbed_calm | exact Hset].
Qed.

Lemma directoryOutcomes_success_settles (filepath dirPath : jsstring) (w w' : World)
    (res : completion Stats) (resized : bool) (o s : N) (saved : Z) :
  undisturbed filepath w →
  dirPath ∈ imageDirs siteRoot →
  (filepath, Success resized o s saved) ∈ directoryOutcomes dirPath w →
  processDirectory dirPath w = (res, w') →
  ∃ content, settled filepath content w'.
Proof.
  intros Hund Hdir. unfold Optimizer.directoryOutcomes, Optimizer.processDirectory.
  destruct (dirs w !! dirPath) as [entries|] eqn:Hentries;
    [|intros Hin; by apply elem_of_nil in Hin].
  intros Hin. case_bool_decide as Hlen.
  - apply length_zero_iff_nil in Hlen. rewrite Hlen in Hin. by apply elem_of_nil in Hin.
  - eapply fileOutcomes_success_settles; [by eapply undisturbed_calm | exact Hin].
Qed.

Lemma processDirs_settled (filepath : jsstring) (content : list Byte.byte)
    (dirPaths : list jsstring) :
  ∀ totalStats w r w',
    (∀ d, d ∈ dirPaths → d ∈ imageDirs siteRoot) →
    undisturbed filepath w →
    settled filepath content w →
    processDirs dirPaths totalStats w = (r, w') →
    settled filepath content w'.
Proof.
  induction dirPaths as [|d rest IH]; intros totalStats w r w' Hsub Hund Hset Hrun;
    simpl in Hrun.
  - by injection Hrun as <- <-.
  - assert (Hd : d ∈ imageDirs siteRoot) by (apply Hsub; by left).
    destruct (processDirectory d w) as [[stats|e] w1] eqn:Hdir.
    + eapply (IH _ w1); [intros; apply Hsub; by right| | |exact Hrun].
      * eapply undisturbed_dirs; [|exact Hund]. by eapply processDirectory_dirs.
      * by eapply processDirectory_settled.
    + injection Hrun as <- <-. by eapply processDirectory_settled.
Qed.

Lemma dirsOutcomes_settled (filepath : jsstring) (content : list Byte.byte)
    (dirPaths : list jsstring) :
  ∀ w r,
    (∀ d, d ∈ dirPaths → d ∈ imageDirs siteRoot) →
    undisturbed filepath w →
    settled filepath content w →
    (filepath, r) ∈ dirsOutcomes dirPaths w →
    r = Skipped (js "Bereits optimiert").
Proof.
  induction dirPaths as [|d rest IH]; intros w r Hsub Hund Hset Hin; simpl in Hin.
  - by apply elem_of_nil in Hin.
  - assert (Hd : d ∈ imageDirs siteRoot) by (apply Hsub; by left).
    apply elem_of_app in Hin as [Hin | Hin].
    + by eapply directoryOutcomes_settled.
    + destruct (processDirectory d w) as [[stats|e] w1] eqn:Hdir;
        [|by apply elem_of_nil in Hin].
      eapply (IH w1); [intros; apply Hsub; by right| | |exact Hin].
      * eapply undisturbed_dirs; [|exact Hund]. by eapply processDirectory_dirs.
      * by eapply processDirectory_settled.
Qed.

Lemma dirsOutcomes_success_settles (filepath : jsstring) (dirPaths : list jsstring)
    (resized : bool) (o s : N) (saved : Z) :
  ∀ totalStats w res w',
    (∀ d, d ∈ dirPaths → d ∈ imageDirs siteRoot) →
    undisturbed filepath w →
    (filepath, Success resized o s saved) ∈ dirsOutcomes dirPaths w →
    processDirs dirPaths totalStats w = (res, w') →
    ∃ content, settled filepath content w'.
Proof.
  induction dirPaths as [|d rest IH]; intros totalStats w res w' Hsub Hund Hin Hrun;
    simpl in Hin, Hrun.
  - by apply elem_of_nil in Hin.
  - assert (Hd : d ∈ imageDirs siteRoot) by (apply Hsub; by left).
    destruct (processDirectory d w) as [[stats|e] w1] eqn:Hdir.
    + assert (Hund1 : undisturbed filepath w1).
      { eapply undisturbed_dirs; [|exact Hund]. by eapply processDirectory_dirs. }
      apply elem_of_app in Hin as [Hin | Hin].
      * destruct (directoryOutcomes_success_settles _ _ _ _ _ _ _ _ _
                    Hund Hd Hin Hdir) as [content Hset].
        exists content.
        eapply (processDirs_settled _ _ rest _ w1);
          [intros; apply Hsub; by right|exact Hund1|exact Hset|exact Hrun].
      * eapply (IH _ w1); [intros; apply Hsub; by right|exact Hund1|exact Hin|exact Hrun].
    + injection Hrun as <- <-.
      apply elem_of_app in Hin as [Hin | Hin]; [|by apply elem_of_nil in Hin].
      eapply directoryOutcomes_success_settles;
        [exact Hund | exact Hd | exact Hin | exact Hdir].
Qed.

Lemma processDirs_cacheWritable (dirPaths : list jsstring) :
  ∀ totalStats w r w',
    processDirs dirPaths totalStats w = (r, w') → cacheWritable w' = cacheWritable w.
Proof.
  induction dirPaths as [|d rest IH]; intros totalStats w r w' Hrun; simpl in Hrun.
  - by injection Hrun as <- <-.
  - assert (Hone : ∀ r1 w1, processDirectory d w = (r1, w1) →
                            cacheWritable w1 = cacheWritable w).
    { intros r1 w1. unfold Optimizer.processDirectory.
      destruct (dirs w !! d) as [entries|]; [|by intros [= <- <-]].
      case_bool_decide; [by intros [= <- <-]|].
      generalize (List.filter isImageFile entries)
        {| processed := 0; skipped := 0; errors := 0; totalSaved := Num 0 |} w.
      intros l. induction l as [|file l IHl]; intros st wa Hl; simpl in Hl.
      - by injection Hl as <- <-.
      - destruct (optimizeImage (Path.join d file) wa) as [[result|e] wb] eqn:Hcall;
          destruct (optimizeImage_frame _ _ _ _ Hcall) as ((_ & _ & Hw & _) & _).
        + rewrite (IHl _ _ Hl). exact Hw.
        + by injection Hl as <- <-. }
    destruct (processDirectory d w) as [[stats|e] w1] eqn:Hdir.
    + rewrite (IH _ _ _ _ Hrun). by eapply Hone.
    + injection Hrun as <- <-. by eapply Hone.
Qed.

(** A file that a run of [main] processed successfully is, in a second run
    on the files and the cache file that the first run left, always handled
    as the skip "Bereits optimiert", provided the cache file could be written
    and no other listed image has the file as its temporary or WebP path. *)
Lemma second_run_skips (w w1 w2 : World) (totalStats : Stats) (filepath : jsstring)
    (resized : bool) (o s : N) (saved : Z) :
  main w = (Normal totalStats, w1) →
  cacheWritable w = true →
  (filepath, Success resized o s saved) ∈ mainOutcomes w →
  undisturbed filepath w →
  files w2 = files w1 →
  cacheFile w2 = cacheFile w1 →
  undisturbed filepath w2 →
  ∀ r, (filepath, r) ∈ mainOutcomes w2 → r = Skipped (js "Bereits optimiert").
Proof.
  unfold Optimizer.main, Optimizer.mainOutcomes.
  intros Hmain Hwritable Hin Hund Hfiles Hcache Hund2 r Hin2.
  destruct (processDirs _ _ (loadCache w)) as [[st|e] wEnd] eqn:Hrun; [|discriminate].
  injection Hmain as _ <-.
  assert (HundL : undisturbed filepath (loadCache w)).
  { eapply undisturbed_dirs; [|exact Hund]. unfold loadCache. by destruct (cacheFile w). }
  assert (Hset : ∃ content, settled filepath content wEnd).
  { eapply dirsOutcomes_success_settles; [done|exact HundL|exact Hin|exact Hrun]. }
  destruct Hset as [content Hset].
  assert (Hw : cacheWritable wEnd = true).
  { rewrite (processDirs_cacheWritable _ _ _ _ _ Hrun).
    unfold loadCache. by destruct (cacheFile w). }
  unfold saveCache in Hfiles, Hcache. rewrite Hw in Hfiles, Hcache.
  simpl in Hfiles, Hcache.
  eapply (dirsOutcomes_settled filepath content _ (loadCache w2)); [done| | |exact Hin2].
  - eapply undisturbed_dirs; [|exact Hund2]. unfold loadCache. by destruct (cacheFile w2).
  - destruct Hset as (Hsup & Hfile & cached & Hentry & Hhash & Hopt).
    split; [exact Hsup|]. unfold loadCache. rewrite Hcache. simpl. rewrite Hfiles.
    split; [exact Hfile|]. by exists cached.
Qed.

(** A supported file that the cache file records as optimized under the hash
    of its bytes keeps these bytes through a run of [main], and every result
    of the run for it is the skip "Bereits optimiert", as long as no other
    listed image has the file as its temporary or WebP path. *)
Lemma cached_file_survives_run (w w' : World) (res : completion Stats)
    (filepath : jsstring) (content : list Byte.byte)
    (data : gmap jsstring CacheEntry) (cached : CacheEntry) :
  supported filepath →
  files w !! filepath = Some content →
  cacheFile w = Some data →
  data !! filepath = Some cached →
  hash cached = md5 content →
  optimized cached = true →
  undisturbed filepath w →
  main w = (res, w') →
  files w' !! filepath = Some content
  ∧ ∀ r, (filepath, r) ∈ mainOutcomes w → r = Skipped (js "Bereits optimiert").
Proof.
  intros Hsup Hfile Hdata Hentry Hhash Hopt Hund Hmain.
  assert (Hset : settled filepath content (loadCache w)).
  { unfold loadCache. rewrite Hdata. split; [exact Hsup|]. split; [exact Hfile|].
    by exists cached. }
  assert (HundL : undisturbed filepath (loadCache w)).
  { eapply undisturbed_dirs; [|exact Hund]. unfold loadCache. by destruct (cacheFile w). }
  split.
  - unfold Optimizer.main in Hmain.
    destruct (processDirs _ _ (loadCache w)) as [r wEnd] eqn:Hrun.
    assert (Hend : settled filepath content wEnd).
    { eapply processDirs_settled; [done|exact HundL|exact Hset|exact Hrun]. }
    destruct Hend as (_ & Hcontent & _).
    destruct r as [st|e]; injection Hmain as _ <-; [|exact Hcontent].
    unfold saveCache. by destruct (cacheWritable wEnd).
  - intros r. unfold Optimizer.mainOutcomes.
    by apply (dirsOutcomes_settled filepath content).
Qed.

(** C1, as the code has it: a file whose bytes hash to the hash stored in its
    cache entry, the entry being marked optimized, is classified as skipped,
    and it keeps its bytes through a run only when no other listed image
    writes over it.  Call by call:
    the call on such a file returns a skip and leaves the whole state as it
    was (the bytes of the file, every other file, so no new WebP sibling,
    and the cache).  Run by run: such a supported file keeps its bytes
    through a run of [main] and every result of the run for it is the skip
    "Bereits optimiert", as long as no other listed image has the file as its
    temporary or WebP path.  The loop counts a skip as skipped, not as
    processed. *)
Theorem cached_file_is_skipped :
  (∀ (filepath : jsstring) (w : World) (buffer : list Byte.byte) (cached : CacheEntry),
      files w !! filepath = Some buffer →
      imageCache w !! filepath = Some cached →
      hash cached = md5 buffer →
      optimized cached = true →
      ∃ reason, optimizeImage filepath w = (Normal (Skipped reason), w))
  ∧ (∀ (w w' : World) (res : completion Stats) (filepath : jsstring)
       (content : list Byte.byte) (data : gmap jsstring CacheEntry) (cached : CacheEntry),
      supported filepath →
      files w !! filepath = Some content →
      cacheFile w = Some data →
      data !! filepath = Some cached →
      hash cached = md5 content →
      optimized cached = true →
      undisturbed filepath w →
      main w = (res, w') →
      files w' !! filepath = Some content
      ∧ ∀ r, (filepath, r) ∈ mainOutcomes w → r = Skipped (js "Bereits optimiert"))
  ∧ (∀ reason stats,
      processed (count (Skipped reason) stats) = processed stats
      ∧ skipped (count (Skipped reason) stats) = skipped stats + 1
      ∧ errors (count (Skipped reason) stats) = errors stats
      ∧ totalSaved (count (Skipped reason) stats) = totalSaved stats).
Proof.
  split; [|split].
  - intros. by eapply cached_call_is_skipped.
  - intros. by eapply cached_file_survives_run.
  - done.
Qed.

(** C5, as the code has it: a file that was processed successfully is
    classified as skipped the next time, unless another listed image has
    written over it or the cache file could not be written.  Call by call:
    the next call on the file, its bytes and its cache entry being as the
    successful call left them, returns the skip "Bereits optimiert" and
    changes nothing.  Run by run: after a run of [main] that wrote the cache
    file, a second run on the files and the cache file that the first left
    returns that skip for every file the first run processed successfully,
    as long as no other listed image has the file as its temporary or WebP
    path.  What the second run reports: its counters are the numbers of
    successes, skips and counted errors among its results, so such a file
    adds to [skipped] and not to [processed]; and when every image that the
    second run handles is such a file, it reports [processed = 0], all of
    them skipped and no error. *)
Theorem rerun_after_success_is_skipped :
  (∀ (filepath : jsstring) (w w1 w2 : World) (resized : bool) (o s : N) (saved : Z),
      optimizeImage filepath w = (Normal (Success resized o s saved), w1) →
      files w2 !! filepath = files w1 !! filepath →
      imageCache w2 !! filepath = imageCache w1 !! filepath →
      optimizeImage filepath w2 = (Normal (Skipped (js "Bereits optimiert")), w2))
  ∧ (∀ (w w1 w2 : World) (totalStats : Stats) (filepath : jsstring)
       (resized : bool) (o s : N) (saved : Z),
      main w = (Normal totalStats, w1) →
      cacheWritable w = true →
      (filepath, Success resized o s saved) ∈ mainOutcomes w →
      undisturbed filepath w →
      files w2 = files w1 →
      cacheFile w2 = cacheFile w1 →
      undisturbed filepath w2 →
      ∀ r, (filepath, r) ∈ mainOutcomes w2 → r = Skipped (js "Bereits optimiert"))
  ∧ (∀ (w2 w3 : World) (totalStats2 : Stats),
      main w2 = (Normal totalStats2, w3) →
      processed totalStats2 = Tally.howMany Tally.isSuccess (mainOutcomes w2)
      ∧ skipped totalStats2 = Tally.howMany Tally.isSkipped (mainOutcomes w2)
      ∧ errors totalStats2 = Tally.howMany Tally.isCountedError (mainOutcomes w2))
  ∧ (∀ (w w1 w2 w3 : World) (totalStats totalStats2 : Stats),
      main w = (Normal totalStats, w1) →
      cacheWritable w = true →
      files w2 = files w1 →
      cacheFile w2 = cacheFile w1 →
      main w2 = (Normal totalStats2, w3) →
      (∀ filepath r, (filepath, r) ∈ mainOutcomes w2 →
         (∃ resized o s saved, (filepath, Success resized o s saved) ∈ mainOutcomes w)
         ∧ undisturbed filepath w ∧ undisturbed filepath w2) →
      processed totalStats2 = 0
      ∧ skipped totalStats2 = N.of_nat (length (mainOutcomes w2))
      ∧ errors totalStats2 = 0)
  ∧ (∀ stats,
      processed (count (Skipped (js "Bereits optimiert")) stats) = processed stats
      ∧ skipped (count (Skipped (js "Bereits optimiert")) stats) = skipped stats + 1).
Proof.
  split; [|split; [|split; [|split]]].
  - intros. by eapply next_call_is_skipped.
  - intros. by eapply second_run_skips.
  - intros. by eapply main_tally.
  - intros w w1 w2 w3 totalStats totalStats2 Hmain Hwritable Hfiles Hcache Hmain2 Hall.
    destruct (main_tally _ _ _ Hmain2) as (Hp & Hs & He).
    destruct (howMany_all_skipped (mainOutcomes w2)) as (Hp0 & Hs0 & He0).
    { intros filepath r Hin.
      destruct (Hall filepath r Hin) as ((resized & o & s & saved & Hfirst) & Hund & Hund2).
      exists (js "Bereits optimiert").
      by eapply (second_run_skips w w1 w2 totalStats filepath resized o s saved). }
    by rewrite Hp, Hs, He.
  - done.
Qed.

End OptimizerFacts.

(** *** Concrete runs *)

Import Optimizer Scenario Newsroom.

Local Abbreviation optimizeImage := (Optimizer.optimizeImage digest metadataOf encodeTo instant).
Local Abbreviation mainWith := (Optimizer.main Scenario.siteRoot digest metadataOf).
Local Abbreviation outcomesWith := (Optimizer.mainOutcomes Scenario.siteRoot digest metadataOf).

(** A state-passing call is its result paired with the state it leaves. *)
Lemma call_of_result {A B : Type} (call : A * B) (a : A) :
  fst call = a → call = (a, snd call).
Proof. intros <-. apply surjective_pairing. Qed.

Lemma run_of_default {A B : Type} (run : option (A * B)) (d : A * B) :
  is_Some run → run = Some (fst (default d run), snd (default d run)).
Proof. intros [[a b] ->]. reflexivity. Qed.

(** In a directory that lists one image only, nothing disturbs that image. *)
Lemma undisturbed_webp :
  Optimizer.undisturbed Scenario.siteRoot heroWebp worldWebp.
Proof.
  intros dirPath entries file Hdir Hentries Hfile Hne;
    apply elem_of_cons in Hdir as [-> | Hdir];
    try (apply elem_of_cons in Hdir as [-> | Hdir]; [|by apply elem_of_nil in Hdir]);
    vm_compute in Hentries; try discriminate Hentries;
    injection Hentries as <-; vm_compute in Hfile;
    repeat (apply elem_of_cons in Hfile as [-> | Hfile]);
    try (by apply elem_of_nil in Hfile);
    exfalso; apply Hne; vm_compute; reflexivity.
Qed.

Lemma undisturbed_webp_rerun :
  Optimizer.undisturbed Scenario.siteRoot heroWebp worldWebpRerun.
Proof.
  intros dirPath entries file Hdir Hentries Hfile Hne;
    apply elem_of_cons in Hdir as [-> | Hdir];
    try (apply elem_of_cons in Hdir as [-> | Hdir]; [|by apply elem_of_nil in Hdir]);
    vm_compute in Hentries; try discriminate Hentries;
    injection Hentries as <-; vm_compute in Hfile;
    repeat (apply elem_of_cons in Hfile as [-> | Hfile]);
    try (by apply elem_of_nil in Hfile);
    exfalso; apply Hne; vm_compute; reflexivity.
Qed.

Lemma webp_second_run_outcomes :
  outcomesWith encodeTo instant worldWebpRerun
  = [(heroWebp, Skipped (js "Bereits optimiert"))].
Proof. vm_compute. reflexivity. Qed.

Lemma undisturbed_hero :
  Optimizer.undisturbed Scenario.siteRoot heroJpg worldHero.
Proof.
  intros dirPath entries file Hdir Hentries Hfile Hne;
    apply elem_of_cons in Hdir as [-> | Hdir];
    try (apply elem_of_cons in Hdir as [-> | Hdir]; [|by apply elem_of_nil in Hdir]);
    vm_compute in Hentries; try discriminate Hentries;
    injection Hentries as <-; vm_compute in Hfile;
    repeat (apply elem_of_cons in Hfile as [-> | Hfile]);
    try (by apply elem_of_nil in Hfile);
    exfalso; apply Hne; vm_compute; reflexivity.
Qed.

Lemma undisturbed_hero_rerun :
  Optimizer.undisturbed Scenario.siteRoot heroJpg worldHeroRerun.
Proof.
  intros dirPath entries file Hdir Hentries Hfile Hne;
    apply elem_of_cons in Hdir as [-> | Hdir];
    try (apply elem_of_cons in Hdir as [-> | Hdir]; [|by apply elem_of_nil in Hdir]);
    vm_compute in Hentries; try discriminate Hentries;
    injection Hentries as <-; vm_compute in Hfile;
    repeat (apply elem_of_cons in Hfile as [-> | Hfile]);
    try (by apply elem_of_nil in Hfile);
    try (exfalso; apply Hne; vm_compute; reflexivity).
  unfold footprint. rewrite !not_elem_of_cons.
  repeat split; try (vm_compute; discriminate). apply not_elem_of_nil.
Qed.

Lemma cached_file_is_skipped_witness :
  (∃ reason, optimizeImage heroJpg worldHeroDone = (Normal (Skipped reason), worldHeroDone))
  ∧ files (snd (Optimizer.main Scenario.siteRoot digest metadataOf encodeTo instant
                  worldHeroRerun)) !! heroJpg
    = Some [Byte.x20; Byte.x30; Byte.x40].
Proof.
  destruct (cached_file_is_skipped Scenario.siteRoot digest metadataOf encodeTo instant)
    as (Hcall & Hrun & _).
  split.
  - apply (Hcall heroJpg worldHeroDone [Byte.x20; Byte.x30; Byte.x40]
             {| hash := [32; 48; 64]; optimized := true; originalSize := 4;
                optimizedSize := 3; timestamp := instant 0 |}).
    + vm_compute. reflexivity.
    + vm_compute. reflexivity.
    + reflexivity.
    + reflexivity.
  - refine (proj1 (Hrun worldHeroRerun
             (snd (Optimizer.main Scenario.siteRoot digest metadataOf encodeTo instant
                     worldHeroRerun))
             (fst (Optimizer.main Scenario.siteRoot digest metadataOf encodeTo instant
                     worldHeroRerun))
             heroJpg [Byte.x20; Byte.x30; Byte.x40]
             (imageCache worldHeroDone)
             {| hash := [32; 48; 64]; optimized := true; originalSize := 4;
                optimizedSize := 3; timestamp := instant 0 |} _ _ _ _ _ _ _ _)).
    + vm_compute. reflexivity.
    + vm_compute. reflexivity.
    + vm_compute. reflexivity.
    + vm_compute. reflexivity.
    + reflexivity.
    + reflexivity.
    + apply undisturbed_hero_rerun.
    + apply surjective_pairing.
Defined.

Lemma rerun_after_success_is_skipped_witness :
  optimizeImage heroJpg worldHeroDone
  = (Normal (Skipped (js "Bereits optimiert")), worldHeroDone)
  ∧ (∀ r, (heroJpg, r) ∈ Optimizer.mainOutcomes Scenario.siteRoot digest metadataOf
                           encodeTo instant worldHeroRerun →
          r = Skipped (js "Bereits optimiert"))
  ∧ (processed {| processed := 0; skipped := 1; errors := 0; totalSaved := NaN |} = 0
     ∧ skipped {| processed := 0; skipped := 1; errors := 0; totalSaved := NaN |}
       = N.of_nat (length (outcomesWith encodeTo instant worldWebpRerun))
     ∧ errors {| processed := 0; skipped := 1; errors := 0; totalSaved := NaN |} = 0).
Proof.
  destruct (rerun_after_success_is_skipped Scenario.siteRoot digest metadataOf
              encodeTo instant) as (Hcall & Hrun & _ & Hreport & _).
  split; [|split].
  - apply (Hcall heroJpg worldHero worldHeroDone worldHeroDone false 4 3 1%Z).
    + vm_compute. reflexivity.
    + reflexivity.
    + reflexivity.
  - apply (Hrun worldHero
             (snd (Optimizer.main Scenario.siteRoot digest metadataOf encodeTo instant
                     worldHero))
             worldHeroRerun
             {| processed := 1; skipped := 0; errors := 0; totalSaved := NaN |}
             heroJpg false 4 3 1%Z).
    + vm_compute. reflexivity.
    + reflexivity.
    + vm_compute. apply list_elem_of_here.
    + apply undisturbed_hero.
    + vm_compute. reflexivity.
    + vm_compute. reflexivity.
    + apply undisturbed_hero_rerun.
  - apply (Hreport worldWebp (snd (mainWith encodeTo instant worldWebp)) worldWebpRerun
             (snd (mainWith encodeTo instant worldWebpRerun))
             {| processed := 1; skipped := 0; errors := 0; totalSaved := NaN |}).
    + apply call_of_result. vm_compute. reflexivity.
    + reflexivity.
    + vm_compute. reflexivity.
    + vm_compute. reflexivity.
    + apply call_of_result. vm_compute. reflexivity.
    + intros filepath r Hin. rewrite webp_second_run_outcomes in Hin.
      apply list_elem_of_singleton in Hin. injection Hin as -> ->.
      split; [|split].
      * exists false, 3, 2, 1%Z. vm_compute. apply list_elem_of_here.
      * apply undisturbed_webp.
      * apply undisturbed_webp_rerun.
Defined.

(** C1, the counterexample: the WebP file is recorded in the cache file as
    optimized under the hash of its bytes, and the run classifies it as
    skipped; the JPEG of the same name, handled after it, is made smaller,
    and its WebP sibling is written over the file, whose bytes are no longer
    the ones it had. *)
Lemma cached_sibling_is_overwritten :
  supported heroWebp
  ∧ files worldPair !! heroWebp = Some [Byte.x01; Byte.x02]
  ∧ (∃ data cached,
       cacheFile worldPair = Some data ∧ data !! heroWebp = Some cached
       ∧ hash cached = digest [Byte.x01; Byte.x02] ∧ optimized cached = true)
  ∧ outcomesWith encodeTo instant worldPair
    = [(heroWebp, Skipped (js "Bereits optimiert")); (heroJpg, Success false 4 3 1)]
  ∧ files (snd (mainWith encodeTo instant worldPair)) !! heroWebp
    = Some [Byte.x20; Byte.x30]
  ∧ ¬ Optimizer.undisturbed Scenario.siteRoot heroWebp worldPair.
Proof.
  split; [vm_compute; reflexivity|]. split; [vm_compute; reflexivity|].
  split.
  { eexists _, _. split; [reflexivity|]. split; [vm_compute; reflexivity|].
    split; reflexivity. }
  split; [vm_compute; reflexivity|]. split; [vm_compute; reflexivity|].
  intros Hund.
  apply (Hund imagesDir [js "hero.webp"; js "hero.jpg"] (js "hero.jpg")).
  - vm_compute. apply list_elem_of_here.
  - vm_compute. reflexivity.
  - vm_compute. apply list_elem_of_further, list_elem_of_here.
  - vm_compute. discriminate.
  - unfold footprint. apply list_elem_of_further, list_elem_of_further.
    vm_compute. apply list_elem_of_here.
Qed.

(** C5, the counterexample: with a codec that shaves a byte off whatever it
    encodes, the first run makes the WebP file smaller and then, handling the
    JPEG of the same name, writes the sibling of the JPEG over it.  The
    second run starts from the files, the listings and the cache file that
    the first left, finds bytes that the cache entry does not know, and
    processes the file again: it reports [processed = 1]. *)
Lemma overwritten_sibling_is_processed_again :
  outcomesWith encodeShaving instant worldTwins
  = [(heroWebp, Success false 3 2 1); (heroJpg, Success false 4 3 1)]
  ∧ files worldTwinsRerun = files (snd (mainWith encodeShaving instant worldTwins))
  ∧ cacheFile worldTwinsRerun = cacheFile (snd (mainWith encodeShaving instant worldTwins))
  ∧ dirs worldTwinsRerun = dirs worldTwins
  ∧ outcomesWith encodeShaving instant worldTwinsRerun
    = [(heroWebp, Success false 2 1 1); (heroJpg, Skipped (js "Bereits optimiert"))]
  ∧ fst (mainWith encodeShaving instant worldTwinsRerun)
    = Normal {| processed := 1; skipped := 1; errors := 0; totalSaved := NaN |}.
Proof.
  split; [vm_compute; reflexivity|]. split; [vm_compute; reflexivity|].
  split; [vm_compute; reflexivity|]. split; [vm_compute; reflexivity|].
  split; vm_compute; reflexivity.
Qed.

(** What the second run does in that directory. *)
Lemma second_run_outcomes :
  Optimizer.mainOutcomes Scenario.siteRoot digest metadataOf encodeTo instant worldHeroRerun
  = [(heroJpg, Skipped (js "Bereits optimiert"));
     (js "/srv/site/public/images/hero.webp",
      Skipped (js "Keine Verbesserung m" ++ [246] ++ js "glich"))].
Proof. vm_compute. reflexivity. Qed.

Lemma not_smaller_is_discarded_witness :
  ∃ w' ts,
    optimizeImage logoPng worldLogo
    = (Normal (Skipped (js "Keine Verbesserung m" ++ [246] ++ js "glich")), w')
    ∧ files w' !! tempPathOf logoPng = None
    ∧ files w' !! logoPng = Some logoBytes
    ∧ (∀ p, p ≠ tempPathOf logoPng → files w' !! p = files worldLogo !! p)
    ∧ imageCache w' !! logoPng
      = Some {| hash := digest logoBytes; optimized := true;
                originalSize := N.of_nat (length logoBytes);
                optimizedSize := N.of_nat (length logoBytes); timestamp := ts |}
    ∧ ∀ q, q ≠ logoPng → imageCache w' !! q = imageCache worldLogo !! q.
Proof.
  apply (not_smaller_is_discarded digest metadataOf encodeTo instant logoPng worldLogo
           logoBytes logoBytes (Some 100) (png 9 true)).
  - vm_compute. reflexivity.
  - vm_compute. reflexivity.
  - reflexivity.
  - vm_compute. reflexivity.
  - vm_compute. reflexivity.
  - simpl. lia.
Defined.

Lemma codec_error_is_contained_witness :
  optimizeImage emptyJpg worldNews
  = (Normal (Error (js "Input file is missing or empty")), worldNews)
  ∧ (∃ w', optimizeImage corruptPng worldNews = (Normal (Error (js "Corrupt image data")), w')
           ∧ imageCache w' = imageCache worldNews
           ∧ files w' !! corruptPng = Some [Byte.xff; Byte.x00]
           ∧ ∀ p, p ≠ tempPathOf corruptPng → files w' !! p = files worldNews !! p)
  ∧ Optimizer.processFiles digest metadataOf encodeTo instant newsDir
      [js "a-empty.jpg"; js "team.jpg"]
      {| processed := 0; skipped := 0; errors := 0; totalSaved := Num 0 |} worldNews
    = Optimizer.processFiles digest metadataOf encodeTo instant newsDir
      [js "team.jpg"]
      {| processed := 0; skipped := 0; errors := 1; totalSaved := Num 0 |} worldNews.
Proof.
  assert (Hempty := codec_error_is_contained digest metadataOf encodeTo instant
                      emptyJpg worldNews []
                      ltac:(vm_compute; reflexivity) ltac:(vm_compute; reflexivity)
                      ltac:(vm_compute; reflexivity)).
  assert (Hcorrupt := codec_error_is_contained digest metadataOf encodeTo instant
                        corruptPng worldNews [Byte.xff; Byte.x00]
                        ltac:(vm_compute; reflexivity) ltac:(vm_compute; reflexivity)
                        ltac:(vm_compute; reflexivity)).
  destruct Hempty as (Hmeta & _ & _ & Hany).
  destruct Hcorrupt as (_ & Hencode & _ & _).
  assert (Hrun : optimizeImage emptyJpg worldNews
                 = (Normal (Error (js "Input file is missing or empty")), worldNews))
    by (apply Hmeta; reflexivity).
  split; [exact Hrun|]. split.
  - apply (Hencode (Some 25500) (png 9 true) _ (Some []));
      [reflexivity | vm_compute; reflexivity | vm_compute; reflexivity].
  - destruct (Hany _ _ Hrun) as (_ & _ & Hloop).
    apply (Hloop newsDir (js "a-empty.jpg") [js "team.jpg"]). vm_compute. reflexivity.
Defined.

(** C2, the counterexample: the JPEG re-encode makes the file smaller, the
    file is replaced, and the encode of the WebP sibling then fails; the call
    returns an error result, yet the bytes of the file are no longer the
    ones it had. *)
Lemma failed_sibling_leaves_file_replaced :
  fst (Optimizer.optimizeImage digest metadataOf encodeNoWebp instant heroJpg worldHero)
  = Normal (Error (js "webp: unable to write"))
  ∧ files worldHero !! heroJpg = Some [Byte.x10; Byte.x20; Byte.x30; Byte.x40]
  ∧ files (snd (Optimizer.optimizeImage digest metadataOf encodeNoWebp instant
                  heroJpg worldHero)) !! heroJpg
    = Some [Byte.x20; Byte.x30; Byte.x40]
  ∧ files (snd (Optimizer.optimizeImage digest metadataOf encodeNoWebp instant
                  heroJpg worldHero)) !! heroJpg
    ≠ files worldHero !! heroJpg.
Proof.
  split; [vm_compute; reflexivity|]. split; [vm_compute; reflexivity|].
  split; [vm_compute; reflexivity|]. vm_compute. discriminate.
Qed.

(** C3, at the failing input: for a file whose extension is written in
    upper case, the WebP path that the code derives is the path of the file
    itself, so whatever the codec does, no file appears at the same basename
    with the .webp extension; with a codec that refuses to write onto its
    input, the file is replaced by the smaller bytes, the call returns an
    error, and no cache entry is written. *)
Theorem uppercase_extension_gets_no_webp_sibling :
  supported photoJPG
  ∧ extOf photoJPG = js ".jpg"
  ∧ webpPathOf (extOf photoJPG) photoJPG = photoJPG
  ∧ (∀ md5 metadata toFile now,
       files (snd (Optimizer.optimizeImage md5 metadata toFile now photoJPG worldPhoto))
         !! photoWebp = None)
  ∧ fst (optimizeImage photoJPG worldPhoto)
    = Normal (Error (js "Cannot use same file for input and output"))
  ∧ files (snd (optimizeImage photoJPG worldPhoto)) !! photoJPG
    = Some [Byte.x20; Byte.x30; Byte.x40]
  ∧ imageCache (snd (optimizeImage photoJPG worldPhoto)) !! photoJPG = None.
Proof.
  split; [vm_compute; reflexivity|]. split; [vm_compute; reflexivity|].
  split; [vm_compute; reflexivity|]. split; [|repeat split; vm_compute; reflexivity].
  intros md5 metadata toFile now.
  destruct (Optimizer.optimizeImage md5 metadata toFile now photoJPG worldPhoto)
    as [r w'] eqn:Hrun.
  destruct (optimizeImage_frame _ _ _ _ _ _ _ _ Hrun) as ((_ & _ & _ & Hoff) & _).
  simpl. rewrite Hoff; [vm_compute; reflexivity|].
  unfold footprint. rewrite !not_elem_of_cons.
  repeat split; try (vm_compute; discriminate). apply not_elem_of_nil.
Qed.

(** The same run on a lower-case name writes the sibling next to the file. *)
Lemma lowercase_extension_gets_webp_sibling :
  webpPathOf (extOf heroJpg) heroJpg = js "/srv/site/public/images/hero.webp"
  ∧ fst (optimizeImage heroJpg worldHero) = Normal (Success false 4 3 1)
  ∧ files worldHeroDone !! heroJpg = Some [Byte.x20; Byte.x30; Byte.x40]
  ∧ files worldHeroDone !! js "/srv/site/public/images/hero.webp"
    = Some [Byte.x20; Byte.x30]
  ∧ files worldHeroDone !! tempPathOf heroJpg = None.
Proof. repeat split; vm_compute; reflexivity. Qed.

(** C8, at the failing input: the news directory does not exist; the images
    directory yields one processed file and one saved byte, and the run
    reports [NaN] as the total of the saved bytes. *)
Theorem missing_directory_total_is_NaN :
  imageDirs Scenario.siteRoot = [imagesDir; newsDir]
  ∧ dirs worldHero !! newsDir = None
  ∧ fst (Optimizer.processDirectory digest metadataOf encodeTo instant imagesDir worldHero)
    = Normal {| processed := 1; skipped := 0; errors := 0; totalSaved := Num 1 |}
  ∧ fst (Optimizer.processDirectory digest metadataOf encodeTo instant newsDir worldHeroDone)
    = Normal {| processed := 0; skipped := 0; errors := 0; totalSaved := undefined |}
  ∧ fst (Optimizer.main Scenario.siteRoot digest metadataOf encodeTo instant worldHero)
    = Normal {| processed := 1; skipped := 0; errors := 0; totalSaved := NaN |}.
Proof. repeat split; vm_compute; reflexivity. Qed.


(** * Further properties of the scripts *)

(** ** Fetcher: one download *)

Section DownloadFacts.
Import Fetcher FetcherRun.

Variable get : Protocol -> jsstring -> Response.

Lemma downloadImage_other_files (fuel : nat) :
  ∀ (url : option jsstring) (filepath : jsstring) (fs : gmap jsstring (list Byte.byte))
    (p : jsstring),
    p ≠ filepath →
    snd (downloadImage get fuel url filepath fs) !! p = fs !! p.
Proof.
  induction fuel as [|fuel IH]; intros url filepath fs p Hp; [done|].
  cbn [downloadImage]. destruct url as [u|]; [|done].
  destruct (get (protocolOf u) u)
    as [|err|statusCode location body|statusCode location partial]; simpl.
  - by rewrite lookup_insert_ne.
  - rewrite lookup_delete_ne by done. by rewrite lookup_insert_ne.
  - destruct ((statusCode =? 301) || (statusCode =? 302)).
    + rewrite IH by done. by rewrite lookup_insert_ne.
    + destruct (negb (statusCode =? 200)); simpl; by rewrite !lookup_insert_ne.
  - destruct ((statusCode =? 301) || (statusCode =? 302)).
    + rewrite IH by done. by rewrite lookup_insert_ne.
    + destruct (negb (statusCode =? 200)); simpl; by rewrite !lookup_insert_ne.
Qed.

(** How a download settles depends on the server alone. *)
Lemma downloadImage_settles_alike (fuel : nat) :
  ∀ (url : option jsstring) (filepath filepath' : jsstring)
    (fs fs' : gmap jsstring (list Byte.byte)),
    match fst (downloadImage get fuel url filepath fs),
          fst (downloadImage get fuel url filepath' fs') with
    | Resolved p, Resolved p' => p = filepath ∧ p' = filepath'
    | Rejected r, Rejected r' => r = r'
    | Pending, Pending => True
    | _, _ => False
    end.
Proof.
  induction fuel as [|fuel IH]; intros url filepath filepath' fs fs'; [done|].
  cbn [downloadImage]. destruct url as [u|]; [|done].
  destruct (get (protocolOf u) u)
    as [|err|statusCode location body|statusCode location partial]; simpl; try done;
    (destruct ((statusCode =? 301) || (statusCode =? 302)); [apply IH|]);
    by destruct (negb (statusCode =? 200)).
Qed.

Lemma delivered_resolves (fuel : nat) (url filepath : jsstring)
    (fs : gmap jsstring (list Byte.byte)) :
  delivered get fuel url = true ↔
  fst (downloadImage get fuel (Some url) filepath fs) = Resolved filepath.
Proof.
  unfold delivered.
  pose proof (downloadImage_settles_alike fuel (Some url) [] filepath ∅ fs) as H.
  destruct (fst (downloadImage get fuel (Some url) [] ∅)),
           (fst (downloadImage get fuel (Some url) filepath fs)); try done.
  destruct H as [_ ->]. done.
Qed.

(** X1: a download writes to its target path only. *)
Theorem download_touches_only_its_target (fuel : nat) (url : option jsstring)
    (filepath p : jsstring) (fs : gmap jsstring (list Byte.byte)) :
  p ≠ filepath →
  snd (downloadImage get fuel url filepath fs) !! p = fs !! p.
Proof. apply downloadImage_other_files. Qed.

Lemma downloadImage_target_state (fuel : nat) :
  ∀ (url : option jsstring) (filepath : jsstring) (fs : gmap jsstring (list Byte.byte)),
    match downloadImage get fuel url filepath fs with
    | (Resolved p, fs') =>
        p = filepath
        ∧ ∃ u location body,
            get (protocolOf u) u = Reply 200 location body ∧ fs' !! filepath = Some body
    | (Rejected (RequestError _), fs') => fs' !! filepath = None
    | (Rejected (DownloadFailed statusCode), fs') =>
        statusCode ≠ 200 ∧ fs' !! filepath = Some []
    | (Rejected TypeError, fs') =>
        (url = None ∧ fs' = fs) ∨ fs' !! filepath = Some []
    | (Pending, _) => True
    end.
Proof.
  induction fuel as [|fuel IH]; intros url filepath fs; [done|].
  cbn [downloadImage]. destruct url as [u|]; [|by left].
  destruct (get (protocolOf u) u)
    as [|err|statusCode location body|statusCode location partial] eqn:Hget.
  - right. apply lookup_insert_eq.
  - apply lookup_delete_eq.
  - destruct ((statusCode =? 301) || (statusCode =? 302)).
    + specialize (IH location filepath (<[filepath:=[]]> fs)).
      destruct (downloadImage get fuel location filepath (<[filepath:=[]]> fs))
        as [[p|[|sc|err]|] fs']; try done.
      destruct IH as [[_ ->]|IH]; right; [apply lookup_insert_eq|exact IH].
    + destruct (N.eqb_spec statusCode 200) as [->|Hne]; simpl.
      * split; [done|]. exists u, location, body. split; [done|]. apply lookup_insert_eq.
      * split; [done|]. apply lookup_insert_eq.
  - destruct ((statusCode =? 301) || (statusCode =? 302)).
    + specialize (IH location filepath (<[filepath:=[]]> fs)).
      destruct (downloadImage get fuel location filepath (<[filepath:=[]]> fs))
        as [[p|[|sc|err]|] fs']; try done.
      destruct IH as [[_ ->]|IH]; right; [apply lookup_insert_eq|exact IH].
    + destruct (N.eqb_spec statusCode 200) as [->|Hne]; simpl; [done|].
      split; [done|]. apply lookup_insert_eq.
Qed.

(** X2: what a settled download leaves at its target.  When it resolves, the
    file holds exactly the body of a 200 response; after a transport error
    there is no file; after every other rejection an empty file is left. *)
Theorem download_leaves_body_or_no_data (fuel : nat) (url filepath : jsstring)
    (fs fs' : gmap jsstring (list Byte.byte)) (outcome : Settled) :
  downloadImage get fuel (Some url) filepath fs = (outcome, fs') →
  match outcome with
  | Resolved p =>
      p = filepath
      ∧ ∃ u location body,
          get (protocolOf u) u = Reply 200 location body ∧ fs' !! filepath = Some body
  | Rejected (RequestError _) => fs' !! filepath = None
  | Rejected _ => fs' !! filepath = Some []
  | Pending => True
  end.
Proof.
  intros Hrun. pose proof (downloadImage_target_state fuel (Some url) filepath fs) as H.
  rewrite Hrun in H. destruct outcome as [p|[|sc|err]|]; try done.
  - by destruct H as [[? _]|H].
  - by destruct H.
Qed.

(** X4: the code has no limit of its own on redirects.  A chain of [k]
    answers 301 or 302 that ends at an address answering 200 is followed to
    its end, and the download resolves with the body in the file, whenever
    the process can nest more than [k] calls. *)
Theorem download_follows_redirect_chain (k : nat) :
  ∀ (fuel : nat) (url target filepath : jsstring) (location : option jsstring)
    (body : list Byte.byte) (fs : gmap jsstring (list Byte.byte)),
    redirects get k url target →
    get (protocolOf target) target = Reply 200 location body →
    (k < fuel)%nat →
    downloadImage get fuel (Some url) filepath fs
    = (Resolved filepath, <[filepath := body]> fs).
Proof.
  induction k as [|k IH]; intros fuel url target filepath location body fs Hchain Hget Hfuel;
    (destruct fuel as [|fuel]; [lia|]); inversion Hchain; subst; cbn [downloadImage].
  - rewrite Hget. simpl. by rewrite insert_insert_eq.
  - match goal with H : get _ url = _ |- _ => rewrite H end.
    match goal with H : _ = 301 ∨ _ = 302 |- _ => destruct H as [-> | ->] end; simpl;
      (erewrite IH; [by rewrite insert_insert_eq|eassumption|eassumption|lia]).
Qed.

(** X5: an address that redirects to itself keeps the download from ever
    settling. *)
Theorem download_redirect_loop_never_settles (fuel : nat) :
  ∀ (url filepath : jsstring) (statusCode : N) (body : list Byte.byte)
    (fs : gmap jsstring (list Byte.byte)),
    get (protocolOf url) url = Reply statusCode (Some url) body →
    statusCode = 301 ∨ statusCode = 302 →
    fst (downloadImage get fuel (Some url) filepath fs) = Pending.
Proof.
  induction fuel as [|fuel IH]; intros url filepath statusCode body fs Hget Hst; [done|].
  cbn [downloadImage]. rewrite Hget.
  destruct Hst as [-> | ->]; simpl; by eapply IH; [exact Hget|auto].
Qed.

End DownloadFacts.

(** ** Fetcher: the extension of a download *)

Section ExtensionFacts.
Import Fetcher FetcherRun.

Lemma lowerUnit_of_match (p c : N) :
  97 <= p <= 122 → unitMatches p c = true → lowerUnit c = [p].
Proof.
  intros Hp. unfold unitMatches, lowerUnit.
  rewrite orb_true_iff, !andb_true_iff, !N.eqb_eq, !N.leb_le.
  intros [-> | [_ <-]].
  - repeat (case_match; try reflexivity);
      repeat match goal with
             | H : _ || _ = true |- _ => apply orb_true_iff in H as [H|H]
             | H : _ && _ = true |- _ => apply andb_true_iff in H as [? ?]
             | H : (_ <=? _) = true |- _ => apply N.leb_le in H
             | H : (_ =? _) = true |- _ => apply N.eqb_eq in H
             end; lia.
  - assert (Hc : ((65 <=? c) && (c <=? 90)) = true).
    { rewrite andb_true_iff, !N.leb_le. lia. }
    by rewrite Hc.
Qed.

Lemma toLowerCase_of_match (alt : jsstring) :
  ∀ s, Forall (fun p => 97 <= p <= 122) alt →
       prefixMatches alt s = true →
       toLowerCase (take (length alt) s) = alt.
Proof.
  induction alt as [|p alt IH]; intros s Hletters Hmatch; [done|].
  destruct s as [|c s]; [done|]. simpl in Hmatch.
  apply andb_true_iff in Hmatch as [Hc Hrest]. inversion Hletters; subst.
  cbn [length take]. unfold toLowerCase in *. cbn [flat_map].
  rewrite (lowerUnit_of_match p c) by done. simpl. f_equal. by apply IH.
Qed.

Lemma alternatives_letters :
  Forall (fun alt => Forall (fun p => 97 <= p <= 122) alt) alternatives.
Proof. repeat constructor; vm_compute; by intros [=]. Qed.

Lemma firstMatch_some (s m : jsstring) :
  firstMatch s = Some m →
  ∃ alt, alt ∈ alternatives ∧ toLowerCase m = Path.dot :: alt.
Proof.
  induction s as [|c r IH]; [done|]. cbn [firstMatch]. unfold matchHere at 1.
  destruct (N.eqb_spec c Path.dot) as [->|Hc]; [|exact IH].
  destruct (List.find (fun alt => prefixMatches alt r) alternatives) as [alt|] eqn:Hfind;
    [|exact IH].
  intros [= <-]. apply find_some in Hfind as [Hin Hmatch].
  exists alt. split; [by apply list_elem_of_In|].
  change (toLowerCase (Path.dot :: take (length alt) r))
    with (Path.dot :: toLowerCase (take (length alt) r)).
  f_equal. apply toLowerCase_of_match; [|done].
  pose proof alternatives_letters as Hall. rewrite Forall_forall in Hall.
  by apply Hall, list_elem_of_In.
Qed.

Lemma firstMatch_without_dot (s : jsstring) :
  Path.dot ∉ s → firstMatch s = None.
Proof.
  induction s as [|c r IH]; intros Hdot; [done|].
  apply not_elem_of_cons in Hdot as [Hc Hr]. cbn [firstMatch]. unfold matchHere at 1.
  destruct (N.eqb_spec c Path.dot) as [->|_]; [done|]. by apply IH.
Qed.

(** X6: the extension chosen for a download is always one of the six known
    ones, in lower case, wherever in the address it was found and whatever
    its case there; an address without a dot gets ".jpg". *)
Theorem getExtension_is_known (url : jsstring) :
  getExtension url ∈ [js ".jpg"; js ".jpeg"; js ".png"; js ".gif"; js ".webp"; js ".avif"]
  ∧ (Path.dot ∉ url → getExtension url = js ".jpg").
Proof.
  unfold getExtension. split.
  - destruct (firstMatch url) as [m|] eqn:Hm; [|by left].
    destruct (firstMatch_some _ _ Hm) as (alt & Hin & ->).
    unfold alternatives in Hin. rewrite !elem_of_cons in Hin.
    destruct Hin as [->|[->|[->|[->|[->|[->|Hin]]]]]];
      [| | | | | |by apply elem_of_nil in Hin];
      rewrite !elem_of_cons; auto 10.
  - intros Hdot. by rewrite firstMatch_without_dot.
Qed.

End ExtensionFacts.

Lemma getExtension_examples :
  FetcherRun.getExtension (js "https://files.example.com/a/Bild.PNG?X-Amz=1") = js ".png"
  ∧ FetcherRun.getExtension (js "https://host/photo.jpeg") = js ".jpeg"
  ∧ FetcherRun.getExtension (js "https://host/download?id=7") = js ".jpg".
Proof. repeat split; vm_compute; reflexivity. Qed.

(** ** Fetcher: the run over the pages *)

Section FetcherRunFacts.
Import Notion Fetcher FetcherRun.

Variable get : Protocol -> jsstring -> Response.
Variable imageDir : jsstring.

Local Abbreviation downloadPages := (FetcherRun.downloadPages get imageDir).
Local Abbreviation downloadNotionImages := (FetcherRun.downloadNotionImages get imageDir).
Local Abbreviation delivered := (FetcherRun.delivered get).

Lemma requests_elem (pages : list Page) (page : Page) (url : jsstring) :
  (page, url) ∈ requests pages ↔ page ∈ pages ∧ truthy (imageUrlOf page) = Some url.
Proof.
  induction pages as [|p rest IH]; simpl.
  - split; [intros H; by apply elem_of_nil in H|intros [H _]; by apply elem_of_nil in H].
  - destruct (truthy (imageUrlOf p)) as [u|] eqn:Hp.
    + rewrite !elem_of_cons, IH. split.
      * intros [[= -> ->]|[? ?]]; auto.
      * intros [[->|?] Hu]; [left; congruence|auto].
    + rewrite elem_of_cons, IH. split.
      * intros [? ?]; auto.
      * intros [[->|?] Hu]; [congruence|auto].
Qed.

Lemma downloadImage_resolved_delivered (fuel : nat) (url filepath p : jsstring)
    (fs fs' : gmap jsstring (list Byte.byte)) :
  downloadImage get fuel (Some url) filepath fs = (Resolved p, fs') →
  delivered fuel url = true.
Proof.
  intros Hrun. apply (delivered_resolves get fuel url filepath fs).
  pose proof (downloadImage_target_state get fuel (Some url) filepath fs) as H.
  rewrite Hrun in H. destruct H as [-> _]. by rewrite Hrun.
Qed.

Lemma downloadImage_rejected_not_delivered (fuel : nat) (url filepath : jsstring)
    (r : Rejection) (fs fs' : gmap jsstring (list Byte.byte)) :
  downloadImage get fuel (Some url) filepath fs = (Rejected r, fs') →
  delivered fuel url = false.
Proof.
  intros Hrun. destruct (delivered fuel url) eqn:Hd; [|done].
  apply (delivered_resolves get fuel url filepath fs) in Hd. by rewrite Hrun in Hd.
Qed.

Lemma distinct_ids (pages : list Page) (page page' : Page) :
  NoDup (List.map id pages) → page ∈ pages → page' ∈ pages → id page' = id page →
  page' = page.
Proof.
  induction pages as [|p rest IH]; intros Hnodup Hin Hin' Hid.
  - by apply elem_of_nil in Hin.
  - simpl in Hnodup. apply NoDup_cons in Hnodup as [Hnot Hnodup].
    apply elem_of_cons in Hin as [->|Hin]; apply elem_of_cons in Hin' as [->|Hin'].
    + done.
    + destruct Hnot. rewrite <- Hid. apply list_elem_of_In in Hin'.
      apply list_elem_of_In. by apply in_map.
    + destruct Hnot. rewrite Hid. apply list_elem_of_In in Hin.
      apply list_elem_of_In. by apply in_map.
    + by apply IH.
Qed.

Lemma downloadPages_entries (fuel : nat) (pages : list Page) :
  ∀ (fs fs' : gmap jsstring (list Byte.byte)) (m m' : gmap jsstring jsstring),
    downloadPages fuel pages fs m = Some (m', fs') →
    (∀ k v, m' !! k = Some v →
       m !! k = Some v
       ∨ ∃ page url, (page, url) ∈ requests pages ∧ id page = k
                     ∧ v = localPath (filenameOf page url)
                     ∧ delivered fuel url = true)
    ∧ (∀ k, is_Some (m !! k) → is_Some (m' !! k))
    ∧ (∀ page url, (page, url) ∈ requests pages → delivered fuel url = true →
                   is_Some (m' !! id page)).
Proof.
  induction pages as [|page rest IH]; intros fs fs' m m' Hrun; simpl in Hrun |- *.
  - injection Hrun as <- <-. split; [auto|]. split; [auto|].
    intros page url H. by apply elem_of_nil in H.
  - destruct (truthy (imageUrlOf page)) as [imageUrl|] eqn:Hurl.
    + destruct (downloadImage get fuel (Some imageUrl) _ fs) as [[p|r|] fs1] eqn:Hone;
        [| |discriminate].
      * destruct (IH _ _ _ _ Hrun) as (Hfrom & Hkeep & Hall).
        pose proof (downloadImage_resolved_delivered _ _ _ _ _ _ Hone) as Hd.
        split; [|split].
        -- intros k v Hk. destruct (Hfrom k v Hk) as [Hm | (pg & u & Hin & ? & ? & ?)].
           ++ destruct (decide (id page = k)) as [<-|Hne].
              ** rewrite lookup_insert_eq in Hm. injection Hm as <-.
                 right. exists page, imageUrl. split; [by left|done].
              ** rewrite lookup_insert_ne in Hm by done. by left.
           ++ right. exists pg, u. split; [by right|done].
        -- intros k Hk. apply Hkeep.
           destruct (decide (id page = k)) as [<-|Hne];
             [by rewrite lookup_insert_eq | by rewrite lookup_insert_ne].
        -- intros pg u Hin Hdel. apply elem_of_cons in Hin as [[= -> ->]|Hin].
           ++ apply Hkeep. by rewrite lookup_insert_eq.
           ++ by eapply Hall.
      * destruct (IH _ _ _ _ Hrun) as (Hfrom & Hkeep & Hall).
        pose proof (downloadImage_rejected_not_delivered _ _ _ _ _ _ Hone) as Hd.
        split; [|split].
        -- intros k v Hk. destruct (Hfrom k v Hk) as [Hm | (pg & u & Hin & ? & ? & ?)];
             [by left|]. right. exists pg, u. split; [by right|done].
        -- exact Hkeep.
        -- intros pg u Hin Hdel. apply elem_of_cons in Hin as [[= -> ->]|Hin];
             [congruence|by eapply Hall].
    + destruct (IH _ _ _ _ Hrun) as (Hfrom & Hkeep & Hall). done.
Qed.

(** X7: where the entries of the image map come from.  Every entry belongs to
    a page of the query whose first image has an address and whose download
    resolved, and its value is /images/news/ followed by the slug of the
    title and the extension of the address; an identifier none of whose
    pages has an address gets no entry. *)
Theorem image_map_entries_come_from_downloads (fuel : nat) (results : list Page)
    (fs fs' : gmap jsstring (list Byte.byte)) (imageMap : gmap jsstring jsstring) :
  downloadNotionImages fuel results fs = Some (imageMap, fs') →
  (∀ k v, imageMap !! k = Some v →
     ∃ page url, page ∈ results ∧ id page = k
                 ∧ truthy (imageUrlOf page) = Some url
                 ∧ v = js "/images/news/" ++ Slug.slugify (titleOf page) ++ getExtension url
                 ∧ delivered fuel url = true)
  ∧ (∀ k, (∀ page, page ∈ results → id page = k → truthy (imageUrlOf page) = None) →
          imageMap !! k = None).
Proof.
  intros Hrun. destruct (downloadPages_entries _ _ _ _ _ _ Hrun) as (Hfrom & _ & _).
  assert (Hentry : ∀ k v, imageMap !! k = Some v →
     ∃ page url, page ∈ results ∧ id page = k
                 ∧ truthy (imageUrlOf page) = Some url
                 ∧ v = js "/images/news/" ++ Slug.slugify (titleOf page) ++ getExtension url
                 ∧ delivered fuel url = true).
  { intros k v Hk. destruct (Hfrom k v Hk) as [Hm | (page & url & Hin & ? & ? & ?)];
      [by rewrite lookup_empty in Hm|].
    apply requests_elem in Hin as [? ?]. by exists page, url. }
  split; [exact Hentry|].
  intros k Hnone. destruct (imageMap !! k) as [v|] eqn:Hk; [|done].
  destruct (Hentry k v Hk) as (page & url & Hin & Hid & Hurl & _).
  rewrite (Hnone page Hin Hid) in Hurl. discriminate.
Qed.

(** X8: a failed download costs only its own entry.  In a run that finishes,
    every page whose download resolves has an entry in the image map,
    whatever happened to the downloads of the other pages; when the
    identifiers of the pages are distinct, the entry is the local path of
    that page. *)
Theorem resolved_downloads_are_mapped (fuel : nat) (results : list Page)
    (fs fs' : gmap jsstring (list Byte.byte)) (imageMap : gmap jsstring jsstring)
    (page : Page) (url : jsstring) :
  downloadNotionImages fuel results fs = Some (imageMap, fs') →
  page ∈ results →
  truthy (imageUrlOf page) = Some url →
  delivered fuel url = true →
  is_Some (imageMap !! id page)
  ∧ (NoDup (List.map id results) →
     imageMap !! id page = Some (localPath (filenameOf page url))).
Proof.
  intros Hrun Hin Hurl Hdel.
  destruct (downloadPages_entries _ _ _ _ _ _ Hrun) as (Hfrom & _ & Hall).
  assert (Hsome : is_Some (imageMap !! id page)).
  { apply (Hall page url); [by apply requests_elem|done]. }
  split; [exact Hsome|]. intros Hnodup. destruct Hsome as [v Hv]. rewrite Hv.
  destruct (Hfrom _ _ Hv) as [Hm | (page' & url' & Hin' & Hid & -> & _)];
    [by rewrite lookup_empty in Hm|].
  apply requests_elem in Hin' as [Hin' Hurl'].
  assert (page' = page) as -> by (by eapply distinct_ids).
  congruence.
Qed.

Lemma join_inj (dir a b : jsstring) : Path.join dir a = Path.join dir b → a = b.
Proof. unfold Path.join. intros H. apply app_inv_head in H. by injection H. Qed.

Lemma downloadPages_files (fuel : nat) (pages : list Page) :
  ∀ (fs fs' : gmap jsstring (list Byte.byte)) (m m' : gmap jsstring jsstring),
    NoDup (filenames pages) →
    (∀ k v, m !! k = Some v →
       ∃ fn, v = localPath fn ∧ is_Some (fs !! Path.join imageDir fn)
             ∧ fn ∉ filenames pages) →
    downloadPages fuel pages fs m = Some (m', fs') →
    ∀ k v, m' !! k = Some v →
      ∃ fn, v = localPath fn ∧ is_Some (fs' !! Path.join imageDir fn).
Proof.
  induction pages as [|page rest IH]; intros fs fs' m m' Hnodup Hinv Hrun;
    unfold filenames in *; simpl in Hrun, Hnodup, Hinv.
  - injection Hrun as <- <-. intros k v Hk.
    destruct (Hinv k v Hk) as (fn & ? & ? & _). by exists fn.
  - destruct (truthy (imageUrlOf page)) as [imageUrl|] eqn:Hurl;
      [|by eapply IH].
    simpl in Hnodup, Hinv. apply NoDup_cons in Hnodup as [Hfresh Hnodup].
    set (fn0 := filenameOf page imageUrl) in *.
    assert (Hold : ∀ fs1 : gmap jsstring (list Byte.byte),
      (∀ p, p ≠ Path.join imageDir fn0 → fs1 !! p = fs !! p) →
      ∀ k v, m !! k = Some v →
        ∃ fn, v = localPath fn ∧ is_Some (fs1 !! Path.join imageDir fn)
              ∧ fn ∉ List.map (fun pu => filenameOf (fst pu) (snd pu)) (requests rest)).
    { intros fs1 Hframe k v Hk. destruct (Hinv k v Hk) as (fn & -> & Hfile & Hnot).
      apply not_elem_of_cons in Hnot as [Hne Hnot]. exists fn.
      split; [done|]. split; [|done]. rewrite Hframe; [done|].
      intros Heq. by apply join_inj in Heq. }
    destruct (downloadImage get fuel (Some imageUrl) _ fs) as [[p|r|] fs1] eqn:Hone;
      [| |discriminate].
    + eapply (IH fs1 fs' _ m'); [exact Hnodup| |exact Hrun].
      intros k v Hk. destruct (decide (id page = k)) as [<-|Hne].
      * rewrite lookup_insert_eq in Hk. injection Hk as <-. exists fn0.
        split; [done|]. split; [|done].
        pose proof (downloadImage_target_state get fuel (Some imageUrl)
                      (Path.join imageDir fn0) fs) as Hstate.
        rewrite Hone in Hstate. destruct Hstate as (_ & u & loc & body & _ & ->). done.
      * rewrite lookup_insert_ne in Hk by done. apply (Hold fs1) with (k := k); [|done].
        intros q Hq. pose proof (downloadImage_other_files get fuel (Some imageUrl)
                        (Path.join imageDir fn0) fs q Hq) as Hq'.
        by rewrite Hone in Hq'.
    + eapply (IH fs1 fs' m m'); [exact Hnodup| |exact Hrun].
      apply Hold. intros q Hq.
      pose proof (downloadImage_other_files get fuel (Some imageUrl)
                    (Path.join imageDir fn0) fs q Hq) as Hq'.
      by rewrite Hone in Hq'.
Qed.

(** X9: when no two downloads of a run share a file name, every path that the
    image map names exists in the image directory at the end of the run. *)
Theorem mapped_images_exist_on_disk (fuel : nat) (results : list Page)
    (fs fs' : gmap jsstring (list Byte.byte)) (imageMap : gmap jsstring jsstring) :
  NoDup (filenames results) →
  downloadNotionImages fuel results fs = Some (imageMap, fs') →
  ∀ k v, imageMap !! k = Some v →
    ∃ filename, v = js "/images/news/" ++ filename
                ∧ is_Some (fs' !! Path.join imageDir filename).
Proof.
  intros Hnodup Hrun. eapply downloadPages_files; [exact Hnodup| |exact Hrun].
  intros k v Hk. by rewrite lookup_empty in Hk.
Qed.

(** *** From the fetcher to the shaper *)

Lemma remoteImage_is_imageUrl (page : Page) :
  ShaperPages.remoteImage page = truthy (imageUrlOf page).
Proof.
  unfold ShaperPages.remoteImage, imageUrlOf.
  destruct (Bild page) as [[|file rest]|]; try done.
  destruct (strictEq _ _); [done|]. by destruct (strictEq _ _).
Qed.

(** X10: the image of an article after a run of the fetcher.  With the image
    map that the run wrote and distinct page identifiers, the shaper gives a
    page without an image address no image, a page whose download resolved
    its local path, and a page whose download failed its remote address. *)
Theorem article_image_after_fetch (fuel : nat) (results : list Page)
    (fs fs' : gmap jsstring (list Byte.byte)) (imageMap : gmap jsstring jsstring)
    (page : Page) :
  downloadNotionImages fuel results fs = Some (imageMap, fs') →
  NoDup (List.map id results) →
  page ∈ results →
  Shaper.image (ShaperPages.shape imageMap page)
  = match truthy (imageUrlOf page) with
    | None => None
    | Some url =>
        if delivered fuel url
        then Some (js "/images/news/" ++ Slug.slugify (titleOf page) ++ getExtension url)
        else Some url
    end.
Proof.
  intros Hrun Hnodup Hin.
  destruct (downloadPages_entries _ _ _ _ _ _ Hrun) as (Hfrom & _ & Hall).
  assert (Hentry : ∀ v, imageMap !! id page = Some v →
            ∃ url, truthy (imageUrlOf page) = Some url
                   ∧ v = localPath (filenameOf page url) ∧ delivered fuel url = true).
  { intros v Hv. destruct (Hfrom _ _ Hv) as [Hm | (page' & url' & Hin' & Hid & -> & Hd)];
      [by rewrite lookup_empty in Hm|].
    apply requests_elem in Hin' as [Hin' Hurl'].
    assert (page' = page) as -> by (by eapply distinct_ids). by exists url'. }
  cbn [Shaper.image ShaperPages.shape]. unfold ShaperPages.resolveImage.
  rewrite remoteImage_is_imageUrl.
  destruct (truthy (imageUrlOf page)) as [url|] eqn:Hurl.
  - destruct (delivered fuel url) eqn:Hd.
    + destruct (Hall page url) as [v Hv]; [by apply requests_elem|done|].
      rewrite Hv. destruct (Hentry v Hv) as (url' & [= <-] & -> & _). done.
    + destruct (imageMap !! id page) as [v|] eqn:Hv; [|done].
      destruct (Hentry v eq_refl) as (url' & [= <-] & _ & Hd'). congruence.
  - destruct (imageMap !! id page) as [v|] eqn:Hv; [|done].
    by destruct (Hentry v eq_refl) as (url' & [=] & _).
Qed.

End FetcherRunFacts.

(** ** Slug derivation, once more *)

Section SlugAgain.
Import Slug.

Lemma slugUnit_lower (c : N) : slugUnit c → lowerUnit c = [c].
Proof.
  unfold slugUnit, isAlnum, lowerUnit, hyphen.
  rewrite orb_true_iff, !andb_true_iff, !N.leb_le. intros H.
  repeat (case_match; try reflexivity);
    repeat match goal with
           | H : _ || _ = true |- _ => apply orb_true_iff in H as [H|H]
           | H : _ && _ = true |- _ => apply andb_true_iff in H as [? ?]
           | H : negb _ = true |- _ => clear H
           | H : (_ <=? _) = true |- _ => apply N.leb_le in H
           | H : (_ =? _) = true |- _ => apply N.eqb_eq in H
           end; lia.
Qed.

Lemma slugUnit_plain (c : N) : slugUnit c → isUmlaut c = false.
Proof.
  unfold slugUnit, isAlnum, isUmlaut, hyphen.
  rewrite orb_true_iff, !andb_true_iff, !N.leb_le. intros H.
  rewrite !orb_false_iff, !N.eqb_neq. lia.
Qed.

Lemma toLowerCase_slug (s : jsstring) : Forall slugUnit s → toLowerCase s = s.
Proof.
  induction 1 as [|c r Hc Hr IH]; [done|].
  unfold toLowerCase in *. cbn [flat_map]. rewrite slugUnit_lower by done.
  simpl. by rewrite IH.
Qed.

Lemma replaceUmlauts_slug (s : jsstring) : Forall slugUnit s → replaceUmlauts s = s.
Proof.
  induction 1 as [|c r Hc Hr IH]; [done|].
  unfold replaceUmlauts in *. cbn [flat_map]. rewrite slugUnit_plain by done.
  simpl. by rewrite IH.
Qed.

Lemma collapseRuns_slug (s : jsstring) :
  ∀ inRun, Forall slugUnit s → noDoubleHyphen s →
           (inRun = true → head s ≠ Some hyphen) →
           collapseRuns inRun s = s.
Proof.
  induction s as [|c r IH]; intros inRun Hunits Hdouble Hhead; [done|].
  inversion Hunits as [|? ? Hc Hr]; subst.
  assert (Hd : noDoubleHyphen r) by (destruct r; [done|apply Hdouble]).
  cbn [collapseRuns]. destruct (isAlnum c) eqn:Halnum.
  - f_equal. apply IH; [done|done|discriminate].
  - destruct Hc as [Hc | ->]; [congruence|].
    destruct inRun; [by destruct Hhead|].
    f_equal. apply IH; [done|done|]. intros _.
    destruct r as [|b r']; [done|]. destruct Hdouble as [Hab _].
    simpl. intros [= ->]. by apply Hab.
Qed.

Lemma stripEdges_slug (s : jsstring) :
  ∀ atStart, (atStart = true → head s ≠ Some hyphen) → last s ≠ Some hyphen →
             stripEdges atStart s = s.
Proof.
  induction s as [|c r IH]; intros atStart Hhead Hlast; [done|].
  cbn [stripEdges].
  assert (Hkeep : (c =? hyphen) && (atStart || bool_decide (r = [])) = false).
  { destruct (N.eqb_spec c hyphen) as [->|Hc]; [|done]. simpl.
    destruct atStart; [by destruct Hhead|]. simpl.
    apply bool_decide_eq_false. intros ->. by apply Hlast. }
  rewrite Hkeep. f_equal. apply IH; [discriminate|].
  destruct r as [|b r']; [done|]. by rewrite last_cons_cons in Hlast.
Qed.

Lemma slugify_of_slug (s : jsstring) : wellFormedSlug s → slugify s = s.
Proof.
  intros (Hunits & Hhead & Hlast & Hdouble). unfold slugify.
  rewrite toLowerCase_slug, replaceUmlauts_slug by done.
  rewrite collapseRuns_slug by (done || discriminate).
  by apply stripEdges_slug.
Qed.

(** X11: a slug is its own slug: deriving the slug of a slug changes nothing. *)
Theorem slugify_idempotent (text : jsstring) :
  slugify (slugify text) = slugify text.
Proof. apply slugify_of_slug, slug_shape. Qed.

End SlugAgain.

(** ** Record shaper: from pages to articles *)

Section ShaperPagesFacts.
Import Notion Shaper ShaperPages.

Lemma orElse_nonempty (o : option jsstring) (d : jsstring) : d ≠ [] → orElse o d ≠ [].
Proof. unfold orElse, truthy. by destruct o as [[|c s]|]. Qed.

Lemma truthy_nonempty (o : option jsstring) : truthy o ≠ Some [].
Proof. by destruct o as [[|c s]|]. Qed.

Lemma resolveImage_nonempty (imageMap : gmap jsstring jsstring) (page : Page) :
  resolveImage imageMap page ≠ Some [].
Proof.
  unfold resolveImage, remoteImage.
  destruct (truthy (imageMap !! Notion.id page)) as [u|] eqn:Hu.
  - rewrite <- Hu. apply truthy_nonempty.
  - destruct (Bild page) as [[|file rest]|]; try done.
    destruct (strictEq _ _); [apply truthy_nonempty|].
    destruct (strictEq _ _); [apply truthy_nonempty|done].
Qed.

(** X12: the shaper substitutes defaults instead of failing.  It returns one
    article per page, in the order of the pages and under their identifiers;
    whatever fields a page lacks, the title, the category and the author of
    its article are not empty, its slug is the well-formed slug of its
    title, and its image is absent rather than an empty string. *)
Theorem shaped_articles_are_complete (imageMap : gmap jsstring jsstring)
    (results : list Page) :
  List.map Shaper.id (getPublishedNews imageMap results) = List.map Notion.id results
  ∧ ∀ article, article ∈ getPublishedNews imageMap results →
      title article ≠ [] ∧ category article ≠ [] ∧ author article ≠ []
      ∧ slug article = Slug.slugify (title article)
      ∧ Slug.wellFormedSlug (slug article)
      ∧ image article ≠ Some [].
Proof.
  unfold getPublishedNews. split.
  - rewrite List.map_map. reflexivity.
  - intros article Hin. apply list_elem_of_In, in_map_iff in Hin as (page & <- & _).
    cbn. repeat split; try (apply orElse_nonempty; by vm_compute).
    + apply slug_shape.
    + apply slug_shape.
    + apply slug_shape.
    + apply slug_shape.
    + apply resolveImage_nonempty.
Qed.

Lemma indexOf_digits (key : jsstring) (i : N) :
  indexOf key = Some i → ∀ c, c ∈ key → isDigit c = true.
Proof.
  unfold indexOf. destruct key as [|c0 rest]; [done|].
  destruct (forallb isDigit (c0 :: rest)) eqn:Hall; [|done].
  intros _ c Hc. rewrite forallb_forall in Hall. by apply Hall, list_elem_of_In.
Qed.

Lemma member_missing (builtins : Builtins) (imageMap : ImportedMap) (key : jsstring) :
  Slug.hyphen ∈ key →
  (∀ k, ofString builtins k = true ∨ ofObject builtins k = true → Slug.hyphen ∉ k) →
  member builtins imageMap key = Missing.
Proof.
  intros Hkey Hnames.
  assert (Hs : ofString builtins key = false).
  { destruct (ofString builtins key) eqn:H; [|done]. destruct (Hnames key); auto. }
  assert (Ho : ofObject builtins key = false).
  { destruct (ofObject builtins key) eqn:H; [|done]. destruct (Hnames key); auto. }
  unfold member. destruct imageMap as [url|]; [|by rewrite Ho].
  destruct (indexOf key) as [i|] eqn:Hindex.
  { pose proof (indexOf_digits _ _ Hindex _ Hkey) as Hdigit. by vm_compute in Hdigit. }
  unfold strictEq. rewrite bool_decide_eq_false_2, Hs, Ho; [done|].
  intros ->. apply list_elem_of_In in Hkey. vm_compute in Hkey. intuition discriminate.
Qed.

(** X13: the shapers on the image of a page.  The shaper that imports the
    image map never takes an image from it: what it imports is the address
    of the JSON file, so under a page identifier that holds a hyphen, as the
    identifiers of Notion do, it finds nothing and gives the remote address
    of the page, which is what the shaper that reads the map from disk gives
    under an empty map.  The shaper without an image map gives the same as
    long as the first file of the page carries the address of its own kind
    only. *)
Theorem importing_shaper_never_uses_the_map (builtins : Builtins)
    (imageMap : ImportedMap) (page : Page) :
  (Slug.hyphen ∈ Notion.id page →
   (∀ k, ofString builtins k = true ∨ ofObject builtins k = true → Slug.hyphen ∉ k) →
   resolveImageImported builtins imageMap page
   = match resolveImage ∅ page with
     | Some u => Text u
     | None => Null
     end)
  ∧ (firstFileIsPlain page → resolveImageRemote page = resolveImage ∅ page).
Proof.
  split.
  - intros Hid Hnames. unfold resolveImageImported.
    rewrite (member_missing _ _ _ Hid Hnames).
    unfold resolveImage. by rewrite lookup_empty.
  - unfold firstFileIsPlain, resolveImageRemote, resolveImage, remoteImage.
    rewrite lookup_empty. simpl.
    destruct (Bild page) as [[|file rest]|]; try done.
    unfold strictEq. intros [[-> He] | [-> Hf]].
    + rewrite bool_decide_eq_true_2 by done. rewrite He.
      by destruct (truthy (file_url file)).
    + rewrite bool_decide_eq_false_2 by (by vm_compute).
      rewrite bool_decide_eq_true_2 by done. by rewrite Hf.
Qed.

(** X14: [getNewsArticle] returns the first article that carries the slug:
    the article it returns stands in the list behind articles with other
    slugs only, and it returns none exactly when no article has the slug. *)
Theorem getNewsArticle_finds_the_first (articles : list NewsArticle) (slug_ : jsstring) :
  (∀ article, getNewsArticle articles slug_ = Some article →
      slug article = slug_
      ∧ ∃ before after, articles = before ++ article :: after
                        ∧ ∀ other, other ∈ before → slug other ≠ slug_)
  ∧ (getNewsArticle articles slug_ = None ↔ ∀ other, other ∈ articles → slug other ≠ slug_).
Proof.
  unfold getNewsArticle, strictEq. induction articles as [|a rest [IHsome IHnone]].
  - split; [done|]. split; [|done]. intros _ other H. by apply elem_of_nil in H.
  - cbn [List.find]. case_bool_decide as Ha.
    + split.
      * intros article [= <-]. split; [done|]. exists [], rest. split; [done|].
        intros other H. by apply elem_of_nil in H.
      * split; [done|]. intros Hall. destruct (Hall a); [by left|done].
    + split.
      * intros article Hfind. destruct (IHsome _ Hfind) as (Hs & before & after & -> & Hb).
        split; [done|]. exists (a :: before), after. split; [done|].
        intros other [->|Hin]%elem_of_cons; auto.
      * rewrite IHnone. split.
        -- intros Hall other [->|Hin]%elem_of_cons; auto.
        -- intros Hall other Hin. apply Hall. by right.
Qed.

Variable newDate : jsstring -> Date.
Variable renderDE : Z -> completion jsstring.

(** X15: the [formatDate] with the fallback returns normally on every input
    and whatever the renderer does: the placeholder for an empty or
    unparsable string and when the renderer throws, the rendering
    otherwise. *)
Theorem formatDate_with_fallback_never_throws (dateString : jsstring) :
  (∃ out, formatDate newDate renderDE dateString = Normal out)
  ∧ (dateString = [] ∨ newDate dateString = InvalidDate →
     formatDate newDate renderDE dateString = Normal placeholder)
  ∧ (∀ t e, dateString ≠ [] → newDate dateString = TimeValue t → renderDE t = Throw e →
     formatDate newDate renderDE dateString = Normal placeholder)
  ∧ (∀ t s, dateString ≠ [] → newDate dateString = TimeValue t → renderDE t = Normal s →
     formatDate newDate renderDE dateString = Normal s).
Proof.
  unfold formatDate. repeat split.
  - case_bool_decide; [by eexists|].
    destruct (newDate dateString) as [|t]; simpl; [by eexists|].
    destruct (renderDE t); by eexists.
  - intros [->|Hd]; [done|]. case_bool_decide; [done|]. by rewrite Hd.
  - intros t e Hne Hd Hr. rewrite bool_decide_eq_false_2 by done.
    rewrite Hd. simpl. by rewrite Hr.
  - intros t s Hne Hd Hr. rewrite bool_decide_eq_false_2 by done.
    rewrite Hd. simpl. by rewrite Hr.
Qed.

End ShaperPagesFacts.

(** ** Optimizer: what a call does to the files and to the cache *)

Section CallFacts.
Import Optimizer Outcomes.

Variable siteRoot : jsstring.
Variable md5 : list Byte.byte -> jsstring.
Variable metadata : jsstring -> list Byte.byte -> completion (option N).
Variable toFile :
  option N -> Encoder -> jsstring -> list Byte.byte -> jsstring -> Written.
Variable now : nat -> jsstring.

Local Abbreviation optimizeImage := (Optimizer.optimizeImage md5 metadata toFile now).
Local Abbreviation processFiles := (Optimizer.processFiles md5 metadata toFile now).
Local Abbreviation processDirectory := (Optimizer.processDirectory md5 metadata toFile now).
Local Abbreviation processDirs := (Optimizer.processDirs md5 metadata toFile now).
Local Abbreviation main := (Optimizer.main siteRoot md5 metadata toFile now).
Local Abbreviation fileOutcomes := (Optimizer.fileOutcomes md5 metadata toFile now).
Local Abbreviation mainOutcomes := (Optimizer.mainOutcomes siteRoot md5 metadata toFile now).
Local Abbreviation ends := (Outcomes.ends md5 metadata toFile now).

Lemma replaced_files (filepath : jsstring) (out : list Byte.byte) (w : World) :
  files (replaced filepath out w)
  = <[filepath := out]> (delete (tempPathOf filepath)
                           (<[tempPathOf filepath := out]> (files w))).
Proof.
  unfold replaced, renameSync. cbn [written files withFiles].
  by rewrite lookup_insert_eq.
Qed.

Lemma replaced_rest (filepath : jsstring) (out : list Byte.byte) (w : World) :
  imageCache (replaced filepath out w) = imageCache w
  ∧ clock (replaced filepath out w) = clock w.
Proof.
  unfold replaced, renameSync. cbn [written files withFiles].
  by rewrite lookup_insert_eq.
Qed.

(** Every call on a supported image that is read and is no cache hit ends in
    one of the five ways. *)
Lemma optimizeImage_ends (filepath : jsstring) (w w' : World) (buffer : list Byte.byte)
    (r : completion Result) :
  supported filepath →
  files w !! filepath = Some buffer →
  isOptimized w filepath (md5 buffer) = false →
  optimizeImage filepath w = (r, w') →
  ends filepath w buffer r w'.
Proof.
  intros Hsup Hfile Hmiss. unfold Optimizer.optimizeImage.
  rewrite Hsup. cbn [negb]. rewrite Hfile, Hmiss.
  unfold Optimizer.tryBlock.
  destruct (metadata filepath buffer) as [width|e] eqn:Hmeta.
  2:{ intros [= <- <-]. by constructor. }
  destruct (supported_encoder _ Hsup) as [enc Henc]. rewrite Henc.
  destruct (toFile (resizeFor filepath width) enc filepath buffer (tempPathOf filepath))
    as [out|e part] eqn:Hout; cbn [thrownBy].
  2:{ intros [= <- <-]. by eapply ends_encode. }
  cbn [written files withFiles]. rewrite lookup_insert_eq.
  destruct (N.ltb_spec (N.of_nat (length out)) (N.of_nat (length buffer))) as [Hlt|Hge].
  - unfold Optimizer.commit.
    change (renameSync (tempPathOf filepath) filepath
              (withFiles (<[tempPathOf filepath:=out]> (files w)) w))
      with (replaced filepath out w).
    assert (Hbase : files (replaced filepath out w) !! filepath = Some out).
    { rewrite replaced_files. apply lookup_insert_eq. }
    unfold strictEq. case_bool_decide as Hext; cbn [negb].
    + unfold getFileHash. rewrite Hbase. intros [= <- <-].
      eapply ends_commit with (w3 := replaced filepath out w);
        [exact Hmeta|exact Henc|exact Hout|lia|by left|exact Hbase].
    + rewrite Hbase.
      destruct (toFile None (webp webpQuality) filepath out _) as [wout|e part] eqn:Hweb;
        cbn [thrownBy].
      * unfold getFileHash.
        destruct (files (written _ (Encoded wout) (replaced filepath out w)) !! filepath)
          as [content|] eqn:Hcontent.
        -- intros [= <- <-].
           eapply ends_commit
             with (w3 := written (webpPathOf (extOf filepath) filepath) (Encoded wout)
                           (replaced filepath out w));
             [exact Hmeta|exact Henc|exact Hout|lia| |exact Hcontent].
           right. split; [done|]. by exists wout.
        -- exfalso. cbn [written files withFiles] in Hcontent.
           destruct (decide (webpPathOf (extOf filepath) filepath = filepath)) as [Heq|Hne].
           ++ rewrite Heq, lookup_insert_eq in Hcontent. discriminate.
           ++ rewrite lookup_insert_ne, Hbase in Hcontent by done. discriminate.
      * intros [= <- <-]. eapply ends_sibling; eauto. lia.
  - unfold Optimizer.discard. intros [= <- <-].
    eapply ends_discard; eauto. lia.
Qed.

(** The four ways a call can go: the extension is not supported; the file
    cannot be read; the cache entry is a hit; the [try] block runs. *)
Lemma optimizeImage_cases (filepath : jsstring) (w w' : World) (r : completion Result) :
  optimizeImage filepath w = (r, w') →
  (¬ supported filepath ∧ w' = w
   ∧ r = Normal (Skipped (js "Nicht unterst" ++ [252] ++ js "tztes Format")))
  ∨ (supported filepath ∧ files w !! filepath = None ∧ w' = w
     ∧ r = Throw (ENOENT (js "open") filepath))
  ∨ (supported filepath ∧ w' = w ∧ r = Normal (Skipped (js "Bereits optimiert"))
     ∧ ∃ buffer, files w !! filepath = Some buffer
                 ∧ isOptimized w filepath (md5 buffer) = true)
  ∨ (supported filepath
     ∧ ∃ buffer, files w !! filepath = Some buffer
                 ∧ isOptimized w filepath (md5 buffer) = false
                 ∧ ends filepath w buffer r w').
Proof.
  intros Hrun. destruct (arrayIncludes (extOf filepath) supportedFormats) eqn:Hsup.
  - right. destruct (files w !! filepath) as [buffer|] eqn:Hfile.
    + right. destruct (isOptimized w filepath (md5 buffer)) eqn:Hhit.
      * left. unfold Optimizer.optimizeImage in Hrun.
        rewrite Hsup, Hfile, Hhit in Hrun. injection Hrun as <- <-.
        repeat split; try done. by exists buffer.
      * right. split; [done|]. exists buffer. repeat split; try done.
        by apply optimizeImage_ends.
    + left. unfold Optimizer.optimizeImage in Hrun.
      rewrite Hsup, Hfile in Hrun. by injection Hrun as <- <-.
  - left. unfold Optimizer.optimizeImage in Hrun. rewrite Hsup in Hrun.
    injection Hrun as <- <-. unfold supported. rewrite Hsup. done.
Qed.

Lemma isOptimized_true (w : World) (filepath hash_ : jsstring) :
  isOptimized w filepath hash_ = true ↔
  ∃ cached, imageCache w !! filepath = Some cached
            ∧ hash cached = hash_ ∧ optimized cached = true.
Proof.
  unfold isOptimized, strictEq. destruct (imageCache w !! filepath) as [cached|].
  - case_bool_decide as Hh; simpl.
    + destruct (optimized cached) eqn:Ho; simpl.
      * split; [by exists cached|done].
      * split; [done|]. intros (c & [= <-] & _ & Ho'). congruence.
    + split; [done|]. intros (c & [= <-] & Hh' & _). done.
  - split; [done|]. by intros (c & [=] & _).
Qed.

Lemma keep_written (dst p : jsstring) (o : Written) (w : World) :
  is_Some (files w !! p) → is_Some (files (written dst o w) !! p).
Proof.
  intros Hp. destruct o as [out|e [part|]]; cbn [written files withFiles]; try done;
    (destruct (decide (dst = p)) as [->|Hne];
       [by rewrite lookup_insert_eq | by rewrite lookup_insert_ne]).
Qed.

Lemma keep_replaced (filepath p : jsstring) (out : list Byte.byte) (w : World) :
  p ≠ tempPathOf filepath →
  is_Some (files w !! p) → is_Some (files (replaced filepath out w) !! p).
Proof.
  intros Hp Hsome. rewrite replaced_files.
  destruct (decide (filepath = p)) as [->|Hne]; [by rewrite lookup_insert_eq|].
  rewrite lookup_insert_ne by done. rewrite lookup_delete_ne by done.
  by rewrite lookup_insert_ne.
Qed.

(** X16: a call removes nothing but its own temporary file: every other file
    that exists before the call exists after it, however the call ends. *)
Theorem call_removes_only_its_temporary_file (filepath p : jsstring) (w w' : World)
    (r : completion Result) :
  optimizeImage filepath w = (r, w') →
  p ≠ tempPathOf filepath →
  is_Some (files w !! p) →
  is_Some (files w' !! p).
Proof.
  intros Hrun Hp Hsome.
  destruct (optimizeImage_cases _ _ _ _ Hrun)
    as [(_ & -> & _) | [(_ & _ & -> & _) | [(_ & -> & _) | (_ & buffer & _ & _ & Hends)]]];
    try done.
  destruct Hends.
  - done.
  - by apply keep_written.
  - cbn. rewrite lookup_delete_ne by done. by rewrite lookup_insert_ne.
  - by apply keep_written, keep_replaced.
  - cbn [setEntry tick withImageCache files].
    match goal with H : _ ∨ _ |- _ =>
      destruct H as [[_ ->] | (_ & wout & _ & ->)] end.
    + by apply keep_replaced.
    + by apply keep_written, keep_replaced.
Qed.

Lemma size_written (dst filepath : jsstring) (o : Written) (w : World) (n : nat) :
  dst ≠ filepath →
  (∃ c, files w !! filepath = Some c ∧ (length c <= n)%nat) →
  ∃ c, files (written dst o w) !! filepath = Some c ∧ (length c <= n)%nat.
Proof.
  intros Hne Hc. destruct o as [out|e [part|]]; cbn [written files withFiles]; try done;
    by rewrite lookup_insert_ne.
Qed.

(** X17: a call never makes the image larger.  When the WebP path of the image
    is not the image itself, the image holds after the call, however it
    ends, at most as many bytes as before. *)
Theorem call_never_enlarges_the_image (filepath : jsstring) (w w' : World)
    (buffer : list Byte.byte) (r : completion Result) :
  webpPathOf (extOf filepath) filepath ≠ filepath →
  files w !! filepath = Some buffer →
  optimizeImage filepath w = (r, w') →
  ∃ content, files w' !! filepath = Some content
             ∧ (length content <= length buffer)%nat.
Proof.
  intros Hweb Hfile Hrun. pose proof (tempPathOf_ne filepath) as Htemp.
  assert (Hsame : ∃ c, files w !! filepath = Some c ∧ (length c <= length buffer)%nat)
    by (by exists buffer).
  assert (Hrepl : ∀ out, (length out < length buffer)%nat →
    ∃ c, files (replaced filepath out w) !! filepath = Some c
         ∧ (length c <= length buffer)%nat).
  { intros out Hlt. exists out. rewrite replaced_files, lookup_insert_eq. split; [done|lia]. }
  destruct (optimizeImage_cases _ _ _ _ Hrun)
    as [(_ & -> & _) | [(_ & _ & -> & _) | [(_ & -> & _) | (_ & b & Hb & _ & Hends)]]];
    try done.
  rewrite Hfile in Hb. injection Hb as <-. destruct Hends.
  - done.
  - by apply size_written.
  - cbn. rewrite lookup_delete_ne by done. rewrite lookup_insert_ne by done. done.
  - apply size_written; [done|]. by apply Hrepl.
  - cbn [setEntry tick withImageCache files].
    match goal with H : _ ∨ _ |- _ =>
      destruct H as [[_ ->] | (_ & wout & _ & ->)] end.
    + by apply Hrepl.
    + apply size_written; [done|]. by apply Hrepl.
Qed.

(** X18: a call that returns a success or a skip on a supported image leaves
    the image as a cache hit: the next call returns the skip "Bereits
    optimiert" and changes nothing.  This covers the image that could not be
    made smaller as well as the one that was. *)
Theorem examined_image_is_skipped_next (filepath : jsstring) (w w' : World) (r : Result) :
  supported filepath →
  optimizeImage filepath w = (Normal r, w') →
  (∀ e, r ≠ Error e) →
  optimizeImage filepath w' = (Normal (Skipped (js "Bereits optimiert")), w').
Proof.
  intros Hsup Hrun Hok. pose proof (tempPathOf_ne filepath) as Htemp.
  destruct (optimizeImage_cases _ _ _ _ Hrun)
    as [(Hno & _) | [(_ & _ & _ & [=])
       | [(_ & -> & [= ->] & b & Hb & Hhit) | (_ & b & Hb & _ & Hends)]]];
    [done|by rewrite Hrun|].
  inversion Hends; subst; try (by edestruct Hok).
  - eapply optimizeImage_cache_hit with (buffer := b);
      [done| |cbn; apply lookup_insert_eq|reflexivity|reflexivity].
    cbn. rewrite lookup_delete_ne by done. rewrite lookup_insert_ne by done. exact Hb.
  - eapply optimizeImage_cache_hit with (buffer := content);
      [done| |cbn; apply lookup_insert_eq|reflexivity|reflexivity].
    cbn [setEntry tick withImageCache files]. eassumption.
Qed.

(** X19: the skip "Bereits optimiert" is returned exactly for a supported image
    that can be read and whose cache entry is marked optimized under the hash
    of its present bytes; so an image whose bytes have changed, or whose
    entry is missing or not marked, is never passed over. *)
Theorem cache_hit_exactly_when_entry_matches (filepath : jsstring) (w w' : World) :
  optimizeImage filepath w = (Normal (Skipped (js "Bereits optimiert")), w')
  ↔ w' = w ∧ supported filepath
    ∧ ∃ buffer cached,
        files w !! filepath = Some buffer
        ∧ imageCache w !! filepath = Some cached
        ∧ hash cached = md5 buffer
        ∧ optimized cached = true.
Proof.
  split.
  - intros Hrun.
    destruct (optimizeImage_cases _ _ _ _ Hrun)
      as [(_ & _ & [= H]) | [(_ & _ & _ & [=]) | [(Hsup & -> & _ & b & Hb & Hhit)
         | (_ & b & Hb & _ & Hends)]]].
    + split; [done|]. split; [done|].
      apply isOptimized_true in Hhit as (cached & ? & ? & ?). by exists b, cached.
    + inversion Hends.
  - intros (-> & Hsup & buffer & cached & Hfile & Hentry & Hhash & Hopt).
    by eapply optimizeImage_cache_hit.
Qed.

(** X20: what a success reports is what happened.  The original size is the
    size the image had, the optimized size is smaller, the saving is their
    positive difference, and the cache entry written holds these sizes and
    the hash of the bytes now on disk, which number the optimized size when
    the WebP path is not the image itself. *)
Theorem success_reports_the_real_sizes (filepath : jsstring) (w w' : World)
    (resized : bool) (o s : N) (saved : Z) :
  optimizeImage filepath w = (Normal (Success resized o s saved), w') →
  ∃ buffer content ts,
    files w !! filepath = Some buffer
    ∧ o = N.of_nat (length buffer)
    ∧ s < o
    ∧ saved = (Z.of_N o - Z.of_N s)%Z ∧ (0 < saved)%Z
    ∧ files w' !! filepath = Some content
    ∧ imageCache w' !! filepath
      = Some {| hash := md5 content; optimized := true; originalSize := o;
                optimizedSize := s; timestamp := ts |}
    ∧ (webpPathOf (extOf filepath) filepath ≠ filepath →
       N.of_nat (length content) = s).
Proof.
  intros Hrun.
  destruct (optimizeImage_cases _ _ _ _ Hrun)
    as [(_ & _ & [=]) | [(_ & _ & _ & [=]) | [(_ & _ & [=] & _)
       | (_ & b & Hb & _ & Hends)]]].
  inversion Hends; subst.
  match goal with H : files w3 !! filepath = Some _ |- _ => rename H into Hcontent end.
  eexists b, content, _. split; [done|]. split; [done|]. split; [lia|].
  split; [done|]. split; [lia|]. split; [exact Hcontent|].
  split; [cbn; apply lookup_insert_eq|].
  intros Hweb.
  match goal with H : _ ∨ _ |- _ =>
    destruct H as [[_ ->] | (_ & wout & _ & ->)] end.
  - rewrite replaced_files, lookup_insert_eq in Hcontent. by injection Hcontent as <-.
  - cbn [written files withFiles] in Hcontent.
    rewrite lookup_insert_ne in Hcontent by done.
    rewrite replaced_files, lookup_insert_eq in Hcontent. by injection Hcontent as <-.
Qed.

(** X21: a call throws, instead of returning an error result, exactly when
    the path has a supported extension and there is no file to read at it;
    the state is then left as it was. *)
Theorem call_throws_exactly_on_unreadable_image (filepath : jsstring) (w w' : World) :
  (∃ e, optimizeImage filepath w = (Throw e, w'))
  ↔ supported filepath ∧ files w !! filepath = None ∧ w' = w.
Proof.
  split.
  - intros [e Hrun].
    destruct (optimizeImage_cases _ _ _ _ Hrun)
      as [(_ & _ & [=]) | [(? & ? & ? & _) | [(_ & _ & [=] & _)
         | (_ & b & Hb & _ & Hends)]]]; [done|].
    inversion Hends.
  - intros (Hsup & Hfile & ->). eexists. unfold Optimizer.optimizeImage.
    rewrite Hsup. cbn [negb]. by rewrite Hfile.
Qed.

(** ** Optimizer: what a run does *)

Lemma tally_sum (outcomes : list (jsstring * Result)) :
  Tally.howMany Tally.isSuccess outcomes + Tally.howMany Tally.isSkipped outcomes
  + Tally.howMany Tally.isCountedError outcomes <= N.of_nat (length outcomes)
  ∧ ((∀ f, (f, Error []) ∉ outcomes) →
     Tally.howMany Tally.isSuccess outcomes + Tally.howMany Tally.isSkipped outcomes
     + Tally.howMany Tally.isCountedError outcomes = N.of_nat (length outcomes)).
Proof.
  induction outcomes as [|[f r] l [IHle IHeq]].
  - unfold Tally.howMany. simpl. split; [lia|done].
  - rewrite !howMany_cons. cbn [snd length]. rewrite Nat2N.inj_succ.
    destruct r as [rs o s saved|reason|message];
      cbn [Tally.isSuccess Tally.isSkipped Tally.isCountedError].
    + split; [lia|]. intros Hmsg. rewrite <- IHeq; [lia|].
      intros f0 Hin. apply (Hmsg f0). by right.
    + split; [lia|]. intros Hmsg. rewrite <- IHeq; [lia|].
      intros f0 Hin. apply (Hmsg f0). by right.
    + case_bool_decide as Hm; cbn [negb].
      * split; [lia|]. intros Hmsg. subst. destruct (Hmsg f). by left.
      * split; [lia|]. intros Hmsg. rewrite <- IHeq; [lia|].
        intros f0 Hin. apply (Hmsg f0). by right.
Qed.

(** X22: every image of a directory is counted once.  When the loop over the
    images of a directory finishes, it has handled each of them, and its
    three counters are the numbers of successes, of skips and of error
    results with a message among the results; so they add up to the number
    of images unless an error carried an empty message. *)
Theorem every_image_is_counted_once (dirPath : jsstring) (imageFiles : list jsstring)
    (w w' : World) (stats : Stats) :
  processFiles dirPath imageFiles
    {| processed := 0; skipped := 0; errors := 0; totalSaved := Num 0 |} w
  = (Normal stats, w') →
  length (fileOutcomes dirPath imageFiles w) = length imageFiles
  ∧ processed stats = Tally.howMany Tally.isSuccess (fileOutcomes dirPath imageFiles w)
  ∧ skipped stats = Tally.howMany Tally.isSkipped (fileOutcomes dirPath imageFiles w)
  ∧ errors stats = Tally.howMany Tally.isCountedError (fileOutcomes dirPath imageFiles w)
  ∧ processed stats + skipped stats + errors stats <= N.of_nat (length imageFiles)
  ∧ ((∀ f, (f, Error []) ∉ fileOutcomes dirPath imageFiles w) →
     processed stats + skipped stats + errors stats = N.of_nat (length imageFiles)).
Proof.
  intros Hrun.
  destruct (processFiles_tally _ _ _ _ _ _ _ _ _ _ Hrun) as (Hlen & Hp & Hs & He).
  simpl in Hp, Hs, He. rewrite Hp, Hs, He, <- Hlen.
  destruct (tally_sum (fileOutcomes dirPath imageFiles w)) as [Hle Heq].
  repeat split; done.
Qed.

Lemma fileOutcomes_savings (dirPath : jsstring) (imageFiles : list jsstring) :
  ∀ w, (0 <= savedIn (fileOutcomes dirPath imageFiles w))%Z.
Proof.
  induction imageFiles as [|file rest IH]; intros w; simpl; [done|].
  destruct (optimizeImage (Path.join dirPath file) w) as [[result|e] w1] eqn:Hone;
    [|done].
  unfold savedIn in *. simpl. specialize (IH w1).
  destruct result as [rs o s saved|reason|message]; try done.
  destruct (optimizeImage_success_inv _ _ _ _ _ _ _ _ _ _ _ Hone) as (_ & Hlt & -> & _).
  lia.
Qed.

Lemma mainOutcomes_savings (w : World) : (0 <= savedIn (mainOutcomes w))%Z.
Proof.
  unfold Optimizer.mainOutcomes. generalize (loadCache w). generalize (imageDirs siteRoot).
  intros dirPaths. induction dirPaths as [|d rest IH]; intros w0; simpl; [done|].
  rewrite savedIn_app.
  assert (0 <= savedIn (Optimizer.directoryOutcomes md5 metadata toFile now d w0))%Z.
  { unfold Optimizer.directoryOutcomes. destruct (dirs w0 !! d); [|done].
    apply fileOutcomes_savings. }
  destruct (Optimizer.processDirectory md5 metadata toFile now d w0) as [[st|e] w1].
  - specialize (IH w1). lia.
  - unfold savedIn at 2. simpl. lia.
Qed.

(** X23: when every configured directory exists and lists a supported image,
    the total that a finished run reports is the sum of the bytes saved by
    the images it processed successfully, and it is not negative. *)
Theorem total_is_the_sum_of_the_savings (w w' : World) (totalStats : Stats) :
  (∀ d, d ∈ imageDirs siteRoot → ¬ nothingToDo d w) →
  main w = (Normal totalStats, w') →
  totalSaved totalStats = Num (savedIn (mainOutcomes w))
  ∧ (0 <= savedIn (mainOutcomes w))%Z.
Proof.
  intros Hwork Hrun. split; [by eapply main_totals|apply mainOutcomes_savings].
Qed.

(** *** The cache across a run *)

Lemma carriedOver_refl (paths : list jsstring) (c : gmap jsstring CacheEntry) :
  Tally.carriedOver paths c c.
Proof. by intros q. Qed.

Lemma carriedOver_trans (p1 p2 : list jsstring) (c1 c2 c3 : gmap jsstring CacheEntry) :
  Tally.carriedOver p1 c1 c2 → Tally.carriedOver p2 c2 c3 →
  Tally.carriedOver (p1 ++ p2) c1 c3.
Proof.
  intros H12 H23 q. destruct (H12 q) as [Hk1 Ho1], (H23 q) as [Hk2 Ho2]. split.
  - auto.
  - intros Hq. apply not_elem_of_app in Hq as [? ?]. rewrite Ho2, Ho1; done.
Qed.

Lemma carriedOver_insert (filepath : jsstring) (e : CacheEntry)
    (c : gmap jsstring CacheEntry) :
  Tally.carriedOver [filepath] c (<[filepath := e]> c).
Proof.
  intros q. split.
  - intros Hq. destruct (decide (filepath = q)) as [->|Hne];
      [by rewrite lookup_insert_eq | by rewrite lookup_insert_ne].
  - intros Hq. apply not_elem_of_cons in Hq as [Hne _]. by rewrite lookup_insert_ne.
Qed.

Lemma written_cache (dst : jsstring) (o : Written) (w : World) :
  imageCache (written dst o w) = imageCache w.
Proof. by destruct o as [out|e [part|]]. Qed.

Lemma optimizeImage_cache (filepath : jsstring) (w w' : World) (r : Result) :
  optimizeImage filepath w = (Normal r, w') →
  Tally.carriedOver [filepath] (imageCache w) (imageCache w').
Proof.
  intros Hrun.
  destruct (optimizeImage_cases _ _ _ _ Hrun)
    as [(_ & -> & _) | [(_ & _ & -> & _) | [(_ & -> & _) | (_ & buffer & _ & _ & Hends)]]];
    try apply carriedOver_refl.
  destruct Hends.
  - apply carriedOver_refl.
  - rewrite written_cache. apply carriedOver_refl.
  - cbn [setEntry tick withImageCache imageCache unlinkSync withFiles written].
    apply carriedOver_insert.
  - rewrite written_cache. rewrite (proj1 (replaced_rest _ _ _)). apply carriedOver_refl.
  - cbn [setEntry tick withImageCache imageCache].
    match goal with H : _ ∨ _ |- _ =>
      destruct H as [[_ ->] | (_ & wout & _ & ->)] end.
    + rewrite (proj1 (replaced_rest _ _ _)). apply carriedOver_insert.
    + rewrite written_cache, (proj1 (replaced_rest _ _ _)). apply carriedOver_insert.
Qed.

Lemma processFiles_cache (dirPath : jsstring) (imageFiles : list jsstring) :
  ∀ stats w r w',
    processFiles dirPath imageFiles stats w = (r, w') →
    Tally.carriedOver (fileOutcomes dirPath imageFiles w).*1 (imageCache w) (imageCache w').
Proof.
  induction imageFiles as [|file rest IH]; intros stats w r w' Hrun; simpl in Hrun |- *.
  - injection Hrun as <- <-. apply carriedOver_refl.
  - destruct (optimizeImage (Path.join dirPath file) w) as [[result|e] w1] eqn:Hone.
    + cbn [fmap list_fmap fst].
      change (Path.join dirPath file :: (fileOutcomes dirPath rest w1).*1)
        with ([Path.join dirPath file] ++ (fileOutcomes dirPath rest w1).*1).
      eapply carriedOver_trans; [by eapply optimizeImage_cache|by eapply IH].
    + injection Hrun as <- <-.
      destruct (optimizeImage_frame _ _ _ _ _ _ _ _ Hone) as (_ & _ & ->).
      apply carriedOver_refl.
Qed.

Lemma processDirectory_cache (dirPath : jsstring) (w w' : World) (r : completion Stats) :
  processDirectory dirPath w = (r, w') →
  Tally.carriedOver (Optimizer.directoryOutcomes md5 metadata toFile now dirPath w).*1
    (imageCache w) (imageCache w').
Proof.
  unfold Optimizer.processDirectory, Optimizer.directoryOutcomes.
  destruct (dirs w !! dirPath) as [entries|];
    [|intros [= <- <-]; apply carriedOver_refl].
  case_bool_decide as Hlen; [|apply processFiles_cache].
  intros [= <- <-]. apply carriedOver_refl.
Qed.

Lemma processDirs_cache (dirPaths : list jsstring) :
  ∀ totalStats w r w',
    processDirs dirPaths totalStats w = (r, w') →
    Tally.carriedOver (Optimizer.dirsOutcomes md5 metadata toFile now dirPaths w).*1
      (imageCache w) (imageCache w').
Proof.
  induction dirPaths as [|d rest IH]; intros totalStats w r w' Hrun; simpl in Hrun |- *.
  - injection Hrun as <- <-. apply carriedOver_refl.
  - rewrite fmap_app.
    destruct (processDirectory d w) as [[stats|e] w1] eqn:Hdir.
    + eapply carriedOver_trans; [by eapply processDirectory_cache|by eapply IH].
    + injection Hrun as <- <-. simpl. rewrite app_nil_r.
      by eapply processDirectory_cache.
Qed.

Lemma processDirs_cacheFile (dirPaths : list jsstring) :
  ∀ totalStats w r w',
    processDirs dirPaths totalStats w = (r, w') → cacheFile w' = cacheFile w.
Proof.
  induction dirPaths as [|d rest IH]; intros totalStats w r w' Hrun; simpl in Hrun.
  - by injection Hrun as <- <-.
  - assert (Hone : ∀ r1 w1, processDirectory d w = (r1, w1) → cacheFile w1 = cacheFile w).
    { intros r1 w1. unfold Optimizer.processDirectory.
      destruct (dirs w !! d) as [entries|]; [|by intros [= <- <-]].
      case_bool_decide; [by intros [= <- <-]|].
      generalize (List.filter isImageFile entries)
        {| processed := 0; skipped := 0; errors := 0; totalSaved := Num 0 |} w.
      intros l. induction l as [|file l IHl]; intros st wa Hl; simpl in Hl.
      - by injection Hl as <- <-.
      - destruct (optimizeImage (Path.join d file) wa) as [[result|e] wb] eqn:Hcall;
          destruct (optimizeImage_frame _ _ _ _ _ _ _ _ Hcall) as ((_ & Hc & _) & _).
        + rewrite (IHl _ _ Hl). exact Hc.
        + by injection Hl as <- <-. }
    destruct (processDirectory d w) as [[stats|e] w1] eqn:Hdir.
    + rewrite (IH _ _ _ _ Hrun). by eapply Hone.
    + injection Hrun as <- <-. by eapply Hone.
Qed.

(** X24: the cache only grows.  A finished run that can write the cache file
    leaves in it an entry for every path that had one in the cache file it
    loaded, and leaves the entries of all paths it did not handle exactly as
    they were; entries of images that no longer exist are never removed. *)
Theorem cache_entries_are_never_dropped (w w' : World) (totalStats : Stats) :
  main w = (Normal totalStats, w') →
  cacheWritable w = true →
  ∃ saved,
    cacheFile w' = Some saved
    ∧ (∀ q, is_Some (default ∅ (cacheFile w) !! q) → is_Some (saved !! q))
    ∧ (∀ q, q ∉ (mainOutcomes w).*1 → saved !! q = default ∅ (cacheFile w) !! q).
Proof.
  unfold Optimizer.main, Optimizer.mainOutcomes. intros Hmain Hwritable.
  destruct (processDirs _ _ (loadCache w)) as [[st|e] wEnd] eqn:Hrun; [|discriminate].
  injection Hmain as _ <-.
  assert (Hw : cacheWritable wEnd = true).
  { rewrite (processDirs_cacheWritable _ _ _ _ _ _ _ _ _ Hrun).
    unfold loadCache. by destruct (cacheFile w). }
  unfold saveCache. rewrite Hw. exists (imageCache wEnd). split; [done|].
  pose proof (processDirs_cache _ _ _ _ _ Hrun) as Hcarried.
  assert (Hloaded : imageCache (loadCache w) = default ∅ (cacheFile w)).
  { unfold loadCache. by destruct (cacheFile w). }
  rewrite Hloaded in Hcarried.
  split; intros q; destruct (Hcarried q) as [Hkeep Hsame]; auto.
Qed.

(** X25: a listed image that cannot be read ends the run.  The loop throws
    at that image without handling the images behind it and leaves the
    state as it was before the image, and a run of [main] that ends by a
    throw leaves the cache file as it was, so the entries written for the
    images already handled are not saved. *)
Theorem unreadable_image_aborts_the_run :
  (∀ (dirPath file : jsstring) (rest : list jsstring) (stats : Stats) (w : World),
      supported (Path.join dirPath file) →
      files w !! Path.join dirPath file = None →
      ∃ e, processFiles dirPath (file :: rest) stats w = (Throw e, w))
  ∧ (∀ (w w' : World) (e : jsstring),
      main w = (Throw e, w') → cacheFile w' = cacheFile w).
Proof.
  split.
  - intros dirPath file rest stats w Hsup Hfile. eexists. cbn [Optimizer.processFiles].
    unfold Optimizer.optimizeImage. rewrite Hsup. cbn [negb]. by rewrite Hfile.
  - intros w w' e. unfold Optimizer.main.
    destruct (processDirs _ _ (loadCache w)) as [[st|e0] wEnd] eqn:Hrun; [discriminate|].
    intros [= _ <-]. rewrite (processDirs_cacheFile _ _ _ _ _ Hrun).
    unfold loadCache. by destruct (cacheFile w) eqn:Hfile.
Qed.

(** *** The paths a call derives from the image path *)

Lemma replace_absent (pat rep s : jsstring) :
  includes pat s = false → replace pat rep s = s.
Proof.
  induction s as [|c s IH]; simpl.
  - destruct (startsWith pat []); [discriminate|done].
  - destruct (startsWith pat (c :: s)); [discriminate|].
    simpl. intros H. by rewrite IH.
Qed.

Lemma replace_eq (pat rep s : jsstring) :
  replace pat rep s
  = if startsWith pat s then rep ++ drop (length pat) s
    else match s with
         | [] => []
         | c :: s' => c :: replace pat rep s'
         end.
Proof. by destruct s. Qed.

Lemma startsWith_app (p s : jsstring) : startsWith p (p ++ s) = true.
Proof.
  induction p as [|a p IHp]; [by destruct s|]. simpl. by rewrite N.eqb_refl, IHp.
Qed.

Lemma replace_first (stem e rep rest : jsstring) :
  Path.dot ∉ stem →
  replace (Path.dot :: e) rep (stem ++ (Path.dot :: e) ++ rest) = stem ++ rep ++ rest.
Proof.
  induction stem as [|c stem IH]; intros Hdot.
  - rewrite app_nil_l, replace_eq, startsWith_app, drop_app_length. done.
  - apply not_elem_of_cons in Hdot as [Hc Hdot].
    rewrite replace_eq. rewrite <- app_comm_cons. cbn [startsWith].
    destruct (N.eqb_spec Path.dot c) as [Heq|_]; [by subst|].
    cbn [andb]. by rewrite IH.
Qed.

Lemma elem_of_rev_iff (x : N) (l : jsstring) : x ∈ rev l ↔ x ∈ l.
Proof. rewrite !list_elem_of_In. symmetry. apply in_rev. Qed.

Lemma extname_plain (stem e : jsstring) (c : N) :
  c ≠ Path.slash → Path.dot ∉ e → Path.slash ∉ e → e ≠ [] →
  Path.extname (stem ++ [c] ++ Path.dot :: e) = Path.dot :: e.
Proof.
  intros Hc Hdot Hslash Hne. unfold Path.extname.
  assert (Hrev : rev (stem ++ [c] ++ Path.dot :: e)
                 = rev e ++ Path.dot :: c :: rev stem).
  { rewrite !rev_app_distr. simpl. by rewrite <- !app_assoc. }
  rewrite Hrev.
  assert (Hlast : ∃ a l, rev e = (a :: l) ∧ a ≠ Path.slash ∧ a ≠ Path.dot
                         ∧ (Path.dot ∉ l) ∧ (Path.slash ∉ l)).
  { destruct (rev e) as [|a l] eqn:He.
    - apply (f_equal (@rev N)) in He. rewrite rev_involutive in He. by subst.
    - exists a, l. split; [done|].
      assert (Hin : ∀ x, x ∈ a :: l → x ∈ e).
      { intros x Hx. apply (proj1 (elem_of_rev_iff x e)). by rewrite He. }
      repeat split; intros H.
      + apply Hslash, Hin. subst. left.
      + apply Hdot, Hin. subst. left.
      + apply Hdot, Hin. by right.
      + apply Hslash, Hin. by right. }
  destruct Hlast as (a & l & He & Ha1 & Ha2 & Hl1 & Hl2).
  assert (Hdrop : Path.dropSlashes (rev e ++ Path.dot :: c :: rev stem)
                  = rev e ++ Path.dot :: c :: rev stem).
  { rewrite He. simpl. by destruct (N.eqb_spec a Path.slash). }
  rewrite Hdrop.
  assert (Hcomp : ∀ r tl, Path.slash ∉ r →
            Path.untilUnit Path.slash (r ++ Path.dot :: c :: tl)
            = r ++ Path.dot :: c :: Path.untilUnit Path.slash tl).
  { induction r as [|x r IHr]; intros tl Hr.
    - simpl. destruct (N.eqb_spec c Path.slash); [done|]. done.
    - apply not_elem_of_cons in Hr as [Hx Hr]. simpl.
      destruct (N.eqb_spec x Path.slash); [done|]. by rewrite IHr. }
  rewrite Hcomp by (intros H; apply Hslash; by apply (proj1 (elem_of_rev_iff _ _)) in H).
  assert (Hafter : ∀ r tl, Path.dot ∉ r →
            Path.afterUnit Path.dot (r ++ Path.dot :: tl) = Some tl
            ∧ Path.untilUnit Path.dot (r ++ Path.dot :: tl) = r).
  { induction r as [|x r IHr]; intros tl Hr.
    - by simpl.
    - apply not_elem_of_cons in Hr as [Hx Hr]. simpl.
      destruct (N.eqb_spec x Path.dot); [done|].
      destruct (IHr tl Hr) as [-> ->]. done. }
  destruct (Hafter (rev e) (c :: Path.untilUnit Path.slash (rev stem))) as [-> ->].
  { intros H. apply Hdot. by apply (proj1 (elem_of_rev_iff _ _)) in H. }
  rewrite bool_decide_eq_false_2.
  - by rewrite rev_involutive.
  - rewrite He. intros H. injection H as Ha _. by subst.
Qed.

(** X26: what a call writes.  However the call ends, every file other than the
    image, its temporary file and its WebP path is as it was, the directory
    listings and the cache file are untouched, and the cache entries of all
    other paths are unchanged. *)
Theorem call_writes_only_its_three_paths (filepath p : jsstring) (w w' : World)
    (r : completion Result) :
  optimizeImage filepath w = (r, w') →
  p ≠ filepath →
  p ≠ tempPathOf filepath →
  p ≠ webpPathOf (extOf filepath) filepath →
  files w' !! p = files w !! p
  ∧ imageCache w' !! p = imageCache w !! p
  ∧ dirs w' = dirs w
  ∧ cacheFile w' = cacheFile w.
Proof.
  intros Hrun H1 H2 H3.
  destruct (optimizeImage_frame _ _ _ _ _ _ _ _ Hrun) as ((Hd & Hc & _ & Hoff) & Hcache & _).
  repeat split; auto. apply Hoff. unfold footprint.
  rewrite !not_elem_of_cons. repeat split; auto. apply not_elem_of_nil.
Qed.

(** X27: the WebP path of a plainly named image.  For a path that ends in one
    of the four supported extensions as written in the configuration, and
    that holds no other dot, the extension found is that extension and the
    WebP path is the path with the extension exchanged for ".webp". *)
Theorem webp_path_of_a_plain_name (stem ext : jsstring) (c : N) :
  ext ∈ supportedFormats →
  c ≠ Path.slash →
  Path.dot ∉ stem ++ [c] →
  extOf (stem ++ [c] ++ ext) = ext
  ∧ webpPathOf ext (stem ++ [c] ++ ext) = stem ++ [c] ++ js ".webp".
Proof.
  intros Hext Hc Hdot.
  assert (Hshape : ∃ e, ext = Path.dot :: e ∧ (Path.dot ∉ e) ∧ (Path.slash ∉ e) ∧ e ≠ []
                        ∧ toLowerCase ext = ext).
  { unfold supportedFormats in Hext. rewrite !elem_of_cons in Hext.
    destruct Hext as [->|[->|[->|[->|H]]]]; [| | | |by apply elem_of_nil in H];
      eexists; (split; [reflexivity|]);
      rewrite !not_elem_of_cons; repeat split;
      try (vm_compute; discriminate); try apply not_elem_of_nil. }
  destruct Hshape as (e & -> & He1 & He2 & He3 & Hlow). split.
  - unfold extOf. by rewrite extname_plain.
  - unfold webpPathOf.
    replace (stem ++ [c] ++ Path.dot :: e)
      with ((stem ++ [c]) ++ (Path.dot :: e) ++ []).
    + rewrite replace_first by done. by rewrite app_nil_r, <- app_assoc.
    + by rewrite app_nil_r, <- app_assoc.
Qed.

(** X28: an image whose path does not contain its lower-cased extension has
    itself as its WebP path, so a call writes no file but the image and its
    temporary file: no WebP sibling appears. *)
Theorem image_without_its_extension_gets_no_sibling (filepath : jsstring) (w w' : World)
    (r : completion Result) :
  includes (extOf filepath) filepath = false →
  optimizeImage filepath w = (r, w') →
  webpPathOf (extOf filepath) filepath = filepath
  ∧ ∀ p, p ≠ filepath → p ≠ tempPathOf filepath → files w' !! p = files w !! p.
Proof.
  intros Habsent Hrun.
  assert (Hpath : webpPathOf (extOf filepath) filepath = filepath)
    by (by apply replace_absent).
  split; [done|]. intros p H1 H2.
  destruct (optimizeImage_frame _ _ _ _ _ _ _ _ Hrun) as ((_ & _ & _ & Hoff) & _).
  apply Hoff. unfold footprint. rewrite Hpath, !not_elem_of_cons.
  repeat split; auto. apply not_elem_of_nil.
Qed.

(** X29: which by-products of a call the next listing takes for images.  The
    temporary file of any path never counts as an image, so one left behind
    is not processed; a WebP sibling does count, so the next run examines it
    as an image of its own. *)
Theorem by_products_in_the_next_listing (filepath : jsstring) :
  isImageFile (tempPathOf filepath) = false
  ∧ ∀ stem c, c ≠ Path.slash → isImageFile (stem ++ [c] ++ js ".webp") = true.
Proof.
  split.
  - unfold isImageFile, extOf, tempPathOf, Path.extname.
    rewrite rev_app_distr.
    change (rev (js ".tmp")) with [112; 109; 116; 46].
    cbn [app Path.dropSlashes Path.untilUnit Path.afterUnit N.eqb Pos.eqb
         Path.slash Path.dot].
    destruct (Path.untilUnit Path.slash (rev filepath)) as [|a l];
      [vm_compute; reflexivity|].
    rewrite bool_decide_eq_false_2 by discriminate. vm_compute. reflexivity.
  - intros stem c Hc. unfold isImageFile, extOf.
    change (js ".webp") with (Path.dot :: [119; 101; 98; 112]).
    rewrite extname_plain; [vm_compute; reflexivity|done| | |done];
      rewrite !not_elem_of_cons; repeat split; try discriminate;
      apply not_elem_of_nil.
Qed.

End CallFacts.


(** ** Concrete runs *)

Import Newsroom.

Local Abbreviation optimizeHere := (Optimizer.optimizeImage digest metadataOf encodeTo instant).
Local Abbreviation mainHere :=
  (Optimizer.main Scenario.siteRoot digest metadataOf encodeTo instant).
Local Abbreviation cmsImage := (js "http://cms.example/img").
Local Abbreviation noFiles := (∅ : gmap jsstring (list Byte.byte)).

(** The download behind a redirect leaves a file at another path alone. *)
Lemma download_touches_only_its_target_witness :
  snd (Fetcher.downloadImage foundRedirect 2 (Some cmsImage) (js "/img/a.png")
         {[ js "/img/b.png" := [Byte.x01] ]}) !! js "/img/b.png"
  = ({[ js "/img/b.png" := [Byte.x01] ]} : gmap jsstring (list Byte.byte))
      !! js "/img/b.png".
Proof.
  apply (download_touches_only_its_target foundRedirect 2 (Some cmsImage)
           (js "/img/a.png") (js "/img/b.png")).
  vm_compute. discriminate.
Defined.

(** The download behind a redirect leaves the body of the 200 answer. *)
Lemma download_leaves_body_or_no_data_witness :
  js "/img/a.png" = js "/img/a.png"
  ∧ ∃ u location body,
      foundRedirect (Fetcher.protocolOf u) u = Fetcher.Reply 200 location body
      ∧ snd (Fetcher.downloadImage foundRedirect 2 (Some cmsImage) (js "/img/a.png") noFiles)
          !! js "/img/a.png" = Some body.
Proof.
  apply (download_leaves_body_or_no_data foundRedirect 2 cmsImage (js "/img/a.png")
           noFiles _ (Fetcher.Resolved (js "/img/a.png"))).
  vm_compute. reflexivity.
Defined.

Lemma download_follows_redirect_chain_witness :
  Fetcher.downloadImage foundRedirect 2 (Some cmsImage) (js "/img/a.png") noFiles
  = (Fetcher.Resolved (js "/img/a.png"),
     <[js "/img/a.png" := [Byte.x89; Byte.x50; Byte.x4e; Byte.x47]]> noFiles).
Proof.
  apply (download_follows_redirect_chain foundRedirect 1 2 cmsImage
           (js "http://cdn.example/img.png") (js "/img/a.png") None).
  - apply (FetcherRun.redirects_more foundRedirect 0 cmsImage
             (js "http://cdn.example/img.png") (js "http://cdn.example/img.png") 302 []).
    + vm_compute. reflexivity.
    + right. reflexivity.
    + apply FetcherRun.redirects_none.
  - vm_compute. reflexivity.
  - lia.
Defined.

Lemma download_redirect_loop_never_settles_witness :
  fst (Fetcher.downloadImage loopingServer 50 (Some (js "http://cms.example/loop"))
         (js "/img/a.png") noFiles)
  = Fetcher.Pending.
Proof.
  apply (download_redirect_loop_never_settles loopingServer 50
           (js "http://cms.example/loop") (js "/img/a.png") 301 []).
  - vm_compute. reflexivity.
  - left. reflexivity.
Defined.

(** The run over the three pages: the only entry is that of the first page. *)
Lemma image_map_entries_come_from_downloads_witness :
  (∀ k v, fetchedMap !! k = Some v →
     ∃ page url, page ∈ pages ∧ Notion.id page = k
                 ∧ Notion.truthy (FetcherRun.imageUrlOf page) = Some url
                 ∧ v = js "/images/news/" ++ Slug.slugify (FetcherRun.titleOf page)
                       ++ FetcherRun.getExtension url
                 ∧ FetcherRun.delivered foundRedirect 2 url = true)
  ∧ (∀ k, (∀ page, page ∈ pages → Notion.id page = k →
             Notion.truthy (FetcherRun.imageUrlOf page) = None) →
          fetchedMap !! k = None).
Proof.
  apply (image_map_entries_come_from_downloads foundRedirect newsDir 2 pages
           noFiles fetchedFiles fetchedMap).
  apply (run_of_default _ (∅, ∅)). apply (bool_decide_unpack _). vm_compute. exact I.
Defined.

Lemma resolved_downloads_are_mapped_witness :
  is_Some (fetchedMap !! Notion.id summer)
  ∧ (NoDup (List.map Notion.id pages) →
     fetchedMap !! Notion.id summer
     = Some (FetcherRun.localPath (FetcherRun.filenameOf summer cmsImage))).
Proof.
  apply (resolved_downloads_are_mapped foundRedirect newsDir 2 pages
           noFiles fetchedFiles fetchedMap summer cmsImage).
  - apply (run_of_default _ (∅, ∅)). apply (bool_decide_unpack _). vm_compute. exact I.
  - left.
  - vm_compute. reflexivity.
  - vm_compute. reflexivity.
Defined.

Lemma mapped_images_exist_on_disk_witness :
  ∃ filename, js "/images/news/sommerfest.jpg" = js "/images/news/" ++ filename
              ∧ is_Some (fetchedFiles !! Path.join newsDir filename).
Proof.
  apply (mapped_images_exist_on_disk foundRedirect newsDir 2 pages
           noFiles fetchedFiles fetchedMap) with (k := js "p1").
  - apply (bool_decide_unpack _). vm_compute. exact I.
  - apply (run_of_default _ (∅, ∅)). apply (bool_decide_unpack _). vm_compute. exact I.
  - vm_compute. reflexivity.
Defined.

Lemma article_image_after_fetch_witness :
  Shaper.image (ShaperPages.shape fetchedMap summer)
  = match Notion.truthy (FetcherRun.imageUrlOf summer) with
    | None => None
    | Some url =>
        if FetcherRun.delivered foundRedirect 2 url
        then Some (js "/images/news/" ++ Slug.slugify (FetcherRun.titleOf summer)
                   ++ FetcherRun.getExtension url)
        else Some url
    end.
Proof.
  apply (article_image_after_fetch foundRedirect newsDir 2 pages
           noFiles fetchedFiles fetchedMap summer).
  - apply (run_of_default _ (∅, ∅)). apply (bool_decide_unpack _). vm_compute. exact I.
  - apply (bool_decide_unpack _). vm_compute. exact I.
  - left.
Defined.

(** The engine's inherited names hold no hyphen. *)
Lemma engine_names (k : jsstring) :
  ShaperPages.ofString engine k = true ∨ ShaperPages.ofObject engine k = true →
  Slug.hyphen ∉ k.
Proof.
  intros [H|H]; apply bool_decide_eq_true_1, list_elem_of_In in H; vm_compute in H;
    repeat (destruct H as [<-|H]; [apply (bool_decide_unpack _); vm_compute; exact I|]);
    destruct H.
Qed.

Lemma importing_shaper_never_uses_the_map_witness :
  ShaperPages.resolveImageImported engine
    (ShaperPages.AssetUrl (js "/src/data/image-map.json")) festival
  = match ShaperPages.resolveImage ∅ festival with
    | Some u => ShaperPages.Text u
    | None => ShaperPages.Null
    end.
Proof.
  apply (proj1 (importing_shaper_never_uses_the_map engine
                  (ShaperPages.AssetUrl (js "/src/data/image-map.json")) festival)).
  - apply (bool_decide_unpack _). vm_compute. exact I.
  - exact engine_names.
Defined.

(** With the image map that the fetcher wrote, the shaper that reads it from
    disk gives the local path of the page, and the one that imports it the
    remote address. *)
Lemma importing_shaper_misses_the_local_image :
  ShaperPages.resolveImage festivalMap festival = Some (js "/images/news/sommerfest.jpg")
  ∧ ShaperPages.resolveImageImported engine
      (ShaperPages.AssetUrl (js "/src/data/image-map.json")) festival
    = ShaperPages.Text (js "http://cms.example/img").
Proof. split; vm_compute; reflexivity. Qed.

(** The call on the team photo keeps the empty file next to it. *)
Lemma call_removes_only_its_temporary_file_witness :
  is_Some (files (snd (optimizeHere teamJpg worldNews)) !! emptyJpg).
Proof.
  apply (call_removes_only_its_temporary_file digest metadataOf encodeTo instant
           teamJpg emptyJpg worldNews _ (fst (optimizeHere teamJpg worldNews))).
  - apply surjective_pairing.
  - vm_compute. discriminate.
  - exists []. vm_compute. reflexivity.
Defined.

Lemma call_never_enlarges_the_image_witness :
  ∃ content, files (snd (optimizeHere heroJpg worldHero)) !! heroJpg = Some content
             ∧ (length content <= length heroBytes)%nat.
Proof.
  apply (call_never_enlarges_the_image digest metadataOf encodeTo instant
           heroJpg worldHero _ heroBytes (fst (optimizeHere heroJpg worldHero))).
  - vm_compute. discriminate.
  - vm_compute. reflexivity.
  - apply surjective_pairing.
Defined.

(** The logo cannot be made smaller; the next call passes it over. *)
Lemma examined_image_is_skipped_next_witness :
  optimizeHere logoPng (snd (optimizeHere logoPng worldLogo))
  = (Normal (Skipped (js "Bereits optimiert")), snd (optimizeHere logoPng worldLogo)).
Proof.
  apply (examined_image_is_skipped_next digest metadataOf encodeTo instant
           logoPng worldLogo _ (Skipped Outcomes.noImprovement)).
  - vm_compute. reflexivity.
  - apply call_of_result. vm_compute. reflexivity.
  - intros e. discriminate.
Defined.

Lemma success_reports_the_real_sizes_witness :
  ∃ buffer content ts,
    files worldHero !! heroJpg = Some buffer
    ∧ 4 = N.of_nat (length buffer)
    ∧ 3 < 4
    ∧ 1%Z = (Z.of_N 4 - Z.of_N 3)%Z ∧ (0 < 1)%Z
    ∧ files worldHeroDone !! heroJpg = Some content
    ∧ imageCache worldHeroDone !! heroJpg
      = Some {| hash := digest content; optimized := true; originalSize := 4;
                optimizedSize := 3; timestamp := ts |}
    ∧ (webpPathOf (extOf heroJpg) heroJpg ≠ heroJpg → N.of_nat (length content) = 3).
Proof.
  apply (success_reports_the_real_sizes digest metadataOf encodeTo instant
           heroJpg worldHero worldHeroDone false 4 3 1%Z).
  apply (call_of_result (optimizeHere heroJpg worldHero)). vm_compute. reflexivity.
Defined.

(** The news directory: one image fails on its metadata, one in the codec,
    and the third is made smaller. *)
Lemma every_image_is_counted_once_witness :
  length (Optimizer.fileOutcomes digest metadataOf encodeTo instant newsDir
            [js "a-empty.jpg"; js "b-corrupt.png"; js "team.jpg"] worldNews) = 3%nat
  ∧ (1 : N) = Tally.howMany Tally.isSuccess
        (Optimizer.fileOutcomes digest metadataOf encodeTo instant newsDir
           [js "a-empty.jpg"; js "b-corrupt.png"; js "team.jpg"] worldNews)
  ∧ (0 : N) = Tally.howMany Tally.isSkipped
        (Optimizer.fileOutcomes digest metadataOf encodeTo instant newsDir
           [js "a-empty.jpg"; js "b-corrupt.png"; js "team.jpg"] worldNews)
  ∧ (2 : N) = Tally.howMany Tally.isCountedError
        (Optimizer.fileOutcomes digest metadataOf encodeTo instant newsDir
           [js "a-empty.jpg"; js "b-corrupt.png"; js "team.jpg"] worldNews)
  ∧ 1 + 0 + 2 <= N.of_nat 3
  ∧ ((∀ f, (f, Error [])
           ∉ Optimizer.fileOutcomes digest metadataOf encodeTo instant newsDir
               [js "a-empty.jpg"; js "b-corrupt.png"; js "team.jpg"] worldNews) →
     1 + 0 + 2 = N.of_nat 3).
Proof.
  apply (every_image_is_counted_once digest metadataOf encodeTo instant newsDir
           [js "a-empty.jpg"; js "b-corrupt.png"; js "team.jpg"] worldNews
           (snd (Optimizer.processFiles digest metadataOf encodeTo instant newsDir
                   [js "a-empty.jpg"; js "b-corrupt.png"; js "team.jpg"]
                   {| processed := 0; skipped := 0; errors := 0; totalSaved := Num 0 |}
                   worldNews))
           {| processed := 1; skipped := 0; errors := 2; totalSaved := Num 1 |}).
  apply call_of_result. vm_compute. reflexivity.
Defined.

(** Both configured directories hold one JPEG, and each loses one byte. *)
Lemma total_is_the_sum_of_the_savings_witness :
  Num 2
  = Num (savedIn (Optimizer.mainOutcomes Scenario.siteRoot digest metadataOf encodeTo
                    instant worldBoth))
  ∧ (0 <= savedIn (Optimizer.mainOutcomes Scenario.siteRoot digest metadataOf encodeTo
                     instant worldBoth))%Z.
Proof.
  apply (total_is_the_sum_of_the_savings Scenario.siteRoot digest metadataOf encodeTo
           instant worldBoth (snd (mainHere worldBoth))
           {| processed := 2; skipped := 0; errors := 0; totalSaved := Num 2 |}).
  - intros d Hd [Hnone | (entries & Hsome & Hnoimage)];
      apply elem_of_cons in Hd as [->|Hd];
      try (apply elem_of_cons in Hd as [->|Hd]; [|by apply elem_of_nil in Hd]).
    + vm_compute in Hnone. discriminate.
    + vm_compute in Hnone. discriminate.
    + vm_compute in Hsome. injection Hsome as <-. vm_compute in Hnoimage. discriminate.
    + vm_compute in Hsome. injection Hsome as <-. vm_compute in Hnoimage. discriminate.
  - apply call_of_result. vm_compute. reflexivity.
Defined.

(** The second run over the images directory starts from the cache file of
    the first and writes it back with its entries. *)
Lemma cache_entries_are_never_dropped_witness :
  ∃ saved,
    cacheFile (snd (mainHere worldHeroRerun)) = Some saved
    ∧ (∀ q, is_Some (default ∅ (cacheFile worldHeroRerun) !! q) → is_Some (saved !! q))
    ∧ (∀ q, q ∉ (Optimizer.mainOutcomes Scenario.siteRoot digest metadataOf encodeTo
                   instant worldHeroRerun).*1 →
            saved !! q = default ∅ (cacheFile worldHeroRerun) !! q).
Proof.
  apply (cache_entries_are_never_dropped Scenario.siteRoot digest metadataOf encodeTo
           instant worldHeroRerun (snd (mainHere worldHeroRerun))
           {| processed := 0; skipped := 2; errors := 0; totalSaved := NaN |}).
  - apply call_of_result. vm_compute. reflexivity.
  - reflexivity.
Defined.

Lemma call_writes_only_its_three_paths_witness :
  files (snd (optimizeHere teamJpg worldNews)) !! emptyJpg = files worldNews !! emptyJpg
  ∧ imageCache (snd (optimizeHere teamJpg worldNews)) !! emptyJpg
    = imageCache worldNews !! emptyJpg
  ∧ dirs (snd (optimizeHere teamJpg worldNews)) = dirs worldNews
  ∧ cacheFile (snd (optimizeHere teamJpg worldNews)) = cacheFile worldNews.
Proof.
  apply (call_writes_only_its_three_paths digest metadataOf encodeTo instant
           teamJpg emptyJpg worldNews _ (fst (optimizeHere teamJpg worldNews))).
  - apply surjective_pairing.
  - vm_compute. discriminate.
  - vm_compute. discriminate.
  - vm_compute. discriminate.
Defined.

Lemma webp_path_of_a_plain_name_witness :
  extOf (js "/srv/site/public/images/her" ++ [111] ++ js ".jpg") = js ".jpg"
  ∧ webpPathOf (js ".jpg") (js "/srv/site/public/images/her" ++ [111] ++ js ".jpg")
    = js "/srv/site/public/images/her" ++ [111] ++ js ".webp".
Proof.
  apply (webp_path_of_a_plain_name (js "/srv/site/public/images/her") (js ".jpg") 111).
  - left.
  - vm_compute. discriminate.
  - apply (bool_decide_unpack _). vm_compute. exact I.
Defined.

(** The camera file with the upper-case extension. *)
Lemma image_without_its_extension_gets_no_sibling_witness :
  webpPathOf (extOf photoJPG) photoJPG = photoJPG
  ∧ ∀ p, p ≠ photoJPG → p ≠ tempPathOf photoJPG →
         files (snd (optimizeHere photoJPG worldPhoto)) !! p = files worldPhoto !! p.
Proof.
  apply (image_without_its_extension_gets_no_sibling digest metadataOf encodeTo instant
           photoJPG worldPhoto _ (fst (optimizeHere photoJPG worldPhoto))).
  - vm_compute. reflexivity.
  - apply surjective_pairing.
Defined.
